(** * Document ingestion pipeline: extraction cascade, chunker, storage ids

    A shallow embedding of the Python services under [backend/services]
    ([document_processor.py], [pdf_processor.py], [vector_store.py]) and the
    properties of the ingestion pipeline proved about it.

    Conventions.
    - A Python [str] is a list of characters; a character is a code point
      in the range 0..255, written as an [ascii].
    - A Python [int] is a [Z]; list indices produced by [enumerate] are [nat].
    - A [while] loop is a [Fixpoint] on a fuel argument: one unit of fuel per
      evaluation of the loop condition, [None] (or [OutOfFuel]) when the fuel
      runs out before the loop exits.
    - The libraries the services call (pypdf, pdf2image, pytesseract, PIL,
      python-docx, python-pptx, chromadb) are outside the repository: what
      they return for a given file is an input of the model. *)

From Stdlib Require Import ZArith Ascii String List Lia Bool.
From stdpp Require Import base list gmap strings pretty.

Local Open Scope Z_scope.

(** ** The Python runtime operations the services use *)

Module Py.

Definition str : Type := list ascii.

(** A string literal of the source. *)
Definition lit (s : string) : str := list_ascii_of_string s.

(** [len(s)] *)
Definition len {A} (s : list A) : Z := Z.of_nat (length s).

(** Truth value of a sequence: [if s:] holds when [s] is not empty. *)
Definition truthy {A} (s : list A) : bool :=
  match s with [] => false | _ :: _ => true end.

(** [c.isspace()], which is also the class [\s] of [re] on [str] patterns:
    TAB..CR, FS..US, SPACE, NEL and NBSP among the code points below 256. *)
Definition isspace (c : ascii) : bool :=
  let n := N_of_ascii c in
  (((9 <=? n) && (n <=? 13)) || ((28 <=? n) && (n <=? 32))
   || (n =? 133) || (n =? 160))%N.

Fixpoint lstrip (s : str) : str :=
  match s with
  | c :: s' => if isspace c then lstrip s' else s
  | [] => []
  end.

Definition rstrip (s : str) : str := rev (lstrip (rev s)).

(** [s.strip()] *)
Definition strip (s : str) : str := rstrip (lstrip s).

(** Index adjustment of a slice bound against a sequence of length [n]
    (step 1): a negative bound counts from the end, and every bound is
    clipped to [0..n]. *)
Definition adjust_index (n i : Z) : Z :=
  if i <? 0 then (if i + n <? 0 then 0 else i + n)
  else if n <? i then n else i.

(** [s[start:stop]] *)
Definition slice {A} (s : list A) (start stop : Z) : list A :=
  let n := len s in
  let lo := adjust_index n start in
  let hi := adjust_index n stop in
  take (Z.to_nat (hi - lo)) (drop (Z.to_nat lo) s).

(** [re.sub(r"\s+", " ", s)]: every maximal run of whitespace becomes one
    space.  [in_run] tells that the previous character was whitespace. *)
Fixpoint sub_ws_from (in_run : bool) (s : str) : str :=
  match s with
  | [] => []
  | c :: s' =>
      if isspace c
      then (if in_run then sub_ws_from true s'
            else " "%char :: sub_ws_from true s')
      else c :: sub_ws_from false s'
  end.

Definition sub_ws (s : str) : str := sub_ws_from false s.

(** [sep.join(parts)] *)
Fixpoint join (sep : str) (parts : list str) : str :=
  match parts with
  | [] => []
  | [p] => p
  | p :: ps => p ++ sep ++ join sep ps
  end.

(** [c.lower()] on code points below 256: A..Z and the Latin-1 capitals
    (0xC0..0xDE except the multiplication sign 0xD7) move up by 32. *)
Definition lower_char (c : ascii) : ascii :=
  let n := N_of_ascii c in
  if (((65 <=? n) && (n <=? 90))
      || ((192 <=? n) && (n <=? 222) && negb (n =? 215)))%N
  then ascii_of_N (n + 32) else c.

(** [s.lower()] *)
Definition lower (s : str) : str := map lower_char s.

(** The line feed of the literal ["\n"]. *)
Definition newline : str := ["010"%char].

(** [str(i)] for a non-negative [int]: its decimal digits. *)
Definition str_of_nat (i : nat) : str := lit (pretty i).

End Py.

(** ** document_processor.py: the chunker *)

Module DocumentProcessor.
Import Py.

Definition _CHUNK_SIZE : Z := 500.
Definition _CHUNK_OVERLAP : Z := 50.

(** The [while start < len(text)] loop of [_split_into_chunks]; it returns
    the final value of [start] together with [chunks]. *)
Fixpoint while_loop (fuel : nat) (text : str) (chunk_size step : Z)
    (start : Z) (chunks : list str) : option (Z * list str) :=
  match fuel with
  | O => None
  | S fuel' =>
      if start <? len text then
        let end_ := start + chunk_size in
        let chunk := strip (slice text start end_) in
        let chunks := if truthy chunk then chunks ++ [chunk] else chunks in
        while_loop fuel' text chunk_size step (start + step) chunks
      else Some (start, chunks)
  end.

Definition _split_into_chunks (fuel : nat) (text : str)
    (chunk_size overlap : Z) : option (list str) :=
  if negb (truthy text) then Some []
  else
    let step := chunk_size - overlap in
    snd <$> while_loop fuel text chunk_size step 0 [].

End DocumentProcessor.

(** ** pdf_processor.py: the chunker *)

Module PdfProcessor.
Import Py.

Definition _CHUNK_SIZE : Z := 500.
Definition _CHUNK_OVERLAP : Z := 50.

(** The [while start < len(text)] loop of [_split_into_chunks]. *)
Fixpoint while_loop (fuel : nat) (text : str) (chunk_size step : Z)
    (start : Z) (chunks : list str) : option (Z * list str) :=
  match fuel with
  | O => None
  | S fuel' =>
      if start <? len text then
        let chunk := strip (slice text start (start + chunk_size)) in
        let chunks := if truthy chunk then chunks ++ [chunk] else chunks in
        while_loop fuel' text chunk_size step (start + step) chunks
      else Some (start, chunks)
  end.

Definition _split_into_chunks (fuel : nat) (text : str)
    (chunk_size overlap : Z) : option (list str) :=
  if negb (truthy text) then Some []
  else
    let step := chunk_size - overlap in
    snd <$> while_loop fuel text chunk_size step 0 [].

End PdfProcessor.

(** ** Exceptions, the libraries, and the effects of the services *)

Module Effects.
Import Py.

(** The exception classes the services distinguish.  An exception carries
    the most specific of them it is an instance of; [BaseException] stands
    for the exceptions that are not instances of [Exception]
    (KeyboardInterrupt, SystemExit). *)
Inductive exn_class : Type :=
  BaseException | Exception | RuntimeError | ValueError | ImportError.

Record exn : Type := { cls : exn_class; msg : str }.

(** [issubclass(c, d)] *)
Definition issubclass (c d : exn_class) : bool :=
  match d, c with
  | BaseException, _ => true
  | Exception, BaseException => false
  | Exception, _ => true
  | RuntimeError, RuntimeError => true
  | ValueError, ValueError => true
  | ImportError, ImportError => true
  | _, _ => false
  end.

(** What a call into a library gives: a value or a raised exception. *)
Inductive result (A : Type) : Type :=
| Ok (a : A)
| Err (e : exn).
Arguments Ok {A} a.
Arguments Err {A} e.

(** An embedded raster image of a page: its name, and what decoding it
    ([Image.open(io.BytesIO(img_obj.data)).convert("RGB")]) and then
    [pytesseract.image_to_string(pil_img, lang="eng")] give. *)
Record image : Type := { img_name : str; img_ocr : result str }.

(** A page of a [pypdf.PdfReader]: [page.extract_text()] (a [str] or
    [None]) and [page.images]. *)
Record pdf_page : Type := {
  extract_text : result (option str);
  images : result (list image) }.

(** A shape of a slide: [shape.has_text_frame] and the text of each
    paragraph of [shape.text_frame.paragraphs]. *)
Record shape : Type := { has_text_frame : bool; paragraphs : list str }.

(** The libraries, as the file system and the OCR engine answer them.
    A failing lazy [import] of pypdf, docx or pptx is part of the first
    call into that library. *)
Record libs : Type := {
  (** [pypdf.PdfReader(file_path)] with its [.pages] *)
  PdfReader : str -> result (list pdf_page);
  (** [from pdf2image import convert_from_path] *)
  import_pdf2image : result unit;
  (** [convert_from_path(file_path, dpi=300, poppler_path=...)]: the page
      images, each with what [pytesseract.image_to_string] gives on it *)
  convert_from_path : str -> result (list (result str));
  (** [docx.Document(file_path).paragraphs], the [.text] of each *)
  Document : str -> result (list str);
  (** [Presentation(file_path).slides], each with its [.shapes] *)
  Presentation : str -> result (list (list shape)) }.

(** The lines the services print. *)
Inductive message : Type :=
| DocExtracting (file_path ext : str)
| DocNoText
| DocExtracted (nchars : Z)
| DocCreated (nchunks : Z)
| OcrRunning
| OcrPage (page_no : nat) (nchars : Z)
| OcrPageNoText (page_no : nat)
| ImgFound (page_no : nat) (name : str) (nchars : Z)
| ImgSkipping (page_no : nat) (exc : exn)
| ImgProcessed (total found : Z)
| Stage1 (file_path : str)
| Stage1Extracted (nchars : Z)
| Stage1None
| Stage2
| Stage2Extracted (nchars : Z)
| Stage2None
| Stage2Skipped (e : exn)
| Stage3
| Stage3Extracted (nchars : Z)
| Stage3None
| Stage3Skipped (e : exn)
| PdfNoText
| PdfTotal (nchars nchunks : Z)
| StoreSkipping
| StoreStored (nchunks : Z) (document_id : str) (total : Z).

(** The calls into the libraries. *)
Inductive call : Type :=
| CallPdfReader (file_path : str)
| CallExtractText (page_index : nat)
| CallPageImages (page_index : nat)
| CallImageOcr (page_index : nat) (name : str)
| CallImportPdf2image
| CallConvertFromPath (file_path : str)
| CallPageOcr (page_index : nat)
| CallDocument (file_path : str)
| CallPresentation (file_path : str)
| CallCollectionAdd (ids : list str).

(** What a run does, in order. *)
Inductive event : Type :=
| Print (m : message)
| Call (c : call).

(** How a run ends: with a value, with an exception that left the
    function, or still running when the fuel is gone. *)
Inductive outcome (A : Type) : Type :=
| Returns (a : A)
| Raises (e : exn)
| OutOfFuel.
Arguments Returns {A} a.
Arguments Raises {A} e.
Arguments OutOfFuel {A}.

(** A computation: the events it performed and how it ended. *)
Definition M (A : Type) : Type := list event * outcome A.

#[global] Instance M_ret : MRet M := fun A a => ([], Returns a).

(** Sequencing: the events of [m], then those of [k] when [m] returned. *)
#[global] Instance M_bind : MBind M := fun A B k m =>
  match m with
  | (t, Returns a) => let '(t', r) := k a in (t ++ t', r)
  | (t, Raises e) => (t, Raises e)
  | (t, OutOfFuel) => (t, OutOfFuel)
  end.

Definition raise {A} (e : exn) : M A := ([], Raises e).

Definition print (m : message) : M unit := ([Print m], Returns tt).

(** A call into a library, with the answer the library gives. *)
Definition lib_call {A} (c : call) (r : result A) : M A :=
  ([Call c], match r with Ok a => Returns a | Err e => Raises e end).

(** [try: body / except C as e: handler e] *)
Definition try_except {A} (body : M A) (C : exn_class)
    (handler : exn -> M A) : M A :=
  match body with
  | (t, Raises e) =>
      if issubclass (cls e) C
      then let '(t', r) := handler e in (t ++ t', r)
      else (t, Raises e)
  | m => m
  end.

#[global] Instance M_fmap : FMap M := fun A B f m =>
  match m with
  | (t, Returns a) => (t, Returns (f a))
  | (t, Raises e) => (t, Raises e)
  | (t, OutOfFuel) => (t, OutOfFuel)
  end.

(** The result of a chunker run as an outcome. *)
Definition of_fuel {A} (o : option A) : M A :=
  ([], match o with Some a => Returns a | None => OutOfFuel end).

(** [for x in l: s = body s x] *)
Fixpoint for_each {A S} (l : list A) (body : S -> A -> M S) (s : S) : M S :=
  match l with
  | [] => mret s
  | x :: l' => s' ← body s x; for_each l' body s'
  end.

(** [enumerate(l)] *)
Definition enumerate {A} (l : list A) : list (nat * A) :=
  zip (seq 0 (length l)) l.

End Effects.

(** ** document_processor.py: extraction and the public entry point *)

Module DocumentProcessorApi.
Import Py Effects DocumentProcessor.

Definition _SUPPORTED_EXTENSIONS : list str :=
  [lit ".pdf"; lit ".docx"; lit ".pptx"].

(** [sorted(_SUPPORTED_EXTENSIONS)] *)
Definition sorted_SUPPORTED_EXTENSIONS : list str :=
  [lit ".docx"; lit ".pdf"; lit ".pptx"].

Definition _extract_pdf (L : libs) (file_path : str) : M str :=
  reader ← lib_call (CallPdfReader file_path) (PdfReader L file_path);
  pages ← for_each (enumerate reader) (fun (pages : list str) '(i, page) =>
      text ← lib_call (CallExtractText i) (extract_text page);
      match text with
      | Some text => mret (if truthy text then pages ++ [text] else pages)
      | None => mret pages
      end) [];
  mret (join newline pages).

Definition _extract_docx (L : libs) (file_path : str) : M str :=
  doc ← lib_call (CallDocument file_path) (Document L file_path);
  let paragraphs := foldl (fun (paragraphs : list str) para =>
      let text := strip para in
      if truthy text then paragraphs ++ [text] else paragraphs) [] doc in
  mret (join newline paragraphs).

Definition _extract_pptx (L : libs) (file_path : str) : M str :=
  prs ← lib_call (CallPresentation file_path) (Presentation L file_path);
  let slides_text := foldl (fun (slides_text : list str) slide =>
      let slide_parts := foldl (fun (slide_parts : list str) shape =>
          if has_text_frame shape then
            foldl (fun (slide_parts : list str) para =>
                let text := strip para in
                if truthy text then slide_parts ++ [text] else slide_parts)
              slide_parts (paragraphs shape)
          else slide_parts) [] slide in
      if truthy slide_parts
      then slides_text ++ [join (lit " ") slide_parts]
      else slides_text) [] prs in
  mret (join newline slides_text).

Definition unsupported_message (ext : str) : str :=
  lit "Unsupported file type '" ++ ext ++ lit "'. Supported types: "
  ++ join (lit ", ") sorted_SUPPORTED_EXTENSIONS.

(** The [if ext == ".pdf": ... elif ...: ...] dispatch of [process_document]. *)
Definition extract_raw (L : libs) (ext file_path : str) : M str :=
  if bool_decide (ext = lit ".pdf") then _extract_pdf L file_path
  else if bool_decide (ext = lit ".docx") then _extract_docx L file_path
  else if bool_decide (ext = lit ".pptx") then _extract_pptx L file_path
  else (* [raw] is unbound *)
    raise {| cls := Exception; msg := lit "UnboundLocalError" |}.

Definition process_document (L : libs) (fuel : nat)
    (file_path file_ext : str) : M (list str) :=
  let ext := lower file_ext in
  if negb (bool_decide (ext ∈ _SUPPORTED_EXTENSIONS)) then
    raise {| cls := ValueError; msg := unsupported_message ext |}
  else
    print (DocExtracting file_path ext);;
    raw ← extract_raw L ext file_path;
    let clean := strip (sub_ws raw) in
    if negb (truthy clean) then
      print DocNoText;; mret []
    else
      print (DocExtracted (len clean));;
      chunks ← of_fuel (_split_into_chunks fuel clean _CHUNK_SIZE _CHUNK_OVERLAP);
      print (DocCreated (len chunks));;
      mret chunks.

End DocumentProcessorApi.

(** ** pdf_processor.py: the three stages and the public entry point *)

Module PdfProcessorApi.
Import Py Effects PdfProcessor.

Definition _import_pdf2image (L : libs) : M unit :=
  try_except (lib_call CallImportPdf2image (import_pdf2image L)) ImportError
    (fun _ => raise {| cls := RuntimeError;
                       msg := lit "pdf2image is not installed. Run: pip install pdf2image" |}).

(** Stage 1 *)
Definition _extract_text_native (reader : list pdf_page) : M str :=
  pages ← for_each (enumerate reader) (fun (pages : list str) '(i, page) =>
      text ← lib_call (CallExtractText i) (extract_text page);
      let text := default [] text in
      mret (if truthy (strip text) then pages ++ [text] else pages)) [];
  let raw := join newline pages in
  mret (strip (sub_ws raw)).

(** Stage 2 *)
Definition _extract_text_ocr (L : libs) (file_path : str) : M str :=
  _import_pdf2image L;;
  print OcrRunning;;
  pages ← lib_call (CallConvertFromPath file_path) (convert_from_path L file_path);
  texts ← for_each (enumerate pages) (fun (texts : list str) '(i, page_img) =>
      text ← lib_call (CallPageOcr i) page_img;
      let text := strip text in
      if truthy text then
        print (OcrPage (i + 1)%nat (len text));; mret (texts ++ [text])
      else
        print (OcrPageNoText (i + 1)%nat);; mret texts) [];
  let combined := join newline texts in
  mret (strip (sub_ws combined)).

(** Stage 3.  The state of its loops is [(image_texts, total_images)]. *)

(** The body of [for img_obj in images], on page [page_num]. *)
Definition image_loop_body (page_num : nat) (st : list str * Z)
    (img_obj : image) : M (list str * Z) :=
  let '(image_texts, total_images) := st in
  let total_images := total_images + 1 in
  try_except
    (text ← lib_call (CallImageOcr page_num (img_name img_obj))
              (img_ocr img_obj);
     let text := strip text in
     if truthy text then
       print (ImgFound (page_num + 1)%nat (img_name img_obj) (len text));;
       mret (image_texts ++ [text], total_images)
     else mret (image_texts, total_images))
    Exception
    (fun exc =>
       print (ImgSkipping (page_num + 1)%nat exc);;
       mret (image_texts, total_images)).

(** The body of [for page_num, page in enumerate(reader.pages)]. *)
Definition page_loop_body (st : list str * Z) (item : nat * pdf_page)
    : M (list str * Z) :=
  let '(page_num, page) := item in
  images ← try_except
             (Some <$> lib_call (CallPageImages page_num) (images page))
             Exception
             (fun _ => mret None);
  match images with
  | None => mret st (* continue *)
  | Some images => for_each images (image_loop_body page_num) st
  end.

Definition _extract_images_text (reader : list pdf_page) : M str :=
  '(image_texts, total_images) ←
    for_each (enumerate reader) page_loop_body ([], 0);
  (if total_images =? 0 then mret tt
   else print (ImgProcessed total_images (len image_texts)));;
  let combined := join newline image_texts in
  mret (strip (sub_ws combined)).

(** The three stages of [process_pdf], from the opened [reader] to the list
    [parts] of the texts they found. *)
Definition stage_parts (L : libs) (reader : list pdf_page) (file_path : str)
    : M (list str) :=
  let parts : list str := [] in
  print (Stage1 file_path);;
  native_text ← _extract_text_native reader;
  parts ← (if truthy native_text then
             print (Stage1Extracted (len native_text));;
             mret (parts ++ [native_text])
           else print Stage1None;; mret parts);
  print Stage2;;
  parts ← try_except
            (ocr_text ← _extract_text_ocr L file_path;
             if truthy ocr_text then
               print (Stage2Extracted (len ocr_text));;
               mret (parts ++ [ocr_text])
             else print Stage2None;; mret parts)
            RuntimeError
            (fun e => print (Stage2Skipped e);; mret parts);
  print Stage3;;
  try_except
    (img_text ← _extract_images_text reader;
     if truthy img_text then
       print (Stage3Extracted (len img_text));;
       mret (parts ++ [img_text])
     else print Stage3None;; mret parts)
    RuntimeError
    (fun e => print (Stage3Skipped e);; mret parts).

Definition process_pdf (L : libs) (fuel : nat) (file_path : str)
    : M (list str) :=
  reader ← lib_call (CallPdfReader file_path) (PdfReader L file_path);
  parts ← stage_parts L reader file_path;
  let combined := strip (sub_ws (join (lit " ") parts)) in
  if negb (truthy combined) then
    print PdfNoText;; mret []
  else
    chunks ← of_fuel (_split_into_chunks fuel combined _CHUNK_SIZE _CHUNK_OVERLAP);
    print (PdfTotal (len combined) (len chunks));;
    mret chunks.

End PdfProcessorApi.

(** ** vector_store.py *)

Module VectorStore.
Import Py Effects.

(** The metadata dict [store_document] attaches to a chunk. *)
Record metadata : Type := {
  document_id : str;
  chunk_text : str;
  chunk_index : nat;
  timestamp : str }.

(** What the collection keeps under an id; [V] is the type of an embedding
    vector ([List[float]]), which the store only carries. *)
Record record (V : Type) : Type := {
  rec_embedding : V;
  rec_document : str;
  rec_metadata : metadata }.
Arguments rec_embedding {V} r.
Arguments rec_document {V} r.
Arguments rec_metadata {V} r.

(** The chromadb collection [_collection]: a finite map from ids to
    records; [_collection.count()] is its size. *)
Abbreviation collection V := (gmap str (record V)).

Definition count {V} (c : collection V) : Z := Z.of_nat (size c).

(** The rows of a batch, in order. *)
Definition rows {V} (ids : list str) (embeddings : list V)
    (documents : list str) (metadatas : list metadata)
    : list (str * record V) :=
  zip_with (fun id r => (id, r)) ids
    (zip_with (fun e dm => {| rec_embedding := e; rec_document := dm.1;
                              rec_metadata := dm.2 |})
       embeddings (zip documents metadatas)).

(** chromadb's [Collection.add(ids, embeddings, documents, metadatas)], by
    its documented contract: the lists must have one length and the ids of
    a batch must differ, otherwise it raises; a row whose id the collection
    already holds is ignored, the other rows are inserted. *)
Definition add_row {V} (c : collection V) (row : str * record V)
    : collection V :=
  match c !! row.1 with
  | Some _ => c
  | None => <[row.1 := row.2]> c
  end.

Definition collection_add {V} (c : collection V) (ids : list str)
    (embeddings : list V) (documents : list str) (metadatas : list metadata)
    : result (collection V) :=
  if negb (bool_decide (length embeddings = length ids
                        ∧ length documents = length ids
                        ∧ length metadatas = length ids)) then
    Err {| cls := ValueError; msg := lit "length mismatch" |}
  else if negb (bool_decide (NoDup ids)) then
    Err {| cls := Exception; msg := lit "DuplicateIDError" |}
  else Ok (foldl add_row c (rows ids embeddings documents metadatas)).

(** chromadb's [Collection.upsert], which [store_document] does not call:
    every row replaces what the collection holds under its id. *)
Definition upsert_row {V} (c : collection V) (row : str * record V)
    : collection V :=
  <[row.1 := row.2]> c.

(** The id of chunk [i] of a document: [f"{document_id}_chunk_{i}"]. *)
Definition chunk_id (document_id : str) (i : nat) : str :=
  document_id ++ lit "_chunk_" ++ str_of_nat i.

(** The [for i, chunk_text in enumerate(chunks)] loop: the lists [ids] and
    [metadatas] it builds. *)
Definition build_ids_metadatas (document_id : str) (chunks : list str)
    (timestamp : str) : list str * list metadata :=
  foldl (fun '(ids, metadatas) '(i, chunk_text) =>
      (ids ++ [chunk_id document_id i],
       metadatas ++ [ {| document_id := document_id;
                         chunk_text := chunk_text;
                         chunk_index := i;
                         timestamp := timestamp |} ]))
    ([], []) (enumerate chunks).

(** [store_document(document_id, chunks, embeddings)] on the collection
    [c], where [now] is what [datetime.now(timezone.utc).isoformat()] gives
    when the call reads the clock.  It returns the collection afterwards. *)
Definition store_document {V} (c : collection V) (now : str)
    (document_id : str) (chunks : list str) (embeddings : list V)
    : M (collection V) :=
  if negb (truthy chunks) then
    print StoreSkipping;; mret c
  else
    let timestamp := now in
    let '(ids, metadatas) := build_ids_metadatas document_id chunks timestamp in
    c' ← lib_call (CallCollectionAdd ids)
           (collection_add c ids embeddings chunks metadatas);
    print (StoreStored (len chunks) document_id (count c'));;
    mret c'.

End VectorStore.

(** ** Vocabulary of the properties *)

Module Spec.
Import Py Effects.

(** A string of whitespace only. *)
Definition all_space (s : str) : Prop := Forall (fun c => isspace c = true) s.

(** The source window of the [k]-th iteration of the chunker loop, before
    trimming: [text[start:start + chunk_size]] at [start = k * step]. *)
Definition window (text : str) (chunk_size overlap : Z) (k : nat) : str :=
  let step := chunk_size - overlap in
  slice text (Z.of_nat k * step) (Z.of_nat k * step + chunk_size).

(** The last [n] and the first [n] characters of a window (all of it when
    it is shorter). *)
Definition trailing (n : Z) (w : str) : str :=
  drop (length w - Z.to_nat n) w.
Definition leading (n : Z) (w : str) : str := take (Z.to_nat n) w.

(** What [n] iterations of the chunker loop append, from offset [start]. *)
Fixpoint chunks_from (n : nat) (text : str) (chunk_size step start : Z)
    : list str :=
  match n with
  | O => []
  | S n' =>
      let chunk := strip (slice text start (start + chunk_size)) in
      (if truthy chunk then [chunk] else [])
      ++ chunks_from n' text chunk_size step (start + step)
  end.

(** Iteration [k] of the chunker loop happens and appends a chunk. *)
Definition produces_chunk (text : str) (chunk_size overlap : Z) (k : nat)
    : Prop :=
  Z.of_nat k * (chunk_size - overlap) < len text
  /\ strip (window text chunk_size overlap k) <> [].

(** The last [overlap] characters of window [k] are the first [overlap]
    characters of window [k + 1]. *)
Definition overlap_shared (text : str) (chunk_size overlap : Z) (k : nat)
    : Prop :=
  trailing overlap (window text chunk_size overlap k)
  = leading overlap (window text chunk_size overlap (S k)).

(** The text a stage contributes: what it returned, nothing when it raised. *)
Definition contribution (stage : M str) : str :=
  match stage with
  | (_, Returns s) => s
  | _ => []
  end.

(** A library answer that raises nothing outside [Exception]. *)
Definition ordinary {A} (r : result A) : Prop :=
  match r with
  | Ok _ => True
  | Err e => issubclass (cls e) Exception = true
  end.

(** The texts the embedded images of a document contribute, in page order
    and then in embedding order: the trimmed OCR text of an image when it is
    not empty, nothing for an image that cannot be decoded or read, nothing
    for a page whose images cannot be listed. *)
Definition image_text (img : image) : list str :=
  match img_ocr img with
  | Ok text => if truthy (strip text) then [strip text] else []
  | Err _ => []
  end.

Definition page_image_texts (page : pdf_page) : list str :=
  match images page with
  | Ok imgs => concat (map image_text imgs)
  | Err _ => []
  end.

Definition image_texts (reader : list pdf_page) : list str :=
  concat (map page_image_texts reader).

(** Listing and reading the embedded images raises nothing outside
    [Exception]. *)
Definition ordinary_images (reader : list pdf_page) : Prop :=
  Forall (fun page =>
    match images page with
    | Ok imgs => Forall (fun img => ordinary (img_ocr img)) imgs
    | Err e => issubclass (cls e) Exception = true
    end) reader.

(** A computation that has ended: it returned or raised. *)
Definition finishes {A} (m : M A) : Prop := m.2 <> OutOfFuel.

(** The non-empty texts among those of the stages, in stage order. *)
Definition nonempty_parts (texts : list str) : list str :=
  filter (fun s => s <> []) texts.

(** The exception [e] is one a library raised while [file_path] was read as
    a file of the extension [ext]: when the file was opened or, for a PDF,
    when the text of one of its pages was read. *)
Definition raised_by_library (L : libs) (ext file_path : str) (e : exn)
    : Prop :=
  (ext = lit ".pdf"
   /\ (PdfReader L file_path = Err e
       \/ exists reader page,
            PdfReader L file_path = Ok reader /\ page ∈ reader
            /\ extract_text page = Err e))
  \/ (ext = lit ".docx" /\ Document L file_path = Err e)
  \/ (ext = lit ".pptx" /\ Presentation L file_path = Err e).

End Spec.

(** ** Sample documents *)

Module Examples.
Import Py Effects.

Definition os_error : exn := {| cls := Exception; msg := lit "OSError" |}.

(** A scanned PDF of one page: no text layer, one page image the OCR engine
    reads, and two embedded images of which the first cannot be decoded. *)
Definition scanned_page : pdf_page :=
  {| extract_text := Ok (Some []);
     images := Ok [ {| img_name := lit "Im0"; img_ocr := Err os_error |};
                    {| img_name := lit "Im1"; img_ocr := Ok (lit " Fig. 1 ") |} ] |}.

Definition scanned_pdf : libs :=
  {| PdfReader := fun _ => Ok [scanned_page];
     import_pdf2image := Ok tt;
     convert_from_path := fun _ => Ok [Ok (lit " Invoice 42 " ++ newline)];
     Document := fun _ => Ok [lit "Hello"; lit "  "; lit " world "];
     Presentation := fun _ => Err os_error |}.

(** The same PDF where pdf2image is not installed. *)
Definition scanned_pdf_no_pdf2image : libs :=
  {| PdfReader := PdfReader scanned_pdf;
     import_pdf2image := Err {| cls := ImportError; msg := lit "No module named 'pdf2image'" |};
     convert_from_path := convert_from_path scanned_pdf;
     Document := Document scanned_pdf;
     Presentation := Presentation scanned_pdf |}.

(** A PDF whose text layer cannot be read on its only page. *)
Definition broken_text_layer_pdf : libs :=
  {| PdfReader := fun _ => Ok [ {| extract_text := Err os_error; images := Ok [] |} ];
     import_pdf2image := Ok tt;
     convert_from_path := fun _ => Ok [Ok (lit "Invoice 42")];
     Document := fun _ => Err os_error;
     Presentation := fun _ => Err os_error |}.

(** The scanned PDF where poppler is missing: [convert_from_path] raises
    pdf2image's PDFInfoNotInstalledError, which is not a RuntimeError. *)
Definition scanned_pdf_no_poppler : libs :=
  {| PdfReader := PdfReader scanned_pdf;
     import_pdf2image := Ok tt;
     convert_from_path := fun _ =>
       Err {| cls := Exception; msg := lit "PDFInfoNotInstalledError" |};
     Document := Document scanned_pdf;
     Presentation := Presentation scanned_pdf |}.


End Examples.

(** ** embedding_service.py and main.py *)

Module App.
Import Py Effects VectorStore.

(** [s.endswith(suffix)] *)
Definition endswith (s suffix : str) : bool :=
  bool_decide (drop (length s - length suffix) s = suffix).

(** The part of a FastAPI [UploadFile] the endpoints read; the bytes of the
    upload only pass through [shutil.copyfileobj]. *)
Record UploadFile : Type := {
  filename : option str;
  content_type : option str }.

(** The dict an endpoint returns. *)
Record response : Type := {
  status : str;
  response_document_id : str;
  chunks_stored : Z }.

(** [HTTPException(status_code, detail)], a subclass of [Exception]; the
    message is its [str()], ["{status_code}: {detail}"]. *)
Definition HTTPException (status_code : nat) (detail : str) : exn :=
  {| cls := Exception;
     msg := str_of_nat status_code ++ lit ": " ++ detail |}.

(** [IndexError], a subclass of [Exception]. *)
Definition IndexError : exn :=
  {| cls := Exception; msg := lit "list index out of range" |}.

(** The lines [embedding_service] and [main] print. *)
Inductive app_message : Type :=
| EmbGenerating (nchunks : Z)
| EmbGenerated (dimensionality : Z)
| MainPdfReceived (filename content_type : option str)
| MainDocReceived (filename : option str) (ext : str)
    (content_type : option str)
| MainSaved (tmp_path : str)
| MainChunks (nchunks : Z)
| MainEmbeddings (nembeddings : Z)
| MainStored (document_id : str)
| MainRemoved (tmp_path : str).

(** The calls of [embedding_service] and [main] into their libraries. *)
Inductive app_call : Type :=
| CallEncode (chunks : list str)
| CallNamedTemporaryFile (suffix : str)
| CallCopyFileObj (tmp_name : str)
| CallExists (path : str)
| CallRemove (path : str).

(** What a request does, in order: events of the services, prints and
    calls of its own. *)
Inductive app_event : Type :=
| Service (e : event)
| AppPrint (m : app_message)
| AppCall (c : app_call).

Section Endpoints.
(** The type of a float. *)
Context {F : Type}.

(** The libraries and the machine, as they answer one request. *)
Record host : Type := {
  (** [os.path.splitext(filename)] *)
  splitext : str -> str * str;
  (** [tempfile.NamedTemporaryFile(delete=False, suffix=suffix)]: the
      [.name] of the file it creates *)
  NamedTemporaryFile : str -> result str;
  (** [shutil.copyfileobj(file.file, tmp)] into the file of that name *)
  copyfileobj : str -> result unit;
  (** [str(uuid.uuid4())] *)
  uuid4 : str;
  (** [os.path.exists(path)] when the request ends *)
  path_exists : str -> bool;
  (** [os.remove(path)] *)
  remove : str -> result unit;
  (** [_model.encode(chunks, show_progress_bar=False).tolist()] *)
  encode : list str -> result (list (list F));
  (** [datetime.now(timezone.utc).isoformat()] when [store_document] reads
      the clock *)
  clock : str }.

(** A computation of a request: from the collection [_collection] before,
    the events, the collection after, and how it ended. *)
Definition W (A : Type) : Type :=
  collection (list F) -> list app_event * (collection (list F) * outcome A).

#[global] Instance W_ret : MRet W := fun A a c => ([], (c, Returns a)).

#[global] Instance W_bind : MBind W := fun A B k m c =>
  match m c with
  | (t, (c', Returns a)) => let '(t', r) := k a c' in (t ++ t', r)
  | (t, (c', Raises e)) => (t, (c', Raises e))
  | (t, (c', OutOfFuel)) => (t, (c', OutOfFuel))
  end.

Definition wraise {A} (e : exn) : W A := fun c => ([], (c, Raises e)).

Definition wprint (m : app_message) : W unit :=
  fun c => ([AppPrint m], (c, Returns tt)).

(** A call of [main] or [embedding_service] into a library. *)
Definition host_call {A} (cl : app_call) (r : result A) : W A :=
  fun c => ([AppCall cl],
            (c, match r with Ok a => Returns a | Err e => Raises e end)).

(** A call of a service that does not touch the collection. *)
Definition service {A} (m : M A) : W A :=
  fun c => (Service <$> m.1, (c, m.2)).

(** [store_document(document_id, chunks, embeddings)] on [_collection]. *)
Definition store (now document_id : str) (chunks : list str)
    (embeddings : list (list F)) : W unit :=
  fun c =>
    match store_document c now document_id chunks embeddings with
    | (t, Returns c') => (Service <$> t, (c', Returns tt))
    | (t, Raises e) => (Service <$> t, (c, Raises e))
    | (t, OutOfFuel) => (Service <$> t, (c, OutOfFuel))
    end.

(** [try: body / finally: fin]: [fin] runs when [body] returned or raised,
    and an exception of [fin] replaces the outcome of [body]. *)
Definition try_finally {A} (body : W A) (fin : W unit) : W A :=
  fun c =>
    match body c with
    | (t, (c1, OutOfFuel)) => (t, (c1, OutOfFuel))
    | (t, (c1, r)) =>
        match fin c1 with
        | (t', (c2, Returns _)) => (t ++ t', (c2, r))
        | (t', (c2, Raises e)) => (t ++ t', (c2, Raises e))
        | (t', (c2, OutOfFuel)) => (t ++ t', (c2, OutOfFuel))
        end
    end.

(** The [try]/[finally] of the endpoints around the variable [tmp_path]:
    it is the empty string until [save] has returned the name of the temporary file,
    and [fin] sees the value it has when the [try] block is left. *)
Definition try_finally_tmp_path {A} (save : W str) (rest : str -> W A)
    (fin : str -> W unit) : W A :=
  fun c =>
    match save c with
    | (t, (c1, Returns tmp_path)) =>
        let '(t', r) := try_finally (rest tmp_path) (fin tmp_path) c1 in
        (t ++ t', r)
    | (t, (c1, Raises e)) =>
        let '(t', r) := try_finally (wraise e) (fin []) c1 in (t ++ t', r)
    | (t, (c1, OutOfFuel)) => (t, (c1, OutOfFuel))
    end.

(** *** embedding_service.py *)

Definition generate_embeddings (H : host) (chunks : list str)
    : W (list (list F)) :=
  if negb (truthy chunks) then mret []
  else
    wprint (EmbGenerating (len chunks));;
    embeddings ← host_call (CallEncode chunks) (encode H chunks);
    match embeddings with
    | [] => wraise IndexError (* embeddings[0] *)
    | first :: _ => wprint (EmbGenerated (len first));; mret embeddings
    end.

(** *** main.py *)

Definition _ALLOWED_EXTENSIONS : list str :=
  [lit ".pdf"; lit ".docx"; lit ".pptx"].

(** The [with tempfile.NamedTemporaryFile(...) as tmp:] block: the copy of
    the upload, then [tmp_path = tmp.name]. *)
Definition save_upload (H : host) (suffix : str) : W str :=
  tmp_name ← host_call (CallNamedTemporaryFile suffix)
               (NamedTemporaryFile H suffix);
  host_call (CallCopyFileObj tmp_name) (copyfileobj H tmp_name);;
  mret tmp_name.

(** The [finally] block. *)
Definition remove_temp (H : host) (tmp_path : str) : W unit :=
  if truthy tmp_path then
    found ← host_call (CallExists tmp_path) (Ok (path_exists H tmp_path));
    if (found : bool) then
      host_call (CallRemove tmp_path) (remove H tmp_path);;
      wprint (MainRemoved tmp_path)
    else mret tt
  else mret tt.

Definition upload_pdf (H : host) (L : libs) (fuel : nat) (file : UploadFile)
    : W response :=
  (if negb (bool_decide (content_type file
                         ∈ [Some (lit "application/pdf");
                            Some (lit "application/octet-stream")]))
      && negb (endswith (lower (default [] (filename file))) (lit ".pdf"))
   then wraise (HTTPException 400
                  (lit "Only PDF files are accepted. Please upload a .pdf file."))
   else mret tt);;
  wprint (MainPdfReceived (filename file) (content_type file));;
  '(document_id, chunks) ←
    try_finally_tmp_path
      (save_upload H (lit ".pdf"))
      (fun tmp_path =>
         wprint (MainSaved tmp_path);;
         chunks ← service (PdfProcessorApi.process_pdf L fuel tmp_path);
         (if negb (truthy chunks) then
            wraise (HTTPException 422
                      (lit "No text could be extracted from the uploaded PDF. The file may be scanned/image-only."))
          else mret tt);;
         wprint (MainChunks (len chunks));;
         embeddings ← generate_embeddings H chunks;
         wprint (MainEmbeddings (len embeddings));;
         let document_id := uuid4 H in
         store (clock H) document_id chunks embeddings;;
         wprint (MainStored document_id);;
         mret (document_id, chunks))
      (remove_temp H);
  mret {| status := lit "success";
          response_document_id := document_id;
          chunks_stored := len chunks |}.

Definition upload_document (H : host) (L : libs) (fuel : nat)
    (file : UploadFile) : W response :=
  let filename_ := lower (default [] (filename file)) in
  let file_ext := (splitext H filename_).2 in
  (if negb (bool_decide (file_ext ∈ _ALLOWED_EXTENSIONS)) then
     wraise (HTTPException 400
               (lit "Unsupported file type '" ++ file_ext
                ++ lit "'. Accepted: .pdf, .docx, .pptx"))
   else mret tt);;
  wprint (MainDocReceived (filename file) file_ext (content_type file));;
  '(document_id, chunks) ←
    try_finally_tmp_path
      (save_upload H file_ext)
      (fun tmp_path =>
         wprint (MainSaved tmp_path);;
         chunks ← service
                    (DocumentProcessorApi.process_document L fuel tmp_path file_ext);
         (if negb (truthy chunks) then
            wraise (HTTPException 422
                      (lit "No text could be extracted from the uploaded file."))
          else mret tt);;
         wprint (MainChunks (len chunks));;
         embeddings ← generate_embeddings H chunks;
         wprint (MainEmbeddings (len embeddings));;
         let document_id := uuid4 H in
         store (clock H) document_id chunks embeddings;;
         wprint (MainStored document_id);;
         mret (document_id, chunks))
      (remove_temp H);
  mret {| status := lit "success";
          response_document_id := document_id;
          chunks_stored := len chunks |}.

End Endpoints.
Arguments host : clear implicits.
Arguments W : clear implicits.

End App.

(** ** Vocabulary of the further properties *)

Module Forms.
Import Py Effects Spec.

(** Every whitespace character of [s] is one space and no two of them are
    adjacent; [after_space] tells that the character before [s] was
    whitespace. *)
Fixpoint single_spaced (after_space : bool) (s : str) : bool :=
  match s with
  | [] => true
  | c :: s' =>
      if isspace c
      then negb after_space && bool_decide (c = " "%char)
           && single_spaced true s'
      else single_spaced false s'
  end.

(** The form of a normalised text: single spaces only, none at the ends. *)
Definition normalised (s : str) : Prop :=
  single_spaced false s = true /\ strip s = s.

(** The trimmed texts that are not empty, in order. *)
Definition nonblank_stripped (texts : list str) : list str :=
  filter (fun s => s <> []) (map strip texts).

(** The paragraphs of the shapes of a slide that have a text frame. *)
Definition slide_paragraphs (slide : list shape) : list str :=
  concat (map (fun sh => if has_text_frame sh then paragraphs sh else [])
            slide).

(** The text of every slide that has some: its non-blank paragraphs, trimmed
    and joined by spaces. *)
Definition slide_texts (prs : list (list shape)) : list str :=
  concat (map (fun slide =>
                 let slide_parts := nonblank_stripped (slide_paragraphs slide) in
                 if truthy slide_parts then [join (lit " ") slide_parts] else [])
            prs).

(** The page texts [document_processor._extract_pdf] keeps: those that are
    neither [None] nor empty. *)
Definition kept_page_texts (texts : list (option str)) : list str :=
  filter (fun s => s <> []) (omap id texts).

(** A page text that is [None] or whitespace only. *)
Definition blank_page_text (o : option str) : Prop :=
  match o with
  | Some s => all_space s
  | None => True
  end.

(** Every record of the collection sits under the id of the document and
    index its metadata names, and its metadata repeats its text. *)
Definition well_formed {V} (c : VectorStore.collection V) : Prop :=
  forall k r, c !! k = Some r ->
    k = VectorStore.chunk_id
          (VectorStore.document_id (VectorStore.rec_metadata r))
          (VectorStore.chunk_index (VectorStore.rec_metadata r))
    /\ VectorStore.chunk_text (VectorStore.rec_metadata r)
       = VectorStore.rec_document r.

End Forms.

(** ** More sample documents *)

Module MoreExamples.
Import Py Effects Examples.

Definition tesseract_error : exn :=
  {| cls := RuntimeError; msg := lit "TesseractError" |}.

(** A digital PDF of three pages of which only the first has text. *)
Definition office_pages : list pdf_page :=
  [ {| extract_text := Ok (Some (lit "Page one")); images := Ok [] |};
    {| extract_text := Ok None; images := Ok [] |};
    {| extract_text := Ok (Some (lit "  ")); images := Ok [] |} ].

(** Office files: that PDF, whose second page image the OCR engine fails
    on, a Word file, and a deck of three slides, the second one without
    text. *)
Definition office_files : libs :=
  {| PdfReader := fun _ => Ok office_pages;
     import_pdf2image := Ok tt;
     convert_from_path := fun _ =>
       Ok [Ok (lit "Page one"); Err tesseract_error; Ok (lit "Page three")];
     Document := fun _ => Ok [lit "Hello"; lit "  "; lit " world "];
     Presentation := fun _ =>
       Ok [ [ {| has_text_frame := true;
                 paragraphs := [lit "Title"; lit " "] |};
              {| has_text_frame := false; paragraphs := [lit "hidden"] |};
              {| has_text_frame := true; paragraphs := [lit " Subtitle"] |} ];
            [ {| has_text_frame := true; paragraphs := [lit " "] |} ];
            [ {| has_text_frame := true; paragraphs := [lit "Q1 results "] |} ] ] |}.

(** A digital PDF whose second page cannot be read. *)
Definition unreadable_second_page : libs :=
  {| PdfReader := fun _ =>
       Ok [ {| extract_text := Ok (Some (lit "Page one"));
               images := Ok [] |};
            {| extract_text := Err os_error; images := Ok [] |};
            {| extract_text := Ok (Some (lit "Page three"));
               images := Ok [] |} ];
     import_pdf2image := Ok tt;
     convert_from_path := fun _ => Ok [];
     Document := fun _ => Err os_error;
     Presentation := fun _ => Err os_error |}.

(** A scan of one page whose image the OCR engine cannot open. *)
Definition unreadable_scan : libs :=
  {| PdfReader := fun _ => Ok [ {| extract_text := Ok None; images := Ok [] |} ];
     import_pdf2image := Ok tt;
     convert_from_path := fun _ => Ok [Err os_error];
     Document := fun _ => Err os_error;
     Presentation := fun _ => Err os_error |}.

End MoreExamples.

(** ** Vocabulary of the properties of the endpoints *)

Module AppForms.
Import Py Effects VectorStore App.

Section Requests.
Context {F : Type}.

(** Steps 3 to 5 of an endpoint, as both endpoints spell them out: extract
    and chunk, reject an empty chunk list with a 422 of the given detail,
    embed, store. *)
Definition ingest (H : host F) (extract : str -> M (list str))
    (detail : str) (tmp_path : str) : W F (str * list str) :=
  wprint (MainSaved tmp_path);;
  chunks ← service (extract tmp_path);
  (if negb (truthy chunks) then wraise (HTTPException 422 detail)
   else mret tt);;
  wprint (MainChunks (len chunks));;
  embeddings ← generate_embeddings H chunks;
  wprint (MainEmbeddings (len embeddings));;
  let document_id := uuid4 H in
  store (clock H) document_id chunks embeddings;;
  wprint (MainStored document_id);;
  mret (document_id, chunks).

(** Steps 2 to 6 and the response. *)
Definition request (H : host F) (suffix : str)
    (extract : str -> M (list str)) (detail : str) : W F response :=
  '(document_id, chunks) ←
    try_finally_tmp_path (save_upload H suffix) (ingest H extract detail)
      (remove_temp H);
  mret {| status := lit "success";
          response_document_id := document_id;
          chunks_stored := len chunks |}.

(** The events of the [finally] block on a temporary file that was saved. *)
Definition cleanup_events (H : host F) (tmp_path : str) : list app_event :=
  AppCall (CallExists tmp_path)
  :: (if path_exists H tmp_path then
        AppCall (CallRemove tmp_path)
        :: match remove H tmp_path with
           | Ok _ => [AppPrint (MainRemoved tmp_path)]
           | Err _ => []
           end
      else []).

(** A removal of a file, whatever the file. *)
Definition is_removal (e : app_event) : Prop :=
  match e with
  | AppCall (CallRemove _) => True
  | _ => False
  end.

(** A call to the embedding model or to the collection. *)
Definition is_embed_or_add (e : app_event) : Prop :=
  match e with
  | AppCall (CallEncode _) => True
  | Service (Call (CallCollectionAdd _)) => True
  | _ => False
  end.

(** How a request ends after the [finally] block on a saved temporary
    file: a failing [os.remove] replaces the outcome the [try] block had. *)
Definition after_cleanup {A} (H : host F) (tmp_path : str) (r : outcome A)
    : outcome A :=
  if path_exists H tmp_path then
    match remove H tmp_path with
    | Ok _ => r
    | Err e => Raises e
    end
  else r.

(** The outcomes of steps 3 to 5, case by case: the events, the collection
    afterwards and how the steps ended. *)
Inductive ingest_run (H : host F) (extract : str -> M (list str))
    (detail : str) (tmp_path : str) (c : collection (list F))
    : list app_event -> collection (list F)
      -> outcome (str * list str) -> Prop :=
| ingest_out_of_fuel tx :
    extract tmp_path = (tx, OutOfFuel) ->
    ingest_run H extract detail tmp_path c
      (AppPrint (MainSaved tmp_path) :: (Service <$> tx)) c OutOfFuel
| ingest_extract_raises tx e :
    extract tmp_path = (tx, Raises e) ->
    ingest_run H extract detail tmp_path c
      (AppPrint (MainSaved tmp_path) :: (Service <$> tx)) c (Raises e)
| ingest_no_text tx :
    extract tmp_path = (tx, Returns []) ->
    ingest_run H extract detail tmp_path c
      (AppPrint (MainSaved tmp_path) :: (Service <$> tx)) c
      (Raises (HTTPException 422 detail))
| ingest_encode_raises tx chunks e :
    extract tmp_path = (tx, Returns chunks) -> chunks <> [] ->
    encode H chunks = Err e ->
    ingest_run H extract detail tmp_path c
      (AppPrint (MainSaved tmp_path) :: (Service <$> tx)
       ++ [AppPrint (MainChunks (len chunks));
           AppPrint (EmbGenerating (len chunks));
           AppCall (CallEncode chunks)]) c (Raises e)
| ingest_no_vectors tx chunks :
    extract tmp_path = (tx, Returns chunks) -> chunks <> [] ->
    encode H chunks = Ok [] ->
    ingest_run H extract detail tmp_path c
      (AppPrint (MainSaved tmp_path) :: (Service <$> tx)
       ++ [AppPrint (MainChunks (len chunks));
           AppPrint (EmbGenerating (len chunks));
           AppCall (CallEncode chunks)]) c (Raises IndexError)
| ingest_store_raises tx chunks first rest ts e :
    extract tmp_path = (tx, Returns chunks) -> chunks <> [] ->
    encode H chunks = Ok (first :: rest) ->
    store_document c (clock H) (uuid4 H) chunks (first :: rest)
    = (ts, Raises e) ->
    ingest_run H extract detail tmp_path c
      (AppPrint (MainSaved tmp_path) :: (Service <$> tx)
       ++ [AppPrint (MainChunks (len chunks));
           AppPrint (EmbGenerating (len chunks));
           AppCall (CallEncode chunks);
           AppPrint (EmbGenerated (len first));
           AppPrint (MainEmbeddings (len (first :: rest)))]
       ++ (Service <$> ts)) c (Raises e)
| ingest_stored tx chunks first rest ts c' :
    extract tmp_path = (tx, Returns chunks) -> chunks <> [] ->
    encode H chunks = Ok (first :: rest) ->
    store_document c (clock H) (uuid4 H) chunks (first :: rest)
    = (ts, Returns c') ->
    ingest_run H extract detail tmp_path c
      (AppPrint (MainSaved tmp_path) :: (Service <$> tx)
       ++ [AppPrint (MainChunks (len chunks));
           AppPrint (EmbGenerating (len chunks));
           AppCall (CallEncode chunks);
           AppPrint (EmbGenerated (len first));
           AppPrint (MainEmbeddings (len (first :: rest)))]
       ++ (Service <$> ts) ++ [AppPrint (MainStored (uuid4 H))])
      c' (Returns (uuid4 H, chunks)).

(** The upload passes the check of [upload_pdf]. *)
Definition accepted_as_pdf (file : UploadFile) : Prop :=
  content_type file ∈ [Some (lit "application/pdf");
                       Some (lit "application/octet-stream")]
  \/ endswith (lower (default [] (filename file))) (lit ".pdf") = true.

(** The two endpoints. *)
Inductive endpoint : Type := UploadPdf | UploadDocument.

Definition run_endpoint (ep : endpoint) (H : host F) (L : libs)
    (fuel : nat) (file : UploadFile) : W F response :=
  match ep with
  | UploadPdf => upload_pdf H L fuel file
  | UploadDocument => upload_document H L fuel file
  end.

(** [file_ext] of [upload_document]. *)
Definition file_ext_of (H : host F) (file : UploadFile) : str :=
  (splitext H (lower (default [] (filename file)))).2.

(** The suffix an endpoint gives the temporary file. *)
Definition temp_suffix (ep : endpoint) (H : host F) (file : UploadFile)
    : str :=
  match ep with
  | UploadPdf => lit ".pdf"
  | UploadDocument => file_ext_of H file
  end.

(** The upload passes the check of step 1. *)
Definition accepted (ep : endpoint) (H : host F) (file : UploadFile)
    : Prop :=
  match ep with
  | UploadPdf => accepted_as_pdf file
  | UploadDocument => file_ext_of H file ∈ _ALLOWED_EXTENSIONS
  end.

(** The exception of step 1. *)
Definition rejection (ep : endpoint) (H : host F) (file : UploadFile)
    : exn :=
  match ep with
  | UploadPdf =>
      HTTPException 400
        (lit "Only PDF files are accepted. Please upload a .pdf file.")
  | UploadDocument =>
      HTTPException 400
        (lit "Unsupported file type '" ++ file_ext_of H file
         ++ lit "'. Accepted: .pdf, .docx, .pptx")
  end.

(** The line an endpoint prints after step 1. *)
Definition received (ep : endpoint) (H : host F) (file : UploadFile)
    : app_event :=
  match ep with
  | UploadPdf => AppPrint (MainPdfReceived (filename file) (content_type file))
  | UploadDocument =>
      AppPrint (MainDocReceived (filename file) (file_ext_of H file)
                  (content_type file))
  end.

(** The service an endpoint calls in step 3. *)
Definition extraction (ep : endpoint) (H : host F) (L : libs) (fuel : nat)
    (file : UploadFile) (tmp_path : str) : M (list str) :=
  match ep with
  | UploadPdf => PdfProcessorApi.process_pdf L fuel tmp_path
  | UploadDocument =>
      DocumentProcessorApi.process_document L fuel tmp_path
        (file_ext_of H file)
  end.

(** The detail of the 422 of step 3. *)
Definition no_text_detail (ep : endpoint) : str :=
  match ep with
  | UploadPdf =>
      lit "No text could be extracted from the uploaded PDF. The file may be scanned/image-only."
  | UploadDocument => lit "No text could be extracted from the uploaded file."
  end.

(** The dict of the [return] statement, from what the [try] block left in
    [document_id] and [chunks]. *)
Definition respond (r : outcome (str * list str)) : outcome response :=
  match r with
  | Returns (document_id, chunks) =>
      Returns {| status := lit "success";
                 response_document_id := document_id;
                 chunks_stored := len chunks |}
  | Raises e => Raises e
  | OutOfFuel => OutOfFuel
  end.

(** The events of step 2 on a temporary file of the name [tmp_path]. *)
Definition save_events (suffix tmp_path : str) : list app_event :=
  [AppCall (CallNamedTemporaryFile suffix); AppCall (CallCopyFileObj tmp_path)].

End Requests.

(** A machine on which everything works: the model gives vectors of two
    numbers, and [splitext] answers for the file names of the examples. *)
Definition working_host : host Z :=
  {| splitext := fun name =>
       if bool_decide (name = lit "report.docx") then (lit "report", lit ".docx")
       else if bool_decide (name = lit "notes.txt") then (lit "notes", lit ".txt")
       else (name, []);
     NamedTemporaryFile := fun suffix => Ok (lit "/tmp/tmpab12" ++ suffix);
     copyfileobj := fun _ => Ok tt;
     uuid4 := lit "0f8fad5b-d9cb-469f-a165-70867728950e";
     path_exists := fun _ => true;
     remove := fun _ => Ok tt;
     encode := fun chunks => Ok (map (fun chunk => [len chunk; 1]) chunks);
     clock := lit "2026-01-01T00:00:00+00:00" |}.

(** The same machine with a model that fails. *)
Definition failing_model : host Z :=
  {| splitext := splitext working_host;
     NamedTemporaryFile := NamedTemporaryFile working_host;
     copyfileobj := copyfileobj working_host;
     uuid4 := uuid4 working_host;
     path_exists := path_exists working_host;
     remove := remove working_host;
     encode := fun _ => Err {| cls := RuntimeError; msg := lit "CUDA out of memory" |};
     clock := clock working_host |}.

(** The same machine with a disk that fills up during the copy. *)
Definition full_disk : host Z :=
  {| splitext := splitext working_host;
     NamedTemporaryFile := NamedTemporaryFile working_host;
     copyfileobj := fun _ =>
       Err {| cls := Exception; msg := lit "OSError: No space left on device" |};
     uuid4 := uuid4 working_host;
     path_exists := path_exists working_host;
     remove := remove working_host;
     encode := encode working_host;
     clock := clock working_host |}.

(** Uploads: a Word file, a text file, and a PDF sent as a PDF. *)
Definition report_docx : UploadFile :=
  {| filename := Some (lit "Report.docx");
     content_type := Some (lit "application/octet-stream") |}.

Definition notes_txt : UploadFile :=
  {| filename := Some (lit "notes.txt");
     content_type := Some (lit "text/plain") |}.

Definition scan_pdf : UploadFile :=
  {| filename := Some (lit "scan.pdf");
     content_type := Some (lit "application/pdf") |}.

(** Files without any text: a PDF without pages and a Word file of blank
    paragraphs. *)
Definition blank_files : libs :=
  {| PdfReader := fun _ => Ok [];
     import_pdf2image := Ok tt;
     convert_from_path := fun _ => Ok [];
     Document := fun _ => Ok [lit "  "; []];
     Presentation := fun _ => Ok [] |}.

End AppForms.

(** ** The Python string operations *)

Import Py Effects Spec Examples Forms MoreExamples.
Import App AppForms.

Lemma truthy_true {A} (s : list A) : truthy s = true <-> s <> [].
Proof. destruct s; simpl; split; congruence. Qed.

Lemma truthy_false {A} (s : list A) : truthy s = false <-> s = [].
Proof. destruct s; simpl; split; congruence. Qed.

Lemma lstrip_length s : (length (lstrip s) <= length s)%nat.
Proof.
  induction s as [|c s IH]; simpl; [lia|].
  destruct (isspace c); simpl; lia.
Qed.

Lemma lstrip_nil s : lstrip s = [] <-> all_space s.
Proof.
  unfold all_space. induction s as [|c s IH]; simpl.
  - split; [constructor | reflexivity].
  - destruct (isspace c) eqn:Hc.
    + rewrite IH. split; [by constructor | by inversion 1].
    + split; [discriminate | inversion 1; congruence].
Qed.

Lemma lstrip_head s c r : lstrip s = c :: r -> isspace c = false.
Proof.
  induction s as [|d s IH]; simpl; [discriminate|].
  destruct (isspace d) eqn:Hd; [exact IH | congruence].
Qed.

Lemma lstrip_id c s : isspace c = false -> lstrip (c :: s) = c :: s.
Proof. simpl. by intros ->. Qed.

Lemma lstrip_snoc s c :
  isspace c = false -> lstrip (s ++ [c]) = lstrip s ++ [c].
Proof.
  intros Hc. induction s as [|d s IH]; simpl.
  - by rewrite Hc.
  - destruct (isspace d); [exact IH | reflexivity].
Qed.

Lemma all_space_rev s : all_space (rev s) <-> all_space s.
Proof.
  unfold all_space. split; intros H.
  - rewrite <- (rev_involutive s). by apply Forall_rev.
  - by apply Forall_rev.
Qed.

Lemma rstrip_length s : (length (rstrip s) <= length s)%nat.
Proof.
  unfold rstrip. rewrite length_rev.
  etrans; [apply lstrip_length|]. by rewrite length_rev.
Qed.

Lemma rstrip_nil s : rstrip s = [] <-> all_space s.
Proof.
  unfold rstrip. rewrite <- all_space_rev, <- lstrip_nil.
  split; intros H.
  - apply (f_equal (@rev _)) in H. by rewrite rev_involutive in H.
  - by rewrite H.
Qed.

Lemma strip_length s : (length (strip s) <= length s)%nat.
Proof.
  unfold strip. etrans; [apply rstrip_length | apply lstrip_length].
Qed.

Lemma all_space_lstrip s : all_space (lstrip s) <-> all_space s.
Proof.
  unfold all_space. induction s as [|c s IH]; simpl; [done|].
  destruct (isspace c) eqn:Hc; [|done].
  rewrite IH. split; [by constructor | by inversion 1].
Qed.

(** [strip] gives the empty string exactly on whitespace-only strings. *)
Lemma strip_nil s : strip s = [] <-> all_space s.
Proof. unfold strip. by rewrite rstrip_nil, all_space_lstrip. Qed.

(** A string that starts and ends with a non-space is left as it is. *)
Lemma rstrip_snoc s c : isspace c = false -> rstrip (s ++ [c]) = s ++ [c].
Proof.
  intros Hc. unfold rstrip. rewrite rev_app_distr. simpl.
  rewrite Hc. simpl. by rewrite rev_involutive.
Qed.

Lemma strip_head s c r : strip s = c :: r -> isspace c = false.
Proof.
  unfold strip. destruct (lstrip s) as [|d t] eqn:Hl.
  - discriminate.
  - pose proof (lstrip_head _ _ _ Hl) as Hd.
    unfold rstrip. simpl rev. rewrite lstrip_snoc by done.
    rewrite rev_app_distr. simpl. congruence.
Qed.

Lemma strip_fixed c s d :
  isspace c = false -> isspace d = false ->
  strip (c :: s ++ [d]) = c :: s ++ [d].
Proof.
  intros Hc Hd. unfold strip. rewrite lstrip_id by done.
  by rewrite (app_comm_cons s [d] c), rstrip_snoc.
Qed.

Lemma all_space_take s n : all_space s -> all_space (take n s).
Proof. apply Forall_take. Qed.

Lemma all_space_drop s n : all_space s -> all_space (drop n s).
Proof. apply Forall_drop. Qed.

(** Slices with bounds that are not negative. *)
Lemma slice_nonneg {A} (s : list A) a b :
  0 <= a <= b ->
  slice s a b = take (Z.to_nat (b - a)) (drop (Z.to_nat a) s).
Proof.
  intros Hab. unfold slice, adjust_index, len.
  repeat case_match; try lia.
  - rewrite (drop_ge s (Z.to_nat a)) by lia.
    rewrite drop_ge by lia. by rewrite !take_nil.
  - rewrite !take_ge; rewrite ?length_drop; try lia. done.
  - done.
Qed.

Lemma slice_length {A} (s : list A) a b :
  0 <= a <= b -> len (slice s a b) <= b - a.
Proof.
  intros Hab. rewrite slice_nonneg by done. unfold len.
  rewrite length_take. lia.
Qed.

Lemma all_space_slice s a b : all_space s -> all_space (slice s a b).
Proof. intros H. unfold slice. by apply all_space_take, all_space_drop. Qed.

(** ** The chunker loop *)

(** The two loops are the same function. *)
Lemma while_loop_same fuel text chunk_size step start chunks :
  DocumentProcessor.while_loop fuel text chunk_size step start chunks
  = PdfProcessor.while_loop fuel text chunk_size step start chunks.
Proof.
  revert start chunks. induction fuel as [|fuel IH]; intros start chunks.
  - reflexivity.
  - simpl. destruct (start <? len text); [apply IH | reflexivity].
Qed.

(** One iteration: while [start < len(text)] the loop appends the trimmed
    window when it is not empty and moves [start] on by [step]. *)
Lemma while_loop_iter fuel text chunk_size step start chunks :
  start < len text ->
  DocumentProcessor.while_loop (S fuel) text chunk_size step start chunks
  = DocumentProcessor.while_loop fuel text chunk_size step (start + step)
      (chunks ++ chunks_from 1 text chunk_size step start).
Proof.
  intros Hlt. simpl. apply Z.ltb_lt in Hlt. rewrite Hlt.
  destruct (truthy _); simpl; by rewrite ?app_nil_r.
Qed.

(** Exit: the loop stops as soon as [start >= len(text)]. *)
Lemma while_loop_exit fuel text chunk_size step start chunks :
  len text <= start ->
  DocumentProcessor.while_loop (S fuel) text chunk_size step start chunks
  = Some (start, chunks).
Proof. intros Hge. simpl. apply Z.ltb_ge in Hge. by rewrite Hge. Qed.

Lemma chunks_from_S n text chunk_size step start :
  chunks_from (S n) text chunk_size step start
  = chunks_from 1 text chunk_size step start
    ++ chunks_from n text chunk_size step (start + step).
Proof. simpl. by rewrite app_nil_r. Qed.

(** A run of [n] iterations. *)
Lemma while_loop_run n : forall fuel text chunk_size step start chunks,
  (forall j, (j < n)%nat -> start + Z.of_nat j * step < len text) ->
  len text <= start + Z.of_nat n * step ->
  (n < fuel)%nat ->
  DocumentProcessor.while_loop fuel text chunk_size step start chunks
  = Some (start + Z.of_nat n * step,
          chunks ++ chunks_from n text chunk_size step start).
Proof.
  induction n as [|n IH]; intros fuel text chunk_size step start chunks Hin Hout Hfuel.
  - destruct fuel as [|fuel]; [lia|].
    rewrite while_loop_exit by lia. simpl. rewrite app_nil_r. f_equal. f_equal. lia.
  - destruct fuel as [|fuel]; [lia|].
    rewrite while_loop_iter by (specialize (Hin 0%nat); lia).
    rewrite IH;
      [ | intros j Hj; specialize (Hin (S j)); lia | lia | lia ].
    rewrite (chunks_from_S n), app_assoc. do 2 f_equal. lia.
Qed.

(** With a positive step the loop leaves the text after at most
    [len(text) - start] iterations. *)
Lemma iterations_exist (text : str) step : 0 < step ->
  forall m start, (Z.to_nat (len text - start) <= m)%nat ->
  exists n, (n <= m)%nat
    /\ (forall j, (j < n)%nat -> start + Z.of_nat j * step < len text)
    /\ len text <= start + Z.of_nat n * step.
Proof.
  intros Hstep. induction m as [|m IH]; intros start Hm.
  - exists 0%nat. split; [lia|]. split; [intros; lia | lia].
  - destruct (Z_lt_le_dec start (len text)) as [Hlt|Hge].
    + destruct (IH (start + step)) as (n & Hn & Hin & Hout); [lia|].
      exists (S n). split; [lia|]. split.
      * intros [|j] Hj; [lia|]. specialize (Hin j). lia.
      * lia.
    + exists 0%nat. split; [lia|]. split; [intros; lia | lia].
Qed.

(** The chunks of [n] iterations from offset [k0 * step] are the trimmed,
    non-empty source windows [k0 .. k0 + n - 1], in order. *)
Lemma chunks_from_windows n : forall text chunk_size overlap k0,
  chunks_from n text chunk_size (chunk_size - overlap)
    (Z.of_nat k0 * (chunk_size - overlap))
  = filter (fun c => c <> [])
      (map (fun k => strip (window text chunk_size overlap k)) (seq k0 n)).
Proof.
  induction n as [|n IH]; intros text chunk_size overlap k0; [reflexivity|].
  cbn [chunks_from seq map].
  replace (Z.of_nat k0 * (chunk_size - overlap) + (chunk_size - overlap))
    with (Z.of_nat (S k0) * (chunk_size - overlap)) by lia.
  rewrite IH. unfold window at 2. cbv zeta.
  destruct (strip _) as [|c r] eqn:Hs; simpl.
  - by rewrite filter_cons_False by (intros H; by apply H).
  - by rewrite filter_cons_True by done.
Qed.

(** Every chunk of a run is at most [chunk_size] long. *)
Lemma chunks_from_length n : forall text chunk_size step start,
  0 <= chunk_size -> 0 <= start -> 0 <= step ->
  Forall (fun c => len c <= chunk_size)
    (chunks_from n text chunk_size step start).
Proof.
  induction n as [|n IH]; intros text chunk_size step start HC Hs Hstep.
  - constructor.
  - simpl. apply Forall_app. split; [|apply IH; lia].
    destruct (truthy _); constructor; [|constructor].
    pose proof (strip_length (slice text start (start + chunk_size))).
    pose proof (slice_length text start (start + chunk_size)).
    unfold len in *. lia.
Qed.

(** No chunk of a run is empty. *)
Lemma chunks_from_nonempty n : forall text chunk_size step start,
  Forall (fun c => c <> []) (chunks_from n text chunk_size step start).
Proof.
  induction n as [|n IH]; intros text chunk_size step start.
  - constructor.
  - simpl. apply Forall_app. split; [|apply IH].
    destruct (truthy _) eqn:Ht; constructor; [|constructor].
    by apply truthy_true.
Qed.

(** A whitespace-only text gives no chunk. *)
Lemma chunks_from_all_space n : forall text chunk_size step start,
  all_space text -> chunks_from n text chunk_size step start = [].
Proof.
  induction n as [|n IH]; intros text chunk_size step start Hsp; [done|].
  simpl. rewrite IH by done.
  assert (strip (slice text start (start + chunk_size)) = []) as ->.
  { by apply strip_nil, all_space_slice. }
  done.
Qed.

(** The chunker returns, and what it returns, when [overlap < chunk_size]. *)
Lemma split_into_chunks_run text chunk_size overlap :
  overlap < chunk_size ->
  exists n, (n <= length text)%nat /\
    (forall j, (j < n)%nat -> Z.of_nat j * (chunk_size - overlap) < len text) /\
    len text <= Z.of_nat n * (chunk_size - overlap) /\
    forall fuel, (n < fuel)%nat ->
      DocumentProcessor._split_into_chunks fuel text chunk_size overlap
      = Some (chunks_from n text chunk_size (chunk_size - overlap) 0).
Proof.
  intros Hlt.
  destruct (iterations_exist text (chunk_size - overlap) ltac:(lia)
              (length text) 0) as (n & Hn & Hin & Hout).
  { unfold len. lia. }
  destruct text as [|c text].
  - exists 0%nat. split; [simpl; lia|]. split; [intros; lia|].
    split; [unfold len; simpl; lia|]. intros fuel _. reflexivity.
  - exists n. split; [done|]. split; [intros j Hj; specialize (Hin j Hj); lia|].
    split; [lia|]. intros fuel Hfuel.
    unfold DocumentProcessor._split_into_chunks.
    cbn [truthy negb]. cbv zeta.
    rewrite (while_loop_run n) by (try done; intros j Hj; specialize (Hin j Hj); lia).
    reflexivity.
Qed.

Lemma split_into_chunks_same fuel text chunk_size overlap :
  DocumentProcessor._split_into_chunks fuel text chunk_size overlap
  = PdfProcessor._split_into_chunks fuel text chunk_size overlap.
Proof.
  unfold DocumentProcessor._split_into_chunks, PdfProcessor._split_into_chunks.
  by rewrite while_loop_same.
Qed.

(** Without a positive step the loop never leaves a non-empty text. *)
Lemma while_loop_diverges fuel : forall text chunk_size step start chunks,
  step <= 0 -> start < len text ->
  DocumentProcessor.while_loop fuel text chunk_size step start chunks = None.
Proof.
  induction fuel as [|fuel IH]; intros text chunk_size step start chunks Hs Hlt.
  - reflexivity.
  - rewrite while_loop_iter by done. apply IH; lia.
Qed.

Lemma slice_exact_length {A} (s : list A) a b :
  0 <= a <= b ->
  len (slice s a b) = Z.min b (len s) - Z.min a (len s).
Proof.
  intros Hab. rewrite slice_nonneg by done. unfold len.
  rewrite length_take, length_drop. lia.
Qed.

(** A window that lies within the text ends with the [overlap] characters
    the next window starts with. *)
Lemma full_window_overlap (text : str) chunk_size overlap k :
  0 <= overlap < chunk_size ->
  Z.of_nat k * (chunk_size - overlap) + chunk_size <= len text ->
  overlap_shared text chunk_size overlap k
  /\ len (trailing overlap (window text chunk_size overlap k)) = overlap.
Proof.
  intros HO Hin. unfold overlap_shared, trailing, leading, window. cbv zeta.
  set (step := chunk_size - overlap) in *.
  assert (0 <= Z.of_nat k * step) by nia.
  rewrite !slice_nonneg by lia.
  replace (Z.of_nat k * step + chunk_size - Z.of_nat k * step)
    with chunk_size by lia.
  replace (Z.of_nat (S k) * step + chunk_size - Z.of_nat (S k) * step)
    with chunk_size by lia.
  unfold len in *.
  rewrite length_take, length_drop.
  replace (Z.to_nat chunk_size `min` (length text - Z.to_nat (Z.of_nat k * step)))%nat
    with (Z.to_nat chunk_size) by lia.
  rewrite take_take.
  replace (Z.to_nat overlap `min` Z.to_nat chunk_size)%nat
    with (Z.to_nat overlap) by lia.
  replace (Z.to_nat (Z.of_nat (S k) * step))
    with (Z.to_nat (Z.of_nat k * step) + (Z.to_nat chunk_size - Z.to_nat overlap))%nat
    by (subst step; lia).
  rewrite <- drop_drop.
  set (l := drop (Z.to_nat (Z.of_nat k * step)) text).
  assert (Z.to_nat chunk_size <= length l)%nat
    by (subst l; rewrite length_drop; lia).
  rewrite take_drop_commute.
  replace (Z.to_nat chunk_size - Z.to_nat overlap + Z.to_nat overlap)%nat
    with (Z.to_nat chunk_size) by lia.
  split; [reflexivity|].
  rewrite length_drop, length_take. lia.
Qed.

(** C10: the two sliding-window chunkers, [_split_into_chunks] of
    [document_processor] and [_split_into_chunks] of [pdf_processor], are
    extensionally equal: for every text, chunk size and overlap, and after
    every number of loop iterations, both have returned the same chunk list
    or both are still running; when [overlap < chunk_size] both return, and
    return the same list. *)
Theorem chunkers_extensionally_equal :
  (forall fuel text chunk_size overlap,
     DocumentProcessor._split_into_chunks fuel text chunk_size overlap
     = PdfProcessor._split_into_chunks fuel text chunk_size overlap)
  /\ (forall text chunk_size overlap,
        overlap < chunk_size ->
        exists chunks, forall fuel, (length text < fuel)%nat ->
          DocumentProcessor._split_into_chunks fuel text chunk_size overlap
            = Some chunks
          /\ PdfProcessor._split_into_chunks fuel text chunk_size overlap
            = Some chunks).
Proof.
  split; [apply split_into_chunks_same|].
  intros text chunk_size overlap Hlt.
  destruct (split_into_chunks_run text chunk_size overlap Hlt)
    as (n & Hn & _ & _ & Hrun).
  eexists. intros fuel Hfuel.
  split; [apply Hrun; lia|].
  etrans; [symmetry; apply split_into_chunks_same | apply Hrun; lia].
Qed.

Lemma chunkers_extensionally_equal_witness :
  exists chunks, forall fuel, (length (lit "ab   cde  ") < fuel)%nat ->
    DocumentProcessor._split_into_chunks fuel (lit "ab   cde  ") 4 2
      = Some chunks
    /\ PdfProcessor._split_into_chunks fuel (lit "ab   cde  ") 4 2
      = Some chunks.
Proof.
  apply (proj2 chunkers_extensionally_equal (lit "ab   cde  ") 4 2). lia.
Defined.

(** C4: under the precondition [0 <= overlap < chunk_size] the step
    [chunk_size - overlap] is positive and the sliding-window chunker
    terminates for every text: every iteration strictly increases [start]
    (by [step]), the loop stops as soon as [start >= len(text)], and after at
    most [len(text)] iterations, started at offset 0, both chunkers have
    returned. *)
Theorem chunker_terminates (text : str) chunk_size overlap :
  0 <= overlap < chunk_size ->
  let step := chunk_size - overlap in
  0 < step
  /\ (forall fuel start chunks, start < len text ->
        start < start + step
        /\ exists chunks',
             DocumentProcessor.while_loop (S fuel) text chunk_size step start chunks
             = DocumentProcessor.while_loop fuel text chunk_size step
                 (start + step) chunks')
  /\ (forall fuel start chunks, len text <= start ->
        DocumentProcessor.while_loop (S fuel) text chunk_size step start chunks
        = Some (start, chunks))
  /\ exists n final chunks,
       (n <= length text)%nat /\ len text <= final /\
       final = Z.of_nat n * step /\
       forall fuel, (n < fuel)%nat ->
         DocumentProcessor.while_loop fuel text chunk_size step 0 []
           = Some (final, chunks)
         /\ PdfProcessor.while_loop fuel text chunk_size step 0 []
           = Some (final, chunks)
         /\ DocumentProcessor._split_into_chunks fuel text chunk_size overlap
           = Some chunks
         /\ PdfProcessor._split_into_chunks fuel text chunk_size overlap
           = Some chunks.
Proof.
  intros HO step. assert (0 < step) as Hstep by (subst step; lia).
  split; [done|]. split; [|split].
  - intros fuel start chunks Hlt. split; [lia|].
    eexists. by apply while_loop_iter.
  - intros. by apply while_loop_exit.
  - destruct (iterations_exist text step Hstep (length text) 0)
      as (n & Hn & Hin & Hout); [unfold len; lia|].
    exists n, (Z.of_nat n * step), (chunks_from n text chunk_size step 0).
    split; [done|]. split; [lia|]. split; [done|].
    intros fuel Hfuel.
    assert (DocumentProcessor.while_loop fuel text chunk_size step 0 []
            = Some (Z.of_nat n * step, chunks_from n text chunk_size step 0))
      as Hrun.
    { rewrite (while_loop_run n) by (try done; lia). reflexivity. }
    assert (DocumentProcessor._split_into_chunks fuel text chunk_size overlap
            = Some (chunks_from n text chunk_size step 0)) as Hsplit.
    { unfold DocumentProcessor._split_into_chunks. fold step.
      destruct text as [|c text]; [|cbn [truthy negb]; by rewrite Hrun].
      destruct n as [|n]; [reflexivity|].
      specialize (Hin 0%nat). unfold len in Hin. simpl in Hin. lia. }
    split; [done|].
    split; [etrans; [symmetry; apply while_loop_same | exact Hrun]|].
    split; [done|].
    etrans; [symmetry; apply split_into_chunks_same | exact Hsplit].
Qed.

Lemma chunker_terminates_witness :
  exists n final chunks,
    (n <= length (lit "ab   cde  "))%nat /\ len (lit "ab   cde  ") <= final /\
    final = Z.of_nat n * (4 - 2) /\
    forall fuel, (n < fuel)%nat ->
      DocumentProcessor.while_loop fuel (lit "ab   cde  ") 4 (4 - 2) 0 []
        = Some (final, chunks)
      /\ PdfProcessor.while_loop fuel (lit "ab   cde  ") 4 (4 - 2) 0 []
        = Some (final, chunks)
      /\ DocumentProcessor._split_into_chunks fuel (lit "ab   cde  ") 4 2
        = Some chunks
      /\ PdfProcessor._split_into_chunks fuel (lit "ab   cde  ") 4 2
        = Some chunks.
Proof.
  apply (chunker_terminates (lit "ab   cde  ") 4 2). lia.
Defined.

(** C3, as the claim states it, fails: with text ["abcde"], chunk size 4
    and overlap 3 the loop produces chunks from the windows at starts 2 and
    3, which are ["cde"] and ["de"]; the earlier window is cut short by the
    end of the text, and its last 3 characters ["cde"] are not the first 3
    characters ["de"] of the later one. *)
Lemma overlap_fails_on_truncated_window :
  ~ (forall text chunk_size overlap k,
       0 <= overlap < chunk_size ->
       produces_chunk text chunk_size overlap k ->
       produces_chunk text chunk_size overlap (S k) ->
       overlap_shared text chunk_size overlap k).
Proof.
  intros H.
  specialize (H (lit "abcde") 4 3 2%nat ltac:(lia)).
  assert (produces_chunk (lit "abcde") 4 3 2) as H2
    by (split; [reflexivity | discriminate]).
  assert (produces_chunk (lit "abcde") 4 3 3) as H3
    by (split; [reflexivity | discriminate]).
  specialize (H H2 H3). vm_compute in H. discriminate.
Qed.

(** C3 (amended): for every text, chunk size [C] and overlap [O] with
    [0 <= O < C] the chunker returns the trimmed non-empty source windows in
    order, every returned chunk has length at most [C], and for every window
    that lies within the text ([start + C <= len(text)]) its trailing [O]
    characters, exactly [O] of them, are the leading [O] characters of the
    window at the next start (before trimming). *)
Theorem chunks_bounded_and_overlapping (text : str) chunk_size overlap :
  0 <= overlap < chunk_size ->
  exists n chunks,
    (forall fuel, (n < fuel)%nat ->
       DocumentProcessor._split_into_chunks fuel text chunk_size overlap
       = Some chunks)
    /\ chunks = filter (fun c => c <> [])
                  (map (fun k => strip (window text chunk_size overlap k))
                     (seq 0 n))
    /\ Forall (fun c => len c <= chunk_size) chunks
    /\ forall k,
         Z.of_nat k * (chunk_size - overlap) + chunk_size <= len text ->
         overlap_shared text chunk_size overlap k
         /\ len (trailing overlap (window text chunk_size overlap k)) = overlap.
Proof.
  intros HO.
  destruct (split_into_chunks_run text chunk_size overlap ltac:(lia))
    as (n & Hn & _ & _ & Hrun).
  exists n, (chunks_from n text chunk_size (chunk_size - overlap) 0).
  split; [exact Hrun|]. split; [|split].
  - apply (chunks_from_windows n text chunk_size overlap 0).
  - apply chunks_from_length; lia.
  - intros k Hk. by apply full_window_overlap.
Qed.

Lemma chunks_bounded_and_overlapping_witness :
  exists n chunks,
    (forall fuel, (n < fuel)%nat ->
       DocumentProcessor._split_into_chunks fuel (lit "abcde") 4 3
       = Some chunks)
    /\ chunks = filter (fun c => c <> [])
                  (map (fun k => strip (window (lit "abcde") 4 3 k)) (seq 0 n))
    /\ Forall (fun c => len c <= 4) chunks
    /\ forall k,
         Z.of_nat k * (4 - 3) + 4 <= len (lit "abcde") ->
         overlap_shared (lit "abcde") 4 3 k
         /\ len (trailing 3 (window (lit "abcde") 4 3 k)) = 3.
Proof.
  apply (chunks_bounded_and_overlapping (lit "abcde") 4 3). lia.
Defined.

(** C8: for every chunk size [C] and overlap [O] with [0 <= O < C],
    [chunk("", C, O) = []], and [chunk(T, C, O) = []] for every text [T]
    of whitespace only: each window is trimmed to nothing and dropped, and
    the chunker returns the empty list without an error. *)
Theorem chunker_empty_and_blank chunk_size overlap :
  0 <= overlap < chunk_size ->
  (forall fuel,
     DocumentProcessor._split_into_chunks fuel [] chunk_size overlap = Some [])
  /\ (forall text, all_space text ->
        forall fuel, (length text < fuel)%nat ->
          DocumentProcessor._split_into_chunks fuel text chunk_size overlap
          = Some []).
Proof.
  intros HO. split; [reflexivity|].
  intros text Hsp fuel Hfuel.
  destruct (split_into_chunks_run text chunk_size overlap ltac:(lia))
    as (n & Hn & _ & _ & Hrun).
  rewrite Hrun by lia. by rewrite chunks_from_all_space.
Qed.

Lemma chunker_empty_and_blank_witness :
  (forall fuel, DocumentProcessor._split_into_chunks fuel [] 500 50 = Some [])
  /\ DocumentProcessor._split_into_chunks 8
       (lit "     " ++ newline ++ lit " ") 4 1 = Some [].
Proof.
  destruct (chunker_empty_and_blank 500 50 ltac:(lia)) as [Hempty _].
  destruct (chunker_empty_and_blank 4 1 ltac:(lia)) as [_ Hblank].
  split; [exact Hempty|].
  apply Hblank; [|simpl; lia].
  unfold all_space. repeat constructor.
Defined.

(** C7: for every text of 1200 characters whose windows at starts 0, 450
    and 900 are left unchanged by trimming (no whitespace at their
    boundaries), [chunk(text, 500, 50)] yields exactly 3 chunks, the three
    windows, and the last one is shorter than 500 characters (it has 300). *)
Theorem scenario_1200_characters (text : str) :
  len text = 1200 ->
  (forall start, In start [0; 450; 900] ->
     strip (slice text start (start + 500)) = slice text start (start + 500)) ->
  exists c0 c1 c2,
    (forall fuel, (3 < fuel)%nat ->
       DocumentProcessor._split_into_chunks fuel text 500 50
       = Some [c0; c1; c2])
    /\ len c0 = 500 /\ len c1 = 500 /\ len c2 = 300 /\ len c2 < 500.
Proof.
  intros Hlen Hfix.
  assert (forall start, In start [0; 450; 900] ->
            truthy (strip (slice text start (start + 500))) = true) as Htruthy.
  { intros start Hin. rewrite (Hfix start Hin). apply truthy_true.
    intros Hnil. apply (f_equal len) in Hnil.
    rewrite slice_exact_length in Hnil
      by (simpl in Hin; intuition subst; lia).
    unfold len at 3 in Hnil. simpl in Hnil, Hin.
    intuition subst; lia. }
  exists (slice text 0 500), (slice text 450 950), (slice text 900 1400).
  split.
  - intros fuel Hfuel.
    unfold DocumentProcessor._split_into_chunks.
    destruct text as [|c text]; [unfold len in Hlen; simpl in Hlen; lia|].
    cbn [truthy negb]. cbv zeta.
    rewrite (while_loop_run 3)
      by first [ lia | intros j Hj; rewrite Hlen; lia | rewrite Hlen; lia ].
    cbn [chunks_from fmap option_fmap option_map snd app].
    replace (500 - 50) with 450 by lia.
    replace (0 + 500) with 500 by lia.
    replace (0 + 450) with 450 by lia.
    replace (450 + 450) with 900 by lia.
    pose proof (Htruthy 0 ltac:(simpl; tauto)) as H0.
    pose proof (Htruthy 450 ltac:(simpl; tauto)) as H1.
    pose proof (Htruthy 900 ltac:(simpl; tauto)) as H2.
    pose proof (Hfix 0 ltac:(simpl; tauto)) as F0.
    pose proof (Hfix 450 ltac:(simpl; tauto)) as F1.
    pose proof (Hfix 900 ltac:(simpl; tauto)) as F2.
    replace (0 + 500) with 500 in * by lia.
    replace (450 + 500) with 950 in * by lia.
    replace (900 + 500) with 1400 in * by lia.
    rewrite H0, H1, H2, F0, F1, F2. reflexivity.
  - rewrite !slice_exact_length by lia. rewrite Hlen. lia.
Qed.

Lemma scenario_1200_characters_witness :
  exists c0 c1 c2,
    (forall fuel, (3 < fuel)%nat ->
       DocumentProcessor._split_into_chunks fuel (repeat "a"%char 1200) 500 50
       = Some [c0; c1; c2])
    /\ len c0 = 500 /\ len c1 = 500 /\ len c2 = 300 /\ len c2 < 500.
Proof.
  apply (scenario_1200_characters (repeat "a"%char 1200)).
  - vm_compute. reflexivity.
  - intros start [<-|[<-|[<-|[]]]]; vm_compute; reflexivity.
Defined.

(** ** Computations *)

Import DocumentProcessorApi PdfProcessorApi.

Lemma bind_returns {A B} t (a : A) (k : A -> M B) :
  ((t, Returns a) ≫= k) = (t ++ (k a).1, (k a).2).
Proof. unfold mbind, M_bind. by destruct (k a). Qed.

Lemma bind_raises {A B} t e (k : A -> M B) :
  ((t, Raises e) ≫= k) = (t, Raises e).
Proof. reflexivity. Qed.

Lemma bind_print {B} m (k : unit -> M B) :
  (print m ≫= k) = (Print m :: (k tt).1, (k tt).2).
Proof. unfold print. by rewrite bind_returns. Qed.

Lemma bind_mret {A B} (a : A) (k : A -> M B) : (mret a ≫= k) = k a.
Proof. unfold mret, M_ret. rewrite bind_returns. by destruct (k a). Qed.

(** When the text starts with a non-space, the first window gives a chunk. *)
Lemma chunks_from_head n c r chunk_size step :
  isspace c = false -> 0 < chunk_size ->
  chunks_from (S n) (c :: r) chunk_size step 0 <> [].
Proof.
  intros Hc HC. simpl.
  assert (strip (slice (c :: r) 0 (0 + chunk_size)) <> []) as Hne.
  { rewrite strip_nil, slice_nonneg by lia. simpl.
    destruct (Z.to_nat (0 + chunk_size - 0)) as [|m] eqn:Hm; [lia|].
    simpl. unfold all_space. inversion 1. congruence. }
  apply truthy_true in Hne. rewrite Hne. discriminate.
Qed.

(** On a trimmed, non-empty text the chunker returns at least one chunk. *)
Lemma split_into_chunks_nonempty (clean : str) chunk_size overlap :
  0 <= overlap < chunk_size -> clean <> [] -> strip clean = clean ->
  exists chunks, chunks <> [] /\
    forall fuel, (length clean < fuel)%nat ->
      DocumentProcessor._split_into_chunks fuel clean chunk_size overlap
      = Some chunks.
Proof.
  intros HO Hne Hstrip.
  destruct (split_into_chunks_run clean chunk_size overlap ltac:(lia))
    as (n & Hn & _ & Hout & Hrun).
  exists (chunks_from n clean chunk_size (chunk_size - overlap) 0).
  split; [|intros fuel Hfuel; apply Hrun; lia].
  destruct clean as [|c r]; [done|].
  destruct n as [|n]; [unfold len in Hout; simpl in Hout; lia|].
  apply chunks_from_head; [|lia].
  eapply strip_head. exact Hstrip.
Qed.

Lemma strip_idemp s : strip (strip s) = strip s.
Proof.
  destruct (strip s) as [|c r] eqn:Hs; [reflexivity|].
  pose proof (strip_head _ _ _ Hs) as Hc.
  assert (exists d u, c :: r = u ++ [d] /\ isspace d = false) as (d & u & Hu & Hd).
  { unfold strip, rstrip in Hs.
    destruct (lstrip (rev (lstrip s))) as [|d v] eqn:Hl; [discriminate|].
    exists d, (rev v). split; [by rewrite <- Hs|].
    by apply lstrip_head in Hl. }
  unfold strip. rewrite lstrip_id by done. rewrite Hu. by apply rstrip_snoc.
Qed.

(** A loop that raised, raised in its body. *)
Lemma for_each_raises {A S} (l : list A) (body : S -> A -> M S) :
  forall s t e,
    for_each l body s = (t, Raises e) ->
    exists x s' t', x ∈ l /\ body s' x = (t', Raises e).
Proof.
  induction l as [|x l IH]; intros s t e Hrun; [discriminate Hrun|].
  cbn [for_each] in Hrun.
  destruct (body s x) as [t1 [s1|e1|]] eqn:Hbody.
  - rewrite bind_returns in Hrun.
    destruct (for_each l body s1) as [t2 r] eqn:Hrest.
    cbn [fst snd] in Hrun. injection Hrun as _ ->.
    destruct (IH _ _ _ Hrest) as (y & s' & t' & Hy & Hraise).
    exists y, s', t'. split; [by apply elem_of_cons; right | done].
  - injection Hrun as _ ->.
    exists x, s, t1. split; [by apply elem_of_cons; left | done].
  - discriminate Hrun.
Qed.

(** What the dispatch of [process_document] raises on a supported
    extension, a library raised. *)
Lemma extract_raw_raises L ext file_path t e :
  ext ∈ _SUPPORTED_EXTENSIONS ->
  extract_raw L ext file_path = (t, Raises e) ->
  raised_by_library L ext file_path e.
Proof.
  intros Hext Hrun. unfold extract_raw in Hrun.
  unfold raised_by_library.
  case_bool_decide as Hpdf.
  { left. split; [done|]. unfold _extract_pdf, lib_call in Hrun.
    destruct (PdfReader L file_path) as [reader|e'] eqn:Hreader;
      [|injection Hrun as _ ->; by left].
    right. rewrite bind_returns in Hrun. cbn [fst snd] in Hrun.
    match type of Hrun with
    | context [for_each ?l ?body ?s ≫= ?k] =>
        destruct (for_each l body s) as [t' [pages|e'|]] eqn:Hloop
    end.
    - rewrite bind_returns in Hrun. discriminate Hrun.
    - injection Hrun as _ ->.
      apply for_each_raises in Hloop
        as ([i page] & pages & t'' & Hin & Hbody).
      exists reader, page. split; [done|]. split.
      + unfold enumerate in Hin.
        apply list_elem_of_lookup in Hin as [k Hk].
        apply lookup_zip_with_Some in Hk as (i' & page' & [= -> ->] & _ & Hk).
        by eapply list_elem_of_lookup_2.
      + unfold lib_call in Hbody.
        destruct (extract_text page) as [[text|]|e''];
          [discriminate Hbody | discriminate Hbody |].
        by injection Hbody as _ ->.
    - discriminate Hrun. }
  case_bool_decide as Hdocx.
  { right. left. split; [done|]. unfold _extract_docx, lib_call in Hrun.
    destruct (Document L file_path) as [doc|e'];
      [discriminate Hrun | by injection Hrun as _ ->]. }
  case_bool_decide as Hpptx.
  { right. right. split; [done|]. unfold _extract_pptx, lib_call in Hrun.
    destruct (Presentation L file_path) as [prs|e'];
      [discriminate Hrun | by injection Hrun as _ ->]. }
  exfalso. unfold _SUPPORTED_EXTENSIONS in Hext.
  repeat (apply elem_of_cons in Hext as [Hext|Hext]; [done|]).
  by apply elem_of_nil in Hext.
Qed.

(** On a supported extension [process_document] raises nothing of its
    own. *)
Lemma process_document_raises L fuel file_path file_ext t e :
  lower file_ext ∈ _SUPPORTED_EXTENSIONS ->
  process_document L fuel file_path file_ext = (t, Raises e) ->
  raised_by_library L (lower file_ext) file_path e.
Proof.
  intros Hext Hrun. unfold process_document in Hrun. cbv zeta in Hrun.
  rewrite bool_decide_eq_true_2 in Hrun by done. cbn [negb] in Hrun.
  rewrite bind_print in Hrun.
  destruct (extract_raw L (lower file_ext) file_path) as [t' [raw|e'|]]
    eqn:Hraw.
  - rewrite bind_returns in Hrun. cbv beta in Hrun.
    destruct (truthy (strip (sub_ws raw))); cbn [negb] in Hrun.
    + destruct (DocumentProcessor._split_into_chunks fuel
                  (strip (sub_ws raw)) DocumentProcessor._CHUNK_SIZE
                  DocumentProcessor._CHUNK_OVERLAP); discriminate Hrun.
    + discriminate Hrun.
  - injection Hrun as _ ->. by eapply extract_raw_raises.
  - discriminate Hrun.
Qed.

(** C9: for every file path and every extension whose lower-case form is
    outside [{.pdf, .docx, .pptx}], [process_document] raises a
    [ValueError] that names the unsupported type, whatever the libraries
    would answer and before anything is printed or any library is called;
    for every extension inside the set it does not raise this error: the
    run goes on to announce the extraction, and whatever exception it ends
    with is one a library raised while the file was opened or read. *)
Theorem unsupported_extension_rejected L fuel file_path file_ext :
  let ext := lower file_ext in
  (ext ∉ _SUPPORTED_EXTENSIONS ->
     process_document L fuel file_path file_ext
     = ([], Raises {| cls := ValueError;
                      msg := lit "Unsupported file type '" ++ ext
                             ++ lit "'. Supported types: .docx, .pdf, .pptx" |}))
  /\ (ext ∈ _SUPPORTED_EXTENSIONS ->
        (exists t r,
           process_document L fuel file_path file_ext
           = (Print (DocExtracting file_path ext) :: t, r))
        /\ (forall t e,
              process_document L fuel file_path file_ext = (t, Raises e) ->
              raised_by_library L ext file_path e)).
Proof.
  intros ext. split; intros Hext.
  - unfold process_document. fold ext.
    rewrite bool_decide_eq_false_2 by done. reflexivity.
  - split.
    + unfold process_document. fold ext.
      rewrite bool_decide_eq_true_2 by done. cbn [negb].
      rewrite bind_print. eauto.
    + intros t e Hrun. by eapply process_document_raises.
Qed.

(** C9 on two uploads: a text file is rejected whatever the libraries are,
    and a deck with an upper-case extension is read; an exception of that
    run can only be the one [Presentation] raised on the file. *)
Lemma unsupported_extension_rejected_witness :
  (forall L fuel,
     process_document L fuel (lit "/tmp/notes.TXT") (lit ".TXT")
     = ([], Raises {| cls := ValueError;
                      msg := lit "Unsupported file type '.txt'. Supported types: .docx, .pdf, .pptx" |}))
  /\ (forall L fuel,
        (exists t r,
           process_document L fuel (lit "/tmp/slides.PPTX") (lit ".PPTX")
           = (Print (DocExtracting (lit "/tmp/slides.PPTX") (lit ".pptx")) :: t, r))
        /\ (forall t e,
              process_document L fuel (lit "/tmp/slides.PPTX") (lit ".PPTX")
              = (t, Raises e) ->
              raised_by_library L (lit ".pptx") (lit "/tmp/slides.PPTX") e)).
Proof.
  split; intros L fuel.
  - apply (unsupported_extension_rejected L fuel (lit "/tmp/notes.TXT") (lit ".TXT")).
    compute_done.
  - apply (unsupported_extension_rejected L fuel (lit "/tmp/slides.PPTX") (lit ".PPTX")).
    compute_done.
Defined.

Lemma bind_returns_inv {A B} (m : M A) (k : A -> M B) t b :
  (m ≫= k) = (t, Returns b) ->
  exists t1 a t2, m = (t1, Returns a) /\ k a = (t2, Returns b) /\ t = t1 ++ t2.
Proof.
  destruct m as [t1 [a|e|]]; unfold mbind, M_bind; [|discriminate..].
  destruct (k a) as [t2 r] eqn:Hk. intros [= <- ->]. eauto 6.
Qed.

Lemma try_except_returns_inv {A} (body : M A) C handler t a :
  try_except body C handler = (t, Returns a) ->
  body = (t, Returns a)
  \/ exists t1 e t2, body = (t1, Raises e) /\ issubclass (cls e) C = true
       /\ handler e = (t2, Returns a) /\ t = t1 ++ t2.
Proof.
  destruct body as [t1 [a'|e|]]; unfold try_except; [by left| |discriminate].
  destruct (issubclass (cls e) C) eqn:Hsub; [|discriminate].
  destruct (handler e) as [t2 r] eqn:Hh. intros [= <- ->]. right. eauto 8.
Qed.

Ltac inv_binds :=
  repeat match goal with
  | H : (_ ≫= _) = (_, Returns _) |- _ =>
      apply bind_returns_inv in H as (? & ? & ? & ? & H & ?); cbv beta in H
  end.

Lemma all_space_sub_ws_from s : forall b,
  all_space (sub_ws_from b s) <-> all_space s.
Proof.
  unfold all_space. induction s as [|c s IH]; intros b; simpl; [done|].
  destruct (isspace c) eqn:Hc.
  - destruct b.
    + rewrite IH. split; [by constructor | by inversion 1].
    + split; inversion 1; subst; constructor; try done; by apply (IH true).
  - split; inversion 1; congruence.
Qed.

Lemma all_space_join sep parts :
  all_space (join sep parts) -> Forall all_space parts.
Proof.
  induction parts as [|p [|q ps] IH]; intros H.
  - constructor.
  - constructor; [exact H | constructor].
  - change (all_space (p ++ sep ++ join sep (q :: ps))) in H.
    unfold all_space in H. apply Forall_app in H as [Hp H].
    apply Forall_app in H as [_ H]. constructor; [exact Hp | by apply IH].
Qed.

(** A trimmed, non-empty text is not blank. *)
Lemma stripped_not_blank s : strip s = s -> s <> [] -> ~ all_space s.
Proof. intros Hs Hne Hsp. apply strip_nil in Hsp. congruence. Qed.





(** What a stage does with its text: append it when it is not empty. *)
Lemma stage_append (parts : list str) s m1 m2 t parts' :
  (if truthy s then print m1 ≫= (fun _ => mret (parts ++ [s]))
   else print m2 ≫= (fun _ => mret parts)) = (t, Returns parts') ->
  parts' = parts ++ (if truthy s then [s] else []).
Proof.
  destruct (truthy s); rewrite bind_print; cbn; intros [= _ <-];
    by rewrite ?app_nil_r.
Qed.

Lemma stage_skipped (parts : list str) m t parts' :
  (print m ≫= (fun _ => mret parts)) = (t, Returns parts') -> parts' = parts.
Proof. rewrite bind_print. cbn. by intros [= _ <-]. Qed.



(** The tail of both entry points: an empty normalised text gives [[]], any
    other text goes through the chunker and gives at least one chunk. *)
Lemma chunk_step_document (clean : str) :
  strip clean = clean ->
  exists chunks, (chunks = [] <-> clean = []) /\
    forall fuel, (length clean < fuel)%nat ->
      DocumentProcessor._split_into_chunks fuel clean
        DocumentProcessor._CHUNK_SIZE DocumentProcessor._CHUNK_OVERLAP
      = Some chunks.
Proof.
  intros Hs. destruct clean as [|c r] eqn:Hclean.
  - exists []. split; [done|]. reflexivity.
  - rewrite <- Hclean in *.
    destruct (split_into_chunks_nonempty clean
                DocumentProcessor._CHUNK_SIZE DocumentProcessor._CHUNK_OVERLAP)
      as (chunks & Hne & Hrun); [done | by subst | done |].
    exists chunks. split; [|exact Hrun]. split; [done | by subst].
Qed.

(** The tail of [process_pdf] after the stages returned their parts. *)
Lemma process_pdf_run L file_path reader t parts :
  PdfReader L file_path = Ok reader ->
  stage_parts L reader file_path = (t, Returns parts) ->
  exists chunks,
    (chunks = [] <-> strip (sub_ws (join (lit " ") parts)) = []) /\
    forall fuel,
      (length (strip (sub_ws (join (lit " ") parts))) < fuel)%nat ->
      PdfProcessor._split_into_chunks fuel
        (strip (sub_ws (join (lit " ") parts)))
        PdfProcessor._CHUNK_SIZE PdfProcessor._CHUNK_OVERLAP = Some chunks
      /\ exists t', process_pdf L fuel file_path
                    = (Call (CallPdfReader file_path) :: t ++ t',
                       Returns chunks).
Proof.
  intros Hreader Hparts.
  destruct (chunk_step_document (strip (sub_ws (join (lit " ") parts)))
              (strip_idemp _)) as (chunks & Hiff & Hrun).
  exists chunks. split; [exact Hiff|].
  intros fuel Hfuel.
  assert (PdfProcessor._split_into_chunks fuel
            (strip (sub_ws (join (lit " ") parts)))
            PdfProcessor._CHUNK_SIZE PdfProcessor._CHUNK_OVERLAP
          = Some chunks) as Hsplit.
  { etrans; [symmetry; apply split_into_chunks_same | by apply Hrun]. }
  split; [exact Hsplit|].
  unfold process_pdf.
  rewrite Hreader. unfold lib_call. rewrite bind_returns, Hparts.
  cbn [fst snd]. rewrite bind_returns. cbv beta zeta.
  rewrite Hsplit.
  destruct (strip (sub_ws (join (lit " ") parts))) as [|c r] eqn:Hclean.
  - assert (chunks = []) as -> by by apply Hiff. cbn. eauto.
  - cbn. eauto.
Qed.




(** ** Stage 3: one unreadable image never stops the others *)

Lemma image_loop_body_run page_num (st : list str * Z) img :
  ordinary (img_ocr img) ->
  exists t,
    image_loop_body page_num st img
    = (t, Returns (st.1 ++ image_text img, st.2 + 1))
    /\ forall e, img_ocr img = Err e ->
         Print (ImgSkipping (page_num + 1)%nat e) ∈ t.
Proof.
  intros Hord. destruct st as [image_texts total_images].
  unfold image_loop_body, image_text, lib_call.
  destruct (img_ocr img) as [text|e] eqn:Hocr.
  - rewrite bind_returns. cbv beta zeta.
    destruct (truthy (strip text)) eqn:Ht.
    + rewrite bind_print. cbn. eexists. split; [reflexivity | discriminate].
    + cbn. rewrite app_nil_r. eexists. split; [reflexivity | discriminate].
  - rewrite bind_raises. unfold try_except.
    change (issubclass (cls e) Exception = true) in Hord.
    rewrite Hord. rewrite bind_print. cbn.
    rewrite app_nil_r. eexists. split; [reflexivity|].
    intros e' [= <-]. set_solver.
Qed.

Lemma image_loop_run page_num imgs :
  Forall (fun img => ordinary (img_ocr img)) imgs ->
  forall st : list str * Z, exists t,
    for_each imgs (image_loop_body page_num) st
    = (t, Returns (st.1 ++ concat (map image_text imgs), st.2 + len imgs))
    /\ forall img e, img ∈ imgs -> img_ocr img = Err e ->
         Print (ImgSkipping (page_num + 1)%nat e) ∈ t.
Proof.
  induction 1 as [|img imgs Himg _ IH]; intros st.
  - exists []. cbn. rewrite app_nil_r, Z.add_0_r. destruct st.
    split; [reflexivity | intros ? ? ?%elem_of_nil; done].
  - destruct (image_loop_body_run page_num st img Himg) as (t1 & Hrun1 & Hlog1).
    destruct (IH (st.1 ++ image_text img, st.2 + 1)) as (t2 & Hrun2 & Hlog2).
    exists (t1 ++ t2). split.
    + cbn [for_each]. rewrite Hrun1, bind_returns, Hrun2. cbn [fst snd map concat].
      rewrite app_assoc. do 3 f_equal. unfold len. cbn [length]. lia.
    + intros img' e [->|Hin]%elem_of_cons Hocr; apply elem_of_app; eauto.
Qed.

Lemma page_loop_body_run page_num page (st : list str * Z) :
  match images page with
  | Ok imgs => Forall (fun img => ordinary (img_ocr img)) imgs
  | Err e => issubclass (cls e) Exception = true
  end ->
  exists t total,
    page_loop_body st (page_num, page)
    = (t, Returns (st.1 ++ page_image_texts page, total))
    /\ forall imgs img e, images page = Ok imgs -> img ∈ imgs ->
         img_ocr img = Err e ->
         Print (ImgSkipping (page_num + 1)%nat e) ∈ t.
Proof.
  intros Hord. unfold page_loop_body, page_image_texts, lib_call.
  destruct (images page) as [imgs|e] eqn:Himgs.
  - destruct (image_loop_run page_num imgs Hord st) as (t & Hrun & Hlog).
    cbn. rewrite Hrun. eexists _, _. split; [reflexivity|].
    intros imgs' img e [= <-] Hin Hocr. apply elem_of_cons. right. eauto.
  - cbn -[issubclass]. rewrite Hord. cbn. rewrite app_nil_r. destruct st.
    eexists _, _. split; [reflexivity | discriminate].
Qed.

Lemma page_loop_run pages :
  ordinary_images pages ->
  forall k (st : list str * Z), exists t total,
    for_each (zip (seq k (length pages)) pages) page_loop_body st
    = (t, Returns (st.1 ++ image_texts pages, total))
    /\ forall i page imgs img e,
         pages !! i = Some page -> images page = Ok imgs -> img ∈ imgs ->
         img_ocr img = Err e ->
         Print (ImgSkipping (k + i + 1)%nat e) ∈ t.
Proof.
  induction 1 as [|page pages Hpage _ IH]; intros k st.
  - exists [], st.2. cbn. rewrite app_nil_r. destruct st.
    split; [reflexivity | intros ? ? ? ? ? [=]].
  - destruct (page_loop_body_run k page st Hpage) as (t1 & total1 & Hrun1 & Hlog1).
    destruct (IH (S k) (st.1 ++ page_image_texts page, total1))
      as (t2 & total2 & Hrun2 & Hlog2).
    exists (t1 ++ t2), total2. split.
    + cbn [length seq zip zip_with for_each].
      rewrite Hrun1, bind_returns, Hrun2. cbn [fst snd].
      unfold image_texts. cbn [map concat]. by rewrite app_assoc.
    + intros [|i] page' imgs img e Hlook Himgs Hin Hocr; apply elem_of_app.
      * injection Hlook as <-. left.
        replace (k + 0 + 1)%nat with (k + 1)%nat by lia. eauto.
      * right. replace (k + S i + 1)%nat with (S k + i + 1)%nat by lia. eauto.
Qed.

(** With images that raise nothing outside [Exception], stage 3 returns the
    normalised texts of the readable images and logs every skipped one. *)
Lemma extract_images_text_run reader :
  ordinary_images reader ->
  exists t,
    _extract_images_text reader
    = (t, Returns (strip (sub_ws (join newline (image_texts reader)))))
    /\ forall i page imgs img e,
         reader !! i = Some page -> images page = Ok imgs -> img ∈ imgs ->
         img_ocr img = Err e ->
         Print (ImgSkipping (i + 1)%nat e) ∈ t.
Proof.
  intros Hord.
  destruct (page_loop_run reader Hord 0%nat ([], 0))
    as (t & total & Hrun & Hlog).
  unfold _extract_images_text, enumerate. rewrite Hrun, bind_returns.
  cbn [fst snd app].
  destruct (total =? 0); [rewrite bind_mret | rewrite bind_print]; cbn;
    eexists; (split; [reflexivity|]);
    intros i page imgs img e Hlook Himgs Hin Hocr;
    apply elem_of_app; left; eauto.
Qed.

(** ** Stage 2 and the cascade *)

Lemma finishes_bind {A B} (m : M A) (k : A -> M B) :
  finishes m -> (forall a, finishes (k a)) -> finishes (m ≫= k).
Proof.
  unfold finishes. destruct m as [t [a|e|]]; intros Hm Hk; try done.
  rewrite bind_returns. apply Hk.
Qed.

Lemma finishes_lib_call {A} c (r : result A) : finishes (lib_call c r).
Proof. unfold finishes. by destruct r. Qed.

Lemma finishes_try_except {A} (body : M A) C handler :
  finishes body -> (forall e, finishes (handler e)) ->
  finishes (try_except body C handler).
Proof.
  unfold finishes, try_except. destruct body as [t [a|e|]]; intros Hb Hh; try done.
  destruct (issubclass _ _); [|done].
  specialize (Hh e). by destruct (handler e).
Qed.

Lemma finishes_for_each {A S} (l : list A) (body : S -> A -> M S) :
  (forall s x, finishes (body s x)) -> forall s, finishes (for_each l body s).
Proof.
  intros Hbody. induction l as [|x l IH]; intros s; [done|].
  cbn [for_each]. by apply finishes_bind.
Qed.

Lemma extract_text_ocr_finishes L file_path :
  finishes (_extract_text_ocr L file_path).
Proof.
  unfold _extract_text_ocr, _import_pdf2image.
  apply finishes_bind; [apply finishes_try_except;
                         [apply finishes_lib_call | done]|].
  intros _. apply finishes_bind; [done|]. intros _.
  apply finishes_bind; [apply finishes_lib_call|]. intros pages.
  apply finishes_bind; [|done].
  apply finishes_for_each. intros texts [i page_img].
  apply finishes_bind; [apply finishes_lib_call|]. intros text.
  destruct (truthy _); [|]; by apply finishes_bind.
Qed.

Lemma nonempty_parts_cons s l :
  nonempty_parts (s :: l) = (if truthy s then [s] else []) ++ nonempty_parts l.
Proof.
  unfold nonempty_parts. destruct s as [|c r].
  - by rewrite filter_cons_False by (intros H; by apply H).
  - by rewrite filter_cons_True by done.
Qed.

Lemma bind_run {A B} (m : M A) (k : A -> M B) t1 a t2 r :
  m = (t1, Returns a) -> k a = (t2, r) -> (m ≫= k) = (t1 ++ t2, r).
Proof. intros -> Hk. by rewrite bind_returns, Hk. Qed.

Ltac run_bind := eapply bind_run; [|cbv beta].

Lemma try_except_returns {A} (body : M A) C handler t a :
  body = (t, Returns a) -> try_except body C handler = (t, Returns a).
Proof. by intros ->. Qed.

Lemma try_except_caught {A} (body : M A) C handler t1 e t2 r :
  body = (t1, Raises e) -> issubclass (cls e) C = true ->
  handler e = (t2, r) -> try_except body C handler = (t1 ++ t2, r).
Proof. intros -> Hsub Hh. unfold try_except. by rewrite Hsub, Hh. Qed.

Lemma stage_step (parts : list str) s m1 m2 :
  (if truthy s then print m1 ≫= (fun _ => mret (parts ++ [s]))
   else print m2 ≫= (fun _ => mret parts))
  = ([Print (if truthy s then m1 else m2)],
     Returns (parts ++ (if truthy s then [s] else []))).
Proof. destruct (truthy s); rewrite bind_print; cbn; by rewrite ?app_nil_r. Qed.

(** The cascade: when the native stage returned, full-page OCR raises
    nothing but [RuntimeError]s and the images nothing outside [Exception],
    the three stages give the non-empty texts among theirs, a stage that
    raised counting as empty. *)
Lemma stage_parts_run L reader file_path t1 native :
  _extract_text_native reader = (t1, Returns native) ->
  (forall t e, _extract_text_ocr L file_path = (t, Raises e) ->
     issubclass (cls e) RuntimeError = true) ->
  ordinary_images reader ->
  exists t,
    stage_parts L reader file_path
    = (t, Returns (nonempty_parts
                     [native;
                      contribution (_extract_text_ocr L file_path);
                      strip (sub_ws (join newline (image_texts reader)))]))
    /\ (forall t2 e, _extract_text_ocr L file_path = (t2, Raises e) ->
          Print (Stage2Skipped e) ∈ t)
    /\ Print Stage3 ∈ t
    /\ (forall i page imgs img e,
          reader !! i = Some page -> images page = Ok imgs -> img ∈ imgs ->
          img_ocr img = Err e ->
          Print (ImgSkipping (i + 1)%nat e) ∈ t).
Proof.
  intros Hnative Hocr_exn Hord.
  destruct (extract_images_text_run reader Hord) as (t3 & Himg & Hlog3).
  pose proof (extract_text_ocr_finishes L file_path) as Hfin.
  cut (exists t parts,
         stage_parts L reader file_path = (t, Returns parts)
         /\ parts = nonempty_parts
                      [native; contribution (_extract_text_ocr L file_path);
                       strip (sub_ws (join newline (image_texts reader)))]
         /\ (forall t2 e, _extract_text_ocr L file_path = (t2, Raises e) ->
               Print (Stage2Skipped e) ∈ t)
         /\ Print Stage3 ∈ t
         /\ (forall i page imgs img e,
               reader !! i = Some page -> images page = Ok imgs ->
               img ∈ imgs -> img_ocr img = Err e ->
               Print (ImgSkipping (i + 1)%nat e) ∈ t)).
  { intros (t & parts & Hrun & -> & Hlogs). eauto. }
  rewrite !nonempty_parts_cons. unfold stage_parts.
  destruct (_extract_text_ocr L file_path) as [t2 [ocr|e|]] eqn:Hocr;
    [| |by destruct Hfin]; cbn [contribution].
  - eexists _, _. split; [|split; [|split; [|split]]].
    + run_bind; [reflexivity|]. run_bind; [exact Hnative|].
      run_bind; [apply stage_step|]. run_bind; [reflexivity|].
      run_bind.
      { apply try_except_returns. run_bind; [reflexivity | apply stage_step]. }
      run_bind; [reflexivity|].
      apply try_except_returns. run_bind; [exact Himg | apply stage_step].
    + unfold nonempty_parts. by rewrite filter_nil, app_nil_r, <- !app_assoc.
    + discriminate.
    + set_solver.
    + intros i page imgs img e' ? ? ? ?.
      assert (Print (ImgSkipping (i + 1)%nat e') ∈ t3) by eauto. set_solver.
  - eexists _, _. split; [|split; [|split; [|split]]].
    + run_bind; [reflexivity|]. run_bind; [exact Hnative|].
      run_bind; [apply stage_step|]. run_bind; [reflexivity|].
      run_bind.
      { eapply try_except_caught; [reflexivity | by eapply Hocr_exn |].
        run_bind; reflexivity. }
      run_bind; [reflexivity|].
      apply try_except_returns. run_bind; [exact Himg | apply stage_step].
    + unfold nonempty_parts. by rewrite filter_nil, !app_nil_r.
    + intros ? ? [= <- <-]. set_solver.
    + set_solver.
    + intros i page imgs img e' ? ? ? ?.
      assert (Print (ImgSkipping (i + 1)%nat e') ∈ t3) by eauto. set_solver.
Qed.

(** C2, as the claim states it, fails: an exception raised by the native
    text layer of the only page leaves [process_pdf], and so does the
    exception pdf2image raises in the full-page OCR stage when poppler is
    missing, which is not a [RuntimeError]; in both runs the later stages
    are never started. *)
Lemma sub_stage_exception_aborts :
  ~ (forall L fuel file_path reader,
       PdfReader L file_path = Ok reader ->
       forall t e, process_pdf L fuel file_path <> (t, Raises e))
  /\ process_pdf broken_text_layer_pdf 1 (lit "/tmp/a.pdf")
     = ([Call (CallPdfReader (lit "/tmp/a.pdf")); Print (Stage1 (lit "/tmp/a.pdf"));
         Call (CallExtractText 0)],
        Raises os_error)
  /\ process_pdf scanned_pdf_no_poppler 1 (lit "/tmp/a.pdf")
     = ([Call (CallPdfReader (lit "/tmp/a.pdf")); Print (Stage1 (lit "/tmp/a.pdf"));
         Call (CallExtractText 0); Print Stage1None; Print Stage2;
         Call CallImportPdf2image; Print OcrRunning;
         Call (CallConvertFromPath (lit "/tmp/a.pdf"))],
        Raises {| cls := Exception; msg := lit "PDFInfoNotInstalledError" |}).
Proof.
  split; [|split; vm_compute; reflexivity].
  intros H.
  apply (H broken_text_layer_pdf 1%nat (lit "/tmp/a.pdf") _ eq_refl
           [Call (CallPdfReader (lit "/tmp/a.pdf"));
            Print (Stage1 (lit "/tmp/a.pdf")); Call (CallExtractText 0)]
           os_error).
  vm_compute. reflexivity.
Qed.

(** C2 (amended): during PDF extraction, once the file is opened and the
    native text layer is read, every [RuntimeError] raised by the full-page
    OCR stage is caught and logged, and every exception of class
    [Exception] raised while listing the images of a page or while decoding
    and reading one embedded image is caught, the image one being logged.
    Each degrades only the contribution of that stage, or of that image, to
    empty text: [process_pdf] does not abort, it goes on to stage 3, and it
    returns the chunks of the combined text of the native layer, of the
    full-page OCR when it returned, and of the readable embedded images. *)
Theorem stage_failures_are_contained L file_path reader t1 native :
  PdfReader L file_path = Ok reader ->
  _extract_text_native reader = (t1, Returns native) ->
  (forall t e, _extract_text_ocr L file_path = (t, Raises e) ->
     issubclass (cls e) RuntimeError = true) ->
  ordinary_images reader ->
  let parts :=
    nonempty_parts [native;
                    contribution (_extract_text_ocr L file_path);
                    strip (sub_ws (join newline (image_texts reader)))] in
  let combined := strip (sub_ws (join (lit " ") parts)) in
  exists chunks,
    (chunks = [] <-> combined = []) /\
    forall fuel, (length combined < fuel)%nat ->
      PdfProcessor._split_into_chunks fuel combined
        PdfProcessor._CHUNK_SIZE PdfProcessor._CHUNK_OVERLAP = Some chunks
      /\ exists t,
           process_pdf L fuel file_path = (t, Returns chunks)
           /\ (forall t2 e, _extract_text_ocr L file_path = (t2, Raises e) ->
                 Print (Stage2Skipped e) ∈ t)
           /\ Print Stage3 ∈ t
           /\ (forall i page imgs img e,
                 reader !! i = Some page -> images page = Ok imgs ->
                 img ∈ imgs -> img_ocr img = Err e ->
                 Print (ImgSkipping (i + 1)%nat e) ∈ t).
Proof.
  intros Hreader Hnative Hocr Hord parts combined.
  destruct (stage_parts_run L reader file_path t1 native Hnative Hocr Hord)
    as (t & Hparts & Hlog2 & Hlog3 & Hlogi).
  destruct (process_pdf_run L file_path reader t parts Hreader Hparts)
    as (chunks & Hiff & Hrun).
  exists chunks. split; [exact Hiff|].
  intros fuel Hfuel. destruct (Hrun fuel Hfuel) as (Hsplit & t' & Hrun').
  split; [exact Hsplit|].
  eexists. split; [exact Hrun'|].
  split; [|split].
  - intros t2 e He. specialize (Hlog2 t2 e He).
    apply elem_of_cons. right. apply elem_of_app. by left.
  - apply elem_of_cons. right. apply elem_of_app. by left.
  - intros i page imgs img e ? ? ? ?.
    apply elem_of_cons. right. apply elem_of_app. left. eauto.
Qed.

(** C2 (amended) on the scanned PDF without pdf2image: stage 2 raises a
    [RuntimeError] and the first embedded image cannot be decoded; the run
    returns the chunk of the second image. *)
Lemma stage_failures_are_contained_witness :
  exists chunks,
    (chunks = [] <-> lit "Fig. 1" = []) /\
    forall fuel, (length (lit "Fig. 1") < fuel)%nat ->
      PdfProcessor._split_into_chunks fuel (lit "Fig. 1")
        PdfProcessor._CHUNK_SIZE PdfProcessor._CHUNK_OVERLAP = Some chunks
      /\ exists t,
           process_pdf scanned_pdf_no_pdf2image fuel (lit "/tmp/a.pdf")
           = (t, Returns chunks)
           /\ (forall t2 e,
                 _extract_text_ocr scanned_pdf_no_pdf2image (lit "/tmp/a.pdf")
                 = (t2, Raises e) ->
                 Print (Stage2Skipped e) ∈ t)
           /\ Print Stage3 ∈ t
           /\ (forall i page imgs img e,
                 [scanned_page] !! i = Some page -> images page = Ok imgs ->
                 img ∈ imgs -> img_ocr img = Err e ->
                 Print (ImgSkipping (i + 1)%nat e) ∈ t).
Proof.
  apply (stage_failures_are_contained scanned_pdf_no_pdf2image
           (lit "/tmp/a.pdf") [scanned_page] [Call (CallExtractText 0)] []).
  - reflexivity.
  - vm_compute. reflexivity.
  - intros t e H. vm_compute in H. injection H as _ <-. reflexivity.
  - repeat constructor.
Defined.

(** ** Chunk ids *)

Import VectorStore.

Lemma lit_inj s1 s2 : lit s1 = lit s2 -> s1 = s2.
Proof.
  unfold lit. intros H.
  rewrite <- (string_of_list_ascii_of_string s1),
          <- (string_of_list_ascii_of_string s2). by rewrite H.
Qed.

Lemma str_of_nat_inj i j : str_of_nat i = str_of_nat j -> i = j.
Proof. unfold str_of_nat. intros H%lit_inj. by apply (inj pretty). Qed.

Lemma pretty_N_char_no_underscore x : pretty_N_char x <> "_"%char.
Proof. unfold pretty_N_char. by repeat case_match. Qed.

Lemma pretty_N_go_no_underscore x : forall s,
  Forall (fun c => c <> "_"%char) (lit s) ->
  Forall (fun c => c <> "_"%char) (lit (pretty_N_go x s)).
Proof.
  induction (N.lt_wf_0 x) as [x _ IH]. intros s Hs.
  destruct (decide (x = 0)%N) as [->|Hx].
  - by rewrite pretty_N_go_0.
  - rewrite pretty_N_go_step by lia. apply IH.
    + apply N.div_lt; lia.
    + constructor; [apply pretty_N_char_no_underscore | exact Hs].
Qed.

(** The decimal digits of an index hold no underscore. *)
Lemma str_of_nat_no_underscore i :
  Forall (fun c => c <> "_"%char) (str_of_nat i).
Proof.
  unfold str_of_nat, pretty, pretty_nat, pretty, pretty_N.
  case_decide.
  - repeat constructor. discriminate.
  - apply pretty_N_go_no_underscore. constructor.
Qed.

Lemma split_at_first_underscore (a1 a2 r1 r2 : str) :
  Forall (fun c => c <> "_"%char) a1 ->
  Forall (fun c => c <> "_"%char) a2 ->
  a1 ++ "_"%char :: r1 = a2 ++ "_"%char :: r2 -> a1 = a2 /\ r1 = r2.
Proof.
  intros H1. revert a2. induction H1 as [|c a1 Hc _ IH]; intros a2 H2 Heq.
  - destruct H2 as [|d a2 Hd _]; simpl in Heq.
    + by injection Heq.
    + injection Heq as <- _. done.
  - destruct H2 as [|d a2 Hd H2]; simpl in Heq.
    + injection Heq as -> _. done.
    + injection Heq as -> Heq. destruct (IH a2 H2 Heq) as [-> ->]. done.
Qed.

(** Two ids are equal only for the same document id and the same index. *)
Lemma chunk_id_inj d1 i1 d2 i2 :
  chunk_id d1 i1 = chunk_id d2 i2 -> d1 = d2 /\ i1 = i2.
Proof.
  unfold chunk_id. intros H. apply (f_equal (@rev _)) in H.
  rewrite !rev_app_distr in H.
  change (rev (lit "_chunk_")) with ("_"%char :: lit "knuhc_") in H.
  rewrite <- !app_assoc in H. cbn [app] in H.
  apply split_at_first_underscore in H as [Hi Hd];
    try (apply Forall_rev, str_of_nat_no_underscore).
  apply app_inv_head in Hd.
  split.
  - rewrite <- (rev_involutive d1), <- (rev_involutive d2). by rewrite Hd.
  - apply str_of_nat_inj.
    rewrite <- (rev_involutive (str_of_nat i1)),
            <- (rev_involutive (str_of_nat i2)). by rewrite Hi.
Qed.

(** The loop of [store_document] builds one id and one metadata record per
    chunk, in order. *)
Lemma build_ids_metadatas_run document_id (chunks : list str) ts :
  build_ids_metadatas document_id chunks ts
  = (map (chunk_id document_id) (seq 0 (length chunks)),
     imap (fun i chunk => {| VectorStore.document_id := document_id;
                             chunk_text := chunk;
                             chunk_index := i;
                             timestamp := ts |}) chunks).
Proof.
  unfold build_ids_metadatas, enumerate.
  cut (forall k ids metas,
         foldl (fun '(ids, metadatas) '(i, chunk_text) =>
                  (ids ++ [chunk_id document_id i],
                   metadatas ++ [ {| VectorStore.document_id := document_id;
                                     chunk_text := chunk_text;
                                     chunk_index := i;
                                     timestamp := ts |} ]))
           (ids, metas) (zip (seq k (length chunks)) chunks)
         = (ids ++ map (chunk_id document_id) (seq k (length chunks)),
            metas ++ imap (fun i chunk =>
                             {| VectorStore.document_id := document_id;
                                chunk_text := chunk;
                                chunk_index := (k + i)%nat;
                                timestamp := ts |}) chunks)).
  { intros H. apply (H 0%nat [] []). }
  induction chunks as [|chunk chunks IH]; intros k ids metas.
  - cbn. by rewrite !app_nil_r.
  - cbn [length seq zip zip_with foldl map imap].
    rewrite IH, <- !app_assoc. cbn [app]. rewrite Nat.add_0_r.
    do 3 f_equal. apply imap_ext. intros i x _. cbn. f_equal. lia.
Qed.

(** ** The collection *)

Section Store.
Context {V : Type}.
Implicit Types (c : gmap str (record V)) (row : str * record V).

(** [add] never changes what the collection holds under an id. *)
Lemma add_row_keeps c row k v :
  c !! k = Some v -> add_row c row !! k = Some v.
Proof.
  intros Hk. unfold add_row. destruct (c !! row.1) eqn:Hrow; [done|].
  rewrite lookup_insert_ne; [done|]. intros <-. congruence.
Qed.

Lemma add_rows_keep rows : forall c k v,
  c !! k = Some v -> foldl add_row c rows !! k = Some v.
Proof.
  induction rows as [|row rows IH]; intros c k v Hk; [done|].
  cbn [foldl]. by apply IH, add_row_keeps.
Qed.

(** After [add] every id of the batch is in the collection. *)
Lemma add_rows_present rows : forall c row,
  row ∈ rows -> is_Some (foldl add_row c rows !! row.1).
Proof.
  induction rows as [|row' rows IH]; intros c row Hin.
  - by apply elem_of_nil in Hin.
  - apply elem_of_cons in Hin as [->|Hin]; [|by apply IH].
    cbn [foldl].
    assert (is_Some (add_row c row' !! row'.1)) as [v Hv].
    { unfold add_row. destruct (c !! row'.1) eqn:Hrow; [by rewrite Hrow|].
      rewrite lookup_insert_eq. eauto. }
    rewrite (add_rows_keep rows _ _ _ Hv). eauto.
Qed.

(** A batch whose ids are all present leaves the collection as it is. *)
Lemma add_rows_all_present rows : forall c,
  (forall row, row ∈ rows -> is_Some (c !! row.1)) ->
  foldl add_row c rows = c.
Proof.
  induction rows as [|row rows IH]; intros c Hall; [done|].
  cbn [foldl].
  assert (add_row c row = c) as ->.
  { unfold add_row. destruct (Hall row) as [v ->]; [set_solver | done]. }
  apply IH. intros row' Hin. apply Hall. set_solver.
Qed.

(** A fresh id of a batch without duplicates gets its own row. *)
Lemma add_rows_fresh rows : forall c i k v,
  NoDup rows.*1 -> rows !! i = Some (k, v) -> c !! k = None ->
  foldl add_row c rows !! k = Some v.
Proof.
  induction rows as [|row rows IH]; intros c i k v Hnd Hi Hk; [done|].
  cbn [fmap list_fmap] in Hnd. apply NoDup_cons in Hnd as [Hnotin Hnd].
  cbn [foldl]. destruct i as [|i].
  - injection Hi as ->. apply add_rows_keep. unfold add_row. cbn [fst snd].
    rewrite Hk. apply lookup_insert_eq.
  - cbn in Hi. eapply IH; [done | exact Hi |].
    unfold add_row. destruct (c !! row.1) eqn:Hrow; [done|].
    rewrite lookup_insert_ne; [done|]. intros Heq. apply Hnotin.
    rewrite Heq. apply list_elem_of_fmap. exists (k, v).
    split; [done|]. by eapply list_elem_of_lookup_2.
Qed.

Lemma rows_lookup ids (embeddings : list V) documents metadatas i id e d m :
  ids !! i = Some id -> embeddings !! i = Some e ->
  documents !! i = Some d -> metadatas !! i = Some m ->
  rows ids embeddings documents metadatas !! i
  = Some (id, {| rec_embedding := e; rec_document := d; rec_metadata := m |}).
Proof.
  intros Hid He Hd Hm. unfold rows.
  rewrite !lookup_zip_with, Hid, He, Hd, Hm. reflexivity.
Qed.

Lemma rows_ids ids (embeddings : list V) documents metadatas :
  length embeddings = length ids -> length documents = length ids ->
  length metadatas = length ids ->
  (rows ids embeddings documents metadatas).*1 = ids.
Proof.
  revert embeddings documents metadatas.
  induction ids as [|id ids IH]; intros [|e es] [|d ds] [|m ms] He Hd Hm;
    try discriminate; [done|].
  cbn in *. f_equal. apply IH; lia.
Qed.

Lemma ids_NoDup document_id n :
  NoDup (map (chunk_id document_id) (seq 0 n)).
Proof.
  apply NoDup_fmap_2_strong; [|apply NoDup_seq].
  intros i j _ _ H. by apply chunk_id_inj in H as [_ ?].
Qed.

(** What [store_document] does on a non-empty batch with one embedding
    per chunk: one [add] with the ids and metadata of the loop. *)
Lemma store_document_run c now document_id chunks (embeddings : list V) :
  chunks <> [] -> length embeddings = length chunks ->
  let ids := map (chunk_id document_id) (seq 0 (length chunks)) in
  let metadatas :=
    imap (fun i chunk => {| VectorStore.document_id := document_id;
                            chunk_text := chunk;
                            chunk_index := i;
                            timestamp := now |}) chunks in
  let c' := foldl add_row c (rows ids embeddings chunks metadatas) in
  store_document c now document_id chunks embeddings
  = ([Call (CallCollectionAdd ids);
      Print (StoreStored (len chunks) document_id (count c'))],
     Returns c').
Proof.
  intros Hne Hlen ids metadatas c'. unfold store_document.
  apply truthy_true in Hne. rewrite Hne. cbn [negb].
  rewrite build_ids_metadatas_run. fold ids metadatas.
  unfold collection_add.
  rewrite bool_decide_eq_true_2.
  2:{ subst ids metadatas. by rewrite length_map, length_seq, length_imap. }
  rewrite bool_decide_eq_true_2 by apply ids_NoDup.
  cbn [negb]. unfold lib_call. rewrite bind_returns. cbv beta.
  rewrite bind_print. reflexivity.
Qed.

End Store.

(** C5: for every document id, non-empty chunk list and matching embedding
    list, [store_document] builds for each index [i] the id
    ["{document_id}_chunk_{i}"] and a metadata record with the document id,
    the chunk's own text, its index and the one timestamp read at the start
    of the call, and hands them to the collection in one [add]; an id that
    is new to the collection then holds exactly that record.  The id
    determines the pair (document id, chunk index): two distinct pairs
    never give the same id. *)
Theorem store_builds_ids_and_metadata {V} (c : collection V) now
    document_id chunks (embeddings : list V) :
  chunks <> [] -> length embeddings = length chunks ->
  (forall d1 i1 d2 i2, (d1, i1) <> (d2, i2) -> chunk_id d1 i1 <> chunk_id d2 i2)
  /\ exists ids metadatas t c',
       build_ids_metadatas document_id chunks now = (ids, metadatas)
       /\ length ids = length chunks /\ length metadatas = length chunks
       /\ store_document c now document_id chunks embeddings = (t, Returns c')
       /\ Call (CallCollectionAdd ids) ∈ t
       /\ forall i chunk e,
            chunks !! i = Some chunk -> embeddings !! i = Some e ->
            let id := document_id ++ lit "_chunk_" ++ str_of_nat i in
            let m := {| VectorStore.document_id := document_id;
                        chunk_text := chunk;
                        chunk_index := i;
                        timestamp := now |} in
            ids !! i = Some id
            /\ metadatas !! i = Some m
            /\ (c !! id = None ->
                c' !! id = Some {| rec_embedding := e;
                                   rec_document := chunk;
                                   rec_metadata := m |}).
Proof.
  intros Hne Hlen. split.
  { intros d1 i1 d2 i2 Hpair Hid. apply chunk_id_inj in Hid as [-> ->]. done. }
  eexists _, _, _, _.
  split; [apply build_ids_metadatas_run|].
  split; [by rewrite length_map, length_seq|].
  split; [by rewrite length_imap|].
  split; [by apply store_document_run|].
  split; [apply elem_of_cons; by left|].
  intros i chunk e Hchunk He id m.
  assert (i < length chunks)%nat as Hi by by eapply lookup_lt_Some.
  assert (map (chunk_id document_id) (seq 0 (length chunks)) !! i = Some id)
    as Hid.
  { change (map ?f ?l) with (f <$> l).
    rewrite list_lookup_fmap, lookup_seq_lt by done. reflexivity. }
  assert (imap (fun i chunk => {| VectorStore.document_id := document_id;
                                  chunk_text := chunk;
                                  chunk_index := i;
                                  timestamp := now |}) chunks !! i = Some m)
    as Hm by (by rewrite list_lookup_imap, Hchunk).
  split; [exact Hid|]. split; [exact Hm|].
  intros Hfresh.
  eapply add_rows_fresh; [|by apply rows_lookup|exact Hfresh].
  rewrite rows_ids; rewrite ?length_map, ?length_seq, ?length_imap; try done.
  apply ids_NoDup.
Qed.

Lemma store_builds_ids_and_metadata_witness :
  (forall d1 i1 d2 i2, (d1, i1) <> (d2, i2) -> chunk_id d1 i1 <> chunk_id d2 i2)
  /\ exists ids metadatas t c',
       build_ids_metadatas (lit "doc") [lit "alpha"; lit "beta"]
         (lit "2026-01-01T00:00:00+00:00") = (ids, metadatas)
       /\ length ids = 2%nat /\ length metadatas = 2%nat
       /\ store_document (V := list Z) ∅ (lit "2026-01-01T00:00:00+00:00")
            (lit "doc") [lit "alpha"; lit "beta"] [[1; 2]; [3; 4]]
          = (t, Returns c')
       /\ Call (CallCollectionAdd ids) ∈ t
       /\ forall i chunk e,
            [lit "alpha"; lit "beta"] !! i = Some chunk ->
            [[1; 2]; [3; 4]] !! i = Some e ->
            let id := lit "doc" ++ lit "_chunk_" ++ str_of_nat i in
            let m := {| VectorStore.document_id := lit "doc";
                        chunk_text := chunk;
                        chunk_index := i;
                        timestamp := lit "2026-01-01T00:00:00+00:00" |} in
            ids !! i = Some id
            /\ metadatas !! i = Some m
            /\ ((∅ : collection (list Z)) !! id = None ->
                c' !! id = Some {| rec_embedding := e;
                                   rec_document := chunk;
                                   rec_metadata := m |}).
Proof.
  apply (store_builds_ids_and_metadata (V := list Z) ∅
           (lit "2026-01-01T00:00:00+00:00") (lit "doc")
           [lit "alpha"; lit "beta"] [[1; 2]; [3; 4]]).
  - discriminate.
  - reflexivity.
Defined.

(** C1, as the claim states it, fails: after a second [store_document] with
    the same arguments at a later clock reading, the id still holds the
    record of the first call, with the first timestamp; the collection's
    [add] ignored the row, where an upsert would have replaced the record. *)
Lemma second_store_does_not_overwrite :
  ~ (forall (c c1 c2 : collection (list Z)) now1 now2 document_id chunks
            embeddings t1 t2,
       chunks <> [] -> length embeddings = length chunks ->
       store_document c now1 document_id chunks embeddings = (t1, Returns c1) ->
       store_document c1 now2 document_id chunks embeddings = (t2, Returns c2) ->
       count c2 = count c1
       /\ forall i chunk e,
            chunks !! i = Some chunk -> embeddings !! i = Some e ->
            c2 !! chunk_id document_id i
            = Some {| rec_embedding := e;
                      rec_document := chunk;
                      rec_metadata :=
                        {| VectorStore.document_id := document_id;
                           chunk_text := chunk;
                           chunk_index := i;
                           timestamp := now2 |} |}).
Proof.
  intros H.
  set (now1 := lit "2026-01-01T00:00:00+00:00").
  set (now2 := lit "2026-01-02T00:00:00+00:00").
  set (r1 := {| rec_embedding := [1; 2];
                rec_document := lit "alpha";
                rec_metadata := {| VectorStore.document_id := lit "doc";
                                   chunk_text := lit "alpha";
                                   chunk_index := 0;
                                   timestamp := now1 |} |}).
  set (c1 := <[chunk_id (lit "doc") 0 := r1]> (∅ : collection (list Z))).
  assert (forall now,
            foldl add_row c1
              (rows [chunk_id (lit "doc") 0] [[1; 2]] [lit "alpha"]
                 [ {| VectorStore.document_id := lit "doc";
                      chunk_text := lit "alpha";
                      chunk_index := 0;
                      timestamp := now |} ]) = c1) as Hsame.
  { intros now. apply add_rows_all_present.
    intros row ->%list_elem_of_singleton. cbn [fst].
    subst c1. rewrite lookup_insert_eq. eauto. }
  destruct (H ∅ c1 c1 now1 now2 (lit "doc") [lit "alpha"] [[1; 2]]
              [Call (CallCollectionAdd [chunk_id (lit "doc") 0]);
               Print (StoreStored 1 (lit "doc") (count c1))]
              [Call (CallCollectionAdd [chunk_id (lit "doc") 0]);
               Print (StoreStored 1 (lit "doc") (count c1))])
    as [_ Hrec]; [discriminate | reflexivity | | |].
  - rewrite store_document_run by done. reflexivity.
  - rewrite store_document_run by done. cbn [length seq map imap].
    by rewrite Hsame.
  - specialize (Hrec 0%nat (lit "alpha") [1; 2] eq_refl eq_refl).
    subst c1. rewrite lookup_insert_eq in Hrec.
    injection Hrec as Hts. discriminate Hts.
Qed.

(** C1 (amended): calling [store_document] twice with identical arguments
    leaves the collection, and so its total record count, unchanged by the
    second call, and neither call raises: for every document id, non-empty
    chunk list and matching embedding list, the ids of the second call are
    already present, the collection's [add] ignores their rows, and every
    record stays as the first call wrote it (nothing is duplicated and
    nothing is overwritten). *)
Theorem second_store_changes_nothing {V} (c : collection V) now1 now2
    document_id chunks (embeddings : list V) :
  chunks <> [] -> length embeddings = length chunks ->
  exists t1 c1 t2 c2,
    store_document c now1 document_id chunks embeddings = (t1, Returns c1)
    /\ store_document c1 now2 document_id chunks embeddings = (t2, Returns c2)
    /\ c2 = c1
    /\ count c2 = count c1
    /\ forall i, (i < length chunks)%nat ->
         is_Some (c1 !! chunk_id document_id i).
Proof.
  intros Hne Hlen.
  pose proof (store_document_run c now1 document_id chunks embeddings Hne Hlen)
    as Hrun1. cbv zeta in Hrun1.
  set (ids := map (chunk_id document_id) (seq 0 (length chunks))) in *.
  set (c1 := foldl add_row c _) in Hrun1.
  pose proof (store_document_run c1 now2 document_id chunks embeddings Hne Hlen)
    as Hrun2. cbv zeta in Hrun2. fold ids in Hrun2.
  assert (forall i, (i < length chunks)%nat ->
            is_Some (c1 !! chunk_id document_id i)) as Hpresent.
  { intros i Hi.
    destruct (lookup_lt_is_Some_2 chunks i Hi) as [chunk Hchunk].
    destruct (lookup_lt_is_Some_2 embeddings i ltac:(lia)) as [e He].
    subst c1.
    eapply (add_rows_present _ c (chunk_id document_id i, _)).
    eapply list_elem_of_lookup_2. apply rows_lookup; [|done..|].
    - subst ids. change (map ?f ?l) with (f <$> l).
      rewrite list_lookup_fmap, lookup_seq_lt by done. reflexivity.
    - by rewrite list_lookup_imap, Hchunk. }
  set (rows2 := rows ids embeddings chunks _) in Hrun2.
  assert (foldl add_row c1 rows2 = c1) as Hsame.
  { apply add_rows_all_present. intros row Hin.
    assert (row.1 ∈ ids) as Hid.
    { rewrite <- (rows_ids ids embeddings chunks
                    (imap (fun i chunk =>
                             {| VectorStore.document_id := document_id;
                                chunk_text := chunk;
                                chunk_index := i;
                                timestamp := now2 |}) chunks));
        subst ids; rewrite ?length_map, ?length_seq, ?length_imap; try done.
      apply list_elem_of_fmap. eauto. }
    subst ids. change (map ?f ?l) with (f <$> l) in Hid.
    apply list_elem_of_fmap in Hid as (i & -> & Hi).
    apply Hpresent. apply elem_of_seq in Hi. lia. }
  rewrite Hsame in Hrun2.
  eexists _, c1, _, c1. split; [exact Hrun1|]. split; [exact Hrun2|]. done.
Qed.

Lemma second_store_changes_nothing_witness :
  exists t1 c1 t2 c2,
    store_document (V := list Z) ∅ (lit "2026-01-01T00:00:00+00:00")
      (lit "doc") [lit "alpha"; lit "beta"] [[1; 2]; [3; 4]] = (t1, Returns c1)
    /\ store_document c1 (lit "2026-01-02T00:00:00+00:00")
         (lit "doc") [lit "alpha"; lit "beta"] [[1; 2]; [3; 4]] = (t2, Returns c2)
    /\ c2 = c1
    /\ count c2 = count c1
    /\ forall i, (i < length [lit "alpha"; lit "beta"])%nat ->
         is_Some (c1 !! chunk_id (lit "doc") i).
Proof.
  apply (second_store_changes_nothing (V := list Z) ∅
           (lit "2026-01-01T00:00:00+00:00") (lit "2026-01-02T00:00:00+00:00")
           (lit "doc") [lit "alpha"; lit "beta"] [[1; 2]; [3; 4]]).
  - discriminate.
  - reflexivity.
Defined.

(** For contrast, an upsert replaces what the collection holds under the
    id of the row. *)
Lemma upsert_row_overwrites {V} (c : collection V) (row : str * record V) :
  upsert_row c row !! row.1 = Some row.2.
Proof. unfold upsert_row. apply lookup_insert_eq. Qed.

(** * Further properties of the services *)

(** ** The chunker beyond its precondition and on short texts *)

(** X1: without a positive step ([overlap >= chunk_size]) neither chunker ever
    returns on a non-empty text: [start] never reaches [len(text)]. *)
Theorem chunker_never_returns fuel (text : str) chunk_size overlap :
  chunk_size <= overlap -> text <> [] ->
  DocumentProcessor._split_into_chunks fuel text chunk_size overlap = None
  /\ PdfProcessor._split_into_chunks fuel text chunk_size overlap = None.
Proof.
  intros Hstep Hne.
  assert (DocumentProcessor._split_into_chunks fuel text chunk_size overlap
          = None) as Hdoc.
  { unfold DocumentProcessor._split_into_chunks.
    apply truthy_true in Hne. rewrite Hne. cbn [negb]. cbv zeta.
    rewrite while_loop_diverges; [done | lia |].
    destruct text; [done|]. unfold len. simpl. lia. }
  split; [exact Hdoc|]. by rewrite <- split_into_chunks_same.
Qed.

Lemma chunker_never_returns_witness :
  DocumentProcessor._split_into_chunks 1000 (lit "abc") 3 3 = None
  /\ PdfProcessor._split_into_chunks 1000 (lit "abc") 3 3 = None.
Proof.
  apply (chunker_never_returns 1000 (lit "abc") 3 3); [lia | discriminate].
Defined.

Lemma strip_last s r d : strip s = r ++ [d] -> isspace d = false.
Proof.
  unfold strip, rstrip. intros H.
  apply (f_equal (@rev _)) in H. rewrite rev_involutive, rev_app_distr in H.
  simpl in H. by apply lstrip_head in H.
Qed.

Lemma chunks_from_trimmed n : forall text chunk_size step start,
  Forall (fun c => strip c = c) (chunks_from n text chunk_size step start).
Proof.
  induction n as [|n IH]; intros text chunk_size step start.
  - constructor.
  - simpl. apply Forall_app. split; [|apply IH].
    destruct (truthy _); constructor; [apply strip_idemp | constructor].
Qed.

(** X2: whenever [overlap < chunk_size], whatever their signs, every chunk the
    chunker returns is non-empty, starts with a non-space and ends with a
    non-space: trimming it again changes nothing. *)
Theorem chunks_nonempty_and_trimmed (text : str) chunk_size overlap :
  overlap < chunk_size ->
  exists chunks,
    (forall fuel, (length text < fuel)%nat ->
       DocumentProcessor._split_into_chunks fuel text chunk_size overlap
       = Some chunks
       /\ PdfProcessor._split_into_chunks fuel text chunk_size overlap
       = Some chunks)
    /\ Forall (fun c =>
         strip c = c
         /\ exists a r b r', c = a :: r /\ isspace a = false
                             /\ c = r' ++ [b] /\ isspace b = false) chunks.
Proof.
  intros Hlt.
  destruct (split_into_chunks_run text chunk_size overlap Hlt)
    as (n & Hn & _ & _ & Hrun).
  eexists. split.
  - intros fuel Hfuel. split; [apply Hrun; lia|].
    etrans; [symmetry; apply split_into_chunks_same | apply Hrun; lia].
  - pose proof (chunks_from_trimmed n text chunk_size (chunk_size - overlap) 0)
      as Htrim.
    pose proof (chunks_from_nonempty n text chunk_size (chunk_size - overlap) 0)
      as Hne.
    eapply Forall_impl; [apply Forall_and; split; [exact Htrim | exact Hne]|].
    intros c [Hc Hcne]. split; [exact Hc|].
    destruct c as [|a r]; [done|].
    destruct (exists_last Hcne) as (r' & b & Hlast).
    exists a, r, b, r'. split; [done|]. split; [by eapply strip_head|].
    split; [done|]. eapply strip_last. by rewrite Hc, Hlast.
Qed.

Lemma chunks_nonempty_and_trimmed_witness :
  exists chunks,
    (forall fuel, (length (lit " ab   cde  ") < fuel)%nat ->
       DocumentProcessor._split_into_chunks fuel (lit " ab   cde  ") (-2) (-5)
       = Some chunks
       /\ PdfProcessor._split_into_chunks fuel (lit " ab   cde  ") (-2) (-5)
       = Some chunks)
    /\ Forall (fun c =>
         strip c = c
         /\ exists a r b r', c = a :: r /\ isspace a = false
                             /\ c = r' ++ [b] /\ isspace b = false) chunks.
Proof.
  apply (chunks_nonempty_and_trimmed (lit " ab   cde  ") (-2) (-5)). lia.
Defined.

Lemma concat_window_heads (text : str) chunk_size (s : nat) n :
  forall k0,
  (0 < s)%nat -> Z.of_nat s <= chunk_size ->
  len text <= Z.of_nat (k0 + n) * Z.of_nat s ->
  concat (map (fun k => take s (slice text (Z.of_nat k * Z.of_nat s)
                                  (Z.of_nat k * Z.of_nat s + chunk_size)))
            (seq k0 n))
  = drop (k0 * s) text.
Proof.
  induction n as [|n IH]; intros k0 Hs HC Hlen.
  - cbn. rewrite drop_ge; [done|]. unfold len in Hlen. nia.
  - cbn [seq map concat]. rewrite IH by (try done; lia).
    rewrite slice_nonneg by nia. rewrite take_take.
    replace (s `min` Z.to_nat (Z.of_nat k0 * Z.of_nat s + chunk_size
                               - Z.of_nat k0 * Z.of_nat s))%nat
      with s by lia.
    replace (Z.to_nat (Z.of_nat k0 * Z.of_nat s)) with (k0 * s)%nat by lia.
    replace (S k0 * s)%nat with (k0 * s + s)%nat by lia.
    rewrite <- drop_drop. apply take_drop.
Qed.

(** X3: with [0 <= overlap < chunk_size] the windows of the loop cover the text
    without a gap: the first [step] characters of every window, one after
    the other, are the text again. *)
Theorem windows_reconstruct_text (text : str) chunk_size overlap :
  0 <= overlap < chunk_size ->
  let step := chunk_size - overlap in
  exists n final chunks,
    (forall fuel, (n < fuel)%nat ->
       DocumentProcessor.while_loop fuel text chunk_size step 0 []
       = Some (final, chunks))
    /\ final = Z.of_nat n * step
    /\ concat (map (fun k => take (Z.to_nat step)
                               (window text chunk_size overlap k))
                 (seq 0 n))
       = text.
Proof.
  intros HO step.
  destruct (iterations_exist text step ltac:(subst step; lia) (length text) 0)
    as (n & Hn & Hin & Hout); [unfold len; lia|].
  exists n, (Z.of_nat n * step), (chunks_from n text chunk_size step 0).
  split; [|split; [done|]].
  - intros fuel Hfuel.
    rewrite (while_loop_run n) by (try done; lia). reflexivity.
  - unfold window. fold step.
    pose proof (concat_window_heads text chunk_size (Z.to_nat step) n 0) as H.
    rewrite Z2Nat.id in H by (subst step; lia).
    rewrite H; [done | subst step; lia | subst step; lia | lia].
Qed.

Lemma windows_reconstruct_text_witness :
  exists n final chunks,
    (forall fuel, (n < fuel)%nat ->
       DocumentProcessor.while_loop fuel (lit "ab   cde  ") 4 (4 - 1) 0 []
       = Some (final, chunks))
    /\ final = Z.of_nat n * (4 - 1)
    /\ concat (map (fun k => take (Z.to_nat (4 - 1))
                               (window (lit "ab   cde  ") 4 1 k))
                 (seq 0 n))
       = lit "ab   cde  ".
Proof.
  apply (windows_reconstruct_text (lit "ab   cde  ") 4 1). lia.
Defined.

(** X4: a text no longer than one step comes back as one chunk, the trimmed
    text, or as no chunk when it is blank. *)
Theorem short_text_single_chunk (text : str) chunk_size overlap fuel :
  0 <= overlap < chunk_size -> len text <= chunk_size - overlap ->
  (1 < fuel)%nat ->
  DocumentProcessor._split_into_chunks fuel text chunk_size overlap
  = Some (if truthy (strip text) then [strip text] else [])
  /\ PdfProcessor._split_into_chunks fuel text chunk_size overlap
  = Some (if truthy (strip text) then [strip text] else []).
Proof.
  intros HO Hlen Hfuel.
  assert (DocumentProcessor._split_into_chunks fuel text chunk_size overlap
          = Some (if truthy (strip text) then [strip text] else [])) as Hdoc.
  { unfold DocumentProcessor._split_into_chunks.
    destruct text as [|c text]; [reflexivity|].
    cbn [truthy negb]. cbv zeta.
    rewrite (while_loop_run 1); [| |lia|done].
    2:{ intros [|j] Hj; [|lia]. unfold len. simpl. lia. }
    cbn [chunks_from fmap option_fmap option_map snd app].
    rewrite slice_nonneg by lia.
    rewrite take_ge by (unfold len in Hlen; simpl in *; lia).
    rewrite app_nil_r. reflexivity. }
  split; [exact Hdoc|]. by rewrite <- split_into_chunks_same.
Qed.

Lemma short_text_single_chunk_witness :
  DocumentProcessor._split_into_chunks 2 (lit "  Invoice 42 ") 500 50
  = Some [lit "Invoice 42"]
  /\ PdfProcessor._split_into_chunks 2 (lit "  Invoice 42 ") 500 50
  = Some [lit "Invoice 42"].
Proof.
  apply (short_text_single_chunk (lit "  Invoice 42 ") 500 50 2);
    [lia | vm_compute; discriminate | lia].
Defined.

Lemma chunks_from_count n : forall text chunk_size step start,
  (length (chunks_from n text chunk_size step start) <= n)%nat.
Proof.
  induction n as [|n IH]; intros text chunk_size step start; [done|].
  simpl. rewrite length_app. specialize (IH text chunk_size step (start + step)).
  destruct (truthy _); simpl; lia.
Qed.

(** X5: the chunker returns at most one chunk per step of the text:
    [(len(chunks) - 1) * step < len(text)] on a non-empty text. *)
Theorem chunk_count_bound (text : str) chunk_size overlap :
  overlap < chunk_size -> text <> [] ->
  exists chunks,
    (forall fuel, (length text < fuel)%nat ->
       DocumentProcessor._split_into_chunks fuel text chunk_size overlap
       = Some chunks)
    /\ (Z.of_nat (length chunks) - 1) * (chunk_size - overlap) < len text.
Proof.
  intros Hlt Hne.
  destruct (split_into_chunks_run text chunk_size overlap Hlt)
    as (n & Hn & Hin & Hout & Hrun).
  eexists. split; [intros fuel Hfuel; apply Hrun; lia|].
  pose proof (chunks_from_count n text chunk_size (chunk_size - overlap) 0) as Hc.
  destruct n as [|n].
  - destruct text; [done|]. unfold len in Hout. simpl in Hout. lia.
  - specialize (Hin n ltac:(lia)). nia.
Qed.

Lemma chunk_count_bound_witness :
  exists chunks,
    (forall fuel, (length (repeat "a"%char 1200) < fuel)%nat ->
       DocumentProcessor._split_into_chunks fuel (repeat "a"%char 1200) 500 50
       = Some chunks)
    /\ (Z.of_nat (length chunks) - 1) * (500 - 50) < len (repeat "a"%char 1200).
Proof.
  apply (chunk_count_bound (repeat "a"%char 1200) 500 50); [lia | discriminate].
Defined.

(** ** Whitespace normalisation *)

Lemma single_spaced_weaken s : forall b,
  single_spaced b s = true -> single_spaced false s = true.
Proof.
  destruct s as [|c s]; intros b H; [done|]. simpl in *.
  destruct (isspace c); [|done]. destruct b; [done|exact H].
Qed.

(** What [re.sub(r"\s+", " ", s)] returns is single-spaced. *)
Lemma sub_ws_from_single_spaced s : forall b,
  single_spaced b (sub_ws_from b s) = true.
Proof.
  induction s as [|c s IH]; intros b; [done|]. simpl.
  destruct (isspace c) eqn:Hc.
  - destruct b; [apply IH|]. simpl. by rewrite IH.
  - simpl. rewrite Hc. apply IH.
Qed.

(** On a single-spaced text the substitution changes nothing. *)
Lemma sub_ws_from_fixed s : forall b,
  single_spaced b s = true -> sub_ws_from b s = s.
Proof.
  induction s as [|c s IH]; intros b H; [done|]. simpl in *.
  destruct (isspace c) eqn:Hc.
  - destruct b; [done|]. simpl in H.
    apply andb_true_iff in H as [Hsp H]. apply bool_decide_eq_true in Hsp.
    subst c. by rewrite IH.
  - by rewrite IH.
Qed.

Lemma single_spaced_lstrip s : forall b,
  single_spaced b s = true -> single_spaced false (lstrip s) = true.
Proof.
  induction s as [|c s IH]; intros b H; [done|]. simpl in *.
  destruct (isspace c) eqn:Hc.
  - apply andb_true_iff in H as [_ H]. by eapply IH.
  - simpl. by rewrite Hc.
Qed.

Lemma single_spaced_prefix p : forall b t,
  single_spaced b (p ++ t) = true -> single_spaced b p = true.
Proof.
  induction p as [|c p IH]; intros b t H; [done|]. simpl in *.
  destruct (isspace c).
  - apply andb_true_iff in H as [H1 H]. rewrite H1. simpl. by eapply IH.
  - by eapply IH.
Qed.

Lemma lstrip_suffix s : exists u, s = u ++ lstrip s.
Proof.
  induction s as [|c s [u IH]]; [by exists []|]. simpl.
  destruct (isspace c); [|by exists []].
  exists (c :: u). simpl. by rewrite <- IH.
Qed.

Lemma rstrip_prefix s : exists t, s = rstrip s ++ t.
Proof.
  unfold rstrip. destruct (lstrip_suffix (rev s)) as [u Hu].
  exists (rev u). rewrite <- rev_app_distr, <- Hu. by rewrite rev_involutive.
Qed.

Lemma single_spaced_strip s b :
  single_spaced b s = true -> single_spaced false (strip s) = true.
Proof.
  intros H%single_spaced_lstrip. unfold strip.
  destruct (rstrip_prefix (lstrip s)) as [t Ht].
  rewrite Ht in H. by eapply single_spaced_prefix.
Qed.

(** The result of the normalisation is in normal form. *)
Lemma normalise_normalised raw : normalised (strip (sub_ws raw)).
Proof.
  split; [|apply strip_idemp].
  eapply single_spaced_strip, sub_ws_from_single_spaced.
Qed.

Lemma normalised_fixed s : normalised s -> strip (sub_ws s) = s.
Proof. intros [Hss Hs]. unfold sub_ws. by rewrite sub_ws_from_fixed. Qed.

Lemma single_spaced_chars s : forall b,
  single_spaced b s = true ->
  (forall c, c ∈ s -> isspace c = true -> c = " "%char)
  /\ (forall i c d, s !! i = Some c -> s !! S i = Some d ->
        isspace c = true -> isspace d = false).
Proof.
  induction s as [|x s IH]; intros b H.
  - split; [intros ? ?%elem_of_nil; done | intros ? ? ? [=]].
  - simpl in H. destruct (isspace x) eqn:Hx.
    + apply andb_true_iff in H as [H1 H]. apply andb_true_iff in H1 as [_ Hsp].
      apply bool_decide_eq_true in Hsp.
      destruct (IH true H) as [IH1 IH2]. split.
      * intros c [->|Hin]%elem_of_cons Hc; [done | by apply IH1].
      * intros [|i] c d Hc Hd Hsc; [|exact (IH2 i c d Hc Hd Hsc)].
        destruct s as [|y s]; [done|]. simpl in Hd. injection Hd as <-.
        simpl in H. destruct (isspace y); [done|done].
    + destruct (IH false H) as [IH1 IH2]. split.
      * intros c [->|Hin]%elem_of_cons Hc; [congruence | by apply IH1].
      * intros [|i] c d Hc Hd Hsc; [|exact (IH2 i c d Hc Hd Hsc)].
        simpl in Hc. injection Hc as <-. congruence.
Qed.

(** X6: the whitespace normalisation [re.sub(r"\s+", " ", raw).strip()] that
    every extractor and both entry points apply gives a text in which every
    whitespace character is a single space between two non-spaces, with no
    whitespace at either end; it is empty exactly for a blank input, and
    normalising it again changes nothing. *)
Theorem normalisation_normal_form raw :
  let clean := strip (sub_ws raw) in
  strip (sub_ws clean) = clean
  /\ (forall c, c ∈ clean -> isspace c = true -> c = " "%char)
  /\ (forall i c d, clean !! i = Some c -> clean !! S i = Some d ->
        isspace c = true -> isspace d = false)
  /\ (forall a r, clean = a :: r -> isspace a = false)
  /\ (forall r b, clean = r ++ [b] -> isspace b = false)
  /\ (clean = [] <-> all_space raw).
Proof.
  intros clean. pose proof (normalise_normalised raw) as Hn. fold clean in Hn.
  destruct (single_spaced_chars clean false (proj1 Hn)) as [H1 H2].
  split; [by apply normalised_fixed|].
  split; [exact H1|]. split; [exact H2|].
  split; [|split].
  - intros a r Hc. eapply strip_head. destruct Hn as [_ Hs]. by rewrite Hs, Hc.
  - intros r b Hc. eapply strip_last. destruct Hn as [_ Hs]. by rewrite Hs, Hc.
  - subst clean. rewrite strip_nil. unfold sub_ws.
    apply all_space_sub_ws_from.
Qed.

(** Joining normalised, non-empty parts by one space gives a normalised
    text. *)
Lemma single_spaced_app p : forall b rest a,
  single_spaced b p = true -> last p = Some a -> isspace a = false ->
  single_spaced false rest = true ->
  single_spaced b (p ++ rest) = true.
Proof.
  induction p as [|c p IH]; intros b rest a Hp Hlast Ha Hrest; [done|].
  rewrite <- app_comm_cons. cbn [single_spaced] in Hp |- *.
  destruct p as [|c' p].
  - injection Hlast as ->. rewrite Ha in *. exact Hrest.
  - change (last (c :: c' :: p)) with (last (c' :: p)) in Hlast.
    destruct (isspace c).
    + apply andb_true_iff in Hp as [H1 Hp]. rewrite H1. cbn [andb].
      by apply (IH true rest a).
    + by apply (IH false rest a).
Qed.

Lemma normalised_ends s :
  normalised s -> s <> [] ->
  exists a r b r', s = a :: r /\ isspace a = false
                   /\ s = r' ++ [b] /\ isspace b = false.
Proof.
  intros [_ Hs] Hne. destruct s as [|a r]; [done|].
  destruct (exists_last Hne) as (r' & b & Hlast).
  exists a, r, b, r'. split; [done|]. split; [by eapply strip_head|].
  split; [done|]. eapply strip_last. by rewrite Hs, Hlast.
Qed.

Lemma ends_trimmed (s : str) a r b r' :
  s = a :: r -> isspace a = false -> s = r' ++ [b] -> isspace b = false ->
  strip s = s.
Proof.
  intros Ha Hsa Hb Hsb. unfold strip.
  rewrite Ha, lstrip_id by done. rewrite <- Ha, Hb. by apply rstrip_snoc.
Qed.

Lemma join_normalised parts :
  Forall (fun p => normalised p /\ p <> []) parts -> parts <> [] ->
  normalised (join (lit " ") parts) /\ join (lit " ") parts <> [].
Proof.
  induction 1 as [|p parts [Hp Hpne] Hparts IH]; intros Hnil; [done|].
  destruct parts as [|q parts]; [by split|].
  destruct IH as [Hj Hjne]; [done|].
  change (join (lit " ") (p :: q :: parts))
    with (p ++ " "%char :: join (lit " ") (q :: parts)).
  set (j := join (lit " ") (q :: parts)) in *.
  destruct (normalised_ends p Hp Hpne) as (a & r & b & r' & Ha & Hsa & Hb & Hsb).
  destruct (normalised_ends j Hj Hjne) as (a' & t & b' & t' & Ha' & Hsa' & Hb' & Hsb').
  split; [split|].
  - eapply (single_spaced_app p false _ b); [apply Hp | | done |].
    + rewrite Hb. apply last_snoc.
    + simpl. destruct Hj as [Hj _]. rewrite Ha' in *. simpl in *.
      by rewrite Hsa' in *.
  - eapply (ends_trimmed _ a (r ++ " "%char :: j) b' (p ++ " "%char :: t'));
      [by rewrite Ha | done | | done].
    rewrite Hb' at 1. by rewrite <- app_assoc.
  - rewrite Ha. discriminate.
Qed.

Lemma normalisation_normal_form_witness :
  strip (sub_ws (strip (sub_ws (lit "  Invoice   42 " ++ newline))))
  = strip (sub_ws (lit "  Invoice   42 " ++ newline))
  /\ strip (sub_ws (lit "  Invoice   42 " ++ newline)) = lit "Invoice 42".
Proof.
  split; [|vm_compute; reflexivity].
  apply (normalisation_normal_form (lit "  Invoice   42 " ++ newline)).
Defined.

Lemma extract_text_native_normalised reader t s :
  _extract_text_native reader = (t, Returns s) -> normalised s.
Proof.
  unfold _extract_text_native. intros H. inv_binds.
  injection H as _ <-. apply normalise_normalised.
Qed.

Lemma extract_text_ocr_normalised L file_path t s :
  _extract_text_ocr L file_path = (t, Returns s) -> normalised s.
Proof.
  unfold _extract_text_ocr. intros H. inv_binds.
  injection H as _ <-. apply normalise_normalised.
Qed.

Lemma extract_images_text_normalised reader t s :
  _extract_images_text reader = (t, Returns s) -> normalised s.
Proof.
  unfold _extract_images_text. intros H. inv_binds.
  match goal with H : (let '(_, _) := ?x in _) = _ |- _ => destruct x end.
  inv_binds. injection H as _ <-. apply normalise_normalised.
Qed.

Lemma stage_text_normalised s :
  normalised s ->
  Forall (fun p => normalised p /\ p <> []) (if truthy s then [s] else []).
Proof.
  intros Hs. destruct (truthy s) eqn:Ht; constructor; [|constructor].
  split; [done | by apply truthy_true].
Qed.

Lemma stage_parts_normalised L reader file_path t parts :
  stage_parts L reader file_path = (t, Returns parts) ->
  Forall (fun p => normalised p /\ p <> []) parts.
Proof.
  unfold stage_parts. intros H. inv_binds.
  repeat match goal with
  | H : try_except _ _ _ = (_, Returns _) |- _ =>
      apply try_except_returns_inv in H
        as [H | (? & ? & ? & _ & _ & H & _)]; inv_binds
  | H : (if truthy _ then _ else _) = (_, Returns _) |- _ =>
      apply stage_append in H; subst
  | H : (print _ ≫= _) = (_, Returns _) |- _ =>
      apply stage_skipped in H; subst
  | H : mret _ = (_, Returns _) |- _ => injection H as _ <-
  end;
  repeat match goal with
  | H : _extract_text_native _ = _ |- _ =>
      apply extract_text_native_normalised in H
  | H : _extract_text_ocr _ _ = _ |- _ =>
      apply extract_text_ocr_normalised in H
  | H : _extract_images_text _ = _ |- _ =>
      apply extract_images_text_normalised in H
  end;
  rewrite ?Forall_app; repeat split;
    first [ by apply stage_text_normalised | constructor ].
Qed.

(** X7: the second normalisation of [process_pdf] changes nothing: the parts
    the stages collect are normalised and non-empty, so the combined text is
    exactly the parts joined by single spaces, in stage order, and the
    chunks returned are the chunks of that join. *)
Theorem combined_text_is_joined_parts L file_path reader t parts :
  PdfReader L file_path = Ok reader ->
  stage_parts L reader file_path = (t, Returns parts) ->
  strip (sub_ws (join (lit " ") parts)) = join (lit " ") parts
  /\ exists chunks,
       forall fuel, (length (join (lit " ") parts) < fuel)%nat ->
         PdfProcessor._split_into_chunks fuel (join (lit " ") parts)
           PdfProcessor._CHUNK_SIZE PdfProcessor._CHUNK_OVERLAP = Some chunks
         /\ exists t', process_pdf L fuel file_path = (t', Returns chunks).
Proof.
  intros Hreader Hparts.
  assert (strip (sub_ws (join (lit " ") parts)) = join (lit " ") parts) as Heq.
  { destruct parts as [|p parts]; [reflexivity|].
    apply normalised_fixed, join_normalised; [|done].
    by eapply stage_parts_normalised. }
  split; [exact Heq|].
  destruct (process_pdf_run L file_path reader t parts Hreader Hparts)
    as (chunks & _ & Hrun).
  rewrite Heq in Hrun. exists chunks. intros fuel Hfuel.
  destruct (Hrun fuel Hfuel) as (Hsplit & t' & Hrun'). eauto.
Qed.

Lemma combined_text_is_joined_parts_witness :
  strip (sub_ws (join (lit " ") [lit "Invoice 42"; lit "Fig. 1"]))
  = join (lit " ") [lit "Invoice 42"; lit "Fig. 1"]
  /\ exists chunks,
       forall fuel,
         (length (join (lit " ") [lit "Invoice 42"; lit "Fig. 1"]) < fuel)%nat ->
         PdfProcessor._split_into_chunks fuel
           (join (lit " ") [lit "Invoice 42"; lit "Fig. 1"])
           PdfProcessor._CHUNK_SIZE PdfProcessor._CHUNK_OVERLAP = Some chunks
         /\ exists t', process_pdf scanned_pdf fuel (lit "/tmp/a.pdf")
                       = (t', Returns chunks).
Proof.
  eapply (combined_text_is_joined_parts scanned_pdf (lit "/tmp/a.pdf")
            [scanned_page]); [reflexivity | vm_compute; reflexivity].
Defined.

(** ** The extractors of document_processor.py *)

(** The tail of [process_document] after the extraction returned. *)
Lemma process_document_run L file_path file_ext t raw :
  lower file_ext ∈ _SUPPORTED_EXTENSIONS ->
  extract_raw L (lower file_ext) file_path = (t, Returns raw) ->
  exists chunks,
    (chunks = [] <-> strip (sub_ws raw) = []) /\
    forall fuel, (length (strip (sub_ws raw)) < fuel)%nat ->
      DocumentProcessor._split_into_chunks fuel (strip (sub_ws raw))
        DocumentProcessor._CHUNK_SIZE DocumentProcessor._CHUNK_OVERLAP
      = Some chunks
      /\ exists t',
           process_document L fuel file_path file_ext
           = (Print (DocExtracting file_path (lower file_ext)) :: t ++ t',
              Returns chunks).
Proof.
  intros Hext Hraw.
  destruct (chunk_step_document (strip (sub_ws raw)) (strip_idemp _))
    as (chunks & Hiff & Hrun).
  exists chunks. split; [exact Hiff|]. intros fuel Hfuel.
  split; [by apply Hrun|].
  unfold process_document.
  rewrite bool_decide_eq_true_2 by done. cbn [negb].
  rewrite bind_print, Hraw, bind_returns. cbv beta zeta.
  rewrite (Hrun fuel Hfuel).
  destruct (strip (sub_ws raw)) as [|c r] eqn:Hclean.
  - assert (chunks = []) as -> by by apply Hiff. cbn. eauto.
  - cbn. eauto.
Qed.

Lemma foldl_nonblank_stripped (l : list str) : forall acc,
  foldl (fun (acc : list str) para =>
           let text := strip para in
           if truthy text then acc ++ [text] else acc) acc l
  = acc ++ nonblank_stripped l.
Proof.
  unfold nonblank_stripped.
  induction l as [|p l IH]; intros acc; [by rewrite app_nil_r|].
  cbn [foldl map]. cbv zeta. rewrite IH.
  destruct (strip p) as [|c r] eqn:Hp; cbn [truthy].
  - by rewrite filter_cons_False by (intros H; by apply H).
  - rewrite filter_cons_True by done. by rewrite <- app_assoc.
Qed.

Lemma nonblank_stripped_nil l :
  nonblank_stripped l = [] <-> Forall all_space l.
Proof.
  unfold nonblank_stripped. induction l as [|p l IH]; [done|].
  cbn [map]. destruct (strip p) as [|c r] eqn:Hp.
  - rewrite filter_cons_False by (intros H; by apply H).
    rewrite IH. apply strip_nil in Hp.
    split; [by constructor | by inversion 1].
  - rewrite filter_cons_True by done.
    split; [done|]. inversion 1 as [|? ? Hsp _]. apply strip_nil in Hsp.
    congruence.
Qed.

Lemma nonblank_stripped_normal l :
  Forall (fun p => strip p = p /\ p <> []) (nonblank_stripped l).
Proof.
  unfold nonblank_stripped. induction l as [|p l IH]; [constructor|].
  cbn [map]. destruct (strip p) as [|c r] eqn:Hp.
  - by rewrite filter_cons_False by (intros H; by apply H).
  - rewrite filter_cons_True by done. constructor; [|done].
    split; [|done]. rewrite <- Hp. apply strip_idemp.
Qed.

(** The normalised join, by any separator, of parts that are not blank is
    empty only without parts. *)
Lemma normalised_join_nil sep parts :
  Forall (fun p => ~ all_space p) parts ->
  strip (sub_ws (join sep parts)) = [] <-> parts = [].
Proof.
  intros Hparts. split; [|by intros ->].
  rewrite strip_nil. unfold sub_ws. rewrite all_space_sub_ws_from.
  intros H%all_space_join. destruct parts as [|p ps]; [done|].
  inversion Hparts; inversion H; subst. contradiction.
Qed.

Lemma trimmed_not_blank parts :
  Forall (fun p => strip p = p /\ p <> []) parts ->
  Forall (fun p => ~ all_space p) parts.
Proof.
  intros H. eapply Forall_impl; [exact H|].
  intros p [Hp Hne]. by apply stripped_not_blank.
Qed.

Lemma extract_docx_run L file_path paras :
  Document L file_path = Ok paras ->
  _extract_docx L file_path
  = ([Call (CallDocument file_path)],
     Returns (join newline (nonblank_stripped paras))).
Proof.
  intros Hdoc. unfold _extract_docx, lib_call. rewrite Hdoc, bind_returns.
  cbv beta zeta. by rewrite foldl_nonblank_stripped.
Qed.

(** X8: [process_document] on a Word file that opens: the text is the
    non-blank paragraphs, trimmed, in document order; the run returns and
    does not raise; and the chunk list is empty exactly when every paragraph
    is blank. *)
Theorem docx_chunks L file_path file_ext paras :
  lower file_ext = lit ".docx" ->
  Document L file_path = Ok paras ->
  let clean := strip (sub_ws (join newline (nonblank_stripped paras))) in
  exists chunks,
    (chunks = [] <-> Forall all_space paras) /\
    forall fuel, (length clean < fuel)%nat ->
      DocumentProcessor._split_into_chunks fuel clean
        DocumentProcessor._CHUNK_SIZE DocumentProcessor._CHUNK_OVERLAP
      = Some chunks
      /\ exists t, process_document L fuel file_path file_ext
                   = (t, Returns chunks).
Proof.
  intros Hext Hdoc clean.
  destruct (process_document_run L file_path file_ext
              [Call (CallDocument file_path)]
              (join newline (nonblank_stripped paras)))
    as (chunks & Hiff & Hrun).
  { rewrite Hext. compute_done. }
  { rewrite Hext. unfold extract_raw.
    rewrite bool_decide_eq_false_2 by discriminate.
    rewrite bool_decide_eq_true_2 by done.
    by apply extract_docx_run. }
  exists chunks. split.
  - rewrite Hiff, normalised_join_nil
      by apply trimmed_not_blank, nonblank_stripped_normal.
    apply nonblank_stripped_nil.
  - intros fuel Hfuel. destruct (Hrun fuel Hfuel) as (Hsplit & t' & Hrun').
    eauto.
Qed.

Lemma docx_chunks_witness :
  exists chunks,
    (chunks = [] <-> Forall all_space [lit "Hello"; lit "  "; lit " world "]) /\
    forall fuel,
      (length (strip (sub_ws (join newline
                 (nonblank_stripped [lit "Hello"; lit "  "; lit " world "]))))
       < fuel)%nat ->
      DocumentProcessor._split_into_chunks fuel
        (strip (sub_ws (join newline
                  (nonblank_stripped [lit "Hello"; lit "  "; lit " world "]))))
        DocumentProcessor._CHUNK_SIZE DocumentProcessor._CHUNK_OVERLAP
      = Some chunks
      /\ exists t, process_document scanned_pdf fuel (lit "/tmp/a.docx") (lit ".DOCX")
                   = (t, Returns chunks).
Proof.
  apply (docx_chunks scanned_pdf (lit "/tmp/a.docx") (lit ".DOCX")
           [lit "Hello"; lit "  "; lit " world "]); reflexivity.
Defined.

Lemma nonblank_stripped_app l1 l2 :
  nonblank_stripped (l1 ++ l2) = nonblank_stripped l1 ++ nonblank_stripped l2.
Proof. unfold nonblank_stripped. by rewrite map_app, filter_app. Qed.

Lemma foldl_slide_parts (slide : list shape) : forall acc,
  foldl (fun (slide_parts : list str) shape =>
           if has_text_frame shape then
             foldl (fun (slide_parts : list str) para =>
                      let text := strip para in
                      if truthy text then slide_parts ++ [text] else slide_parts)
               slide_parts (paragraphs shape)
           else slide_parts) acc slide
  = acc ++ nonblank_stripped (slide_paragraphs slide).
Proof.
  unfold slide_paragraphs.
  induction slide as [|sh slide IH]; intros acc; [by rewrite app_nil_r|].
  cbn [foldl map concat]. rewrite nonblank_stripped_app.
  destruct (has_text_frame sh).
  - rewrite foldl_nonblank_stripped, IH. by rewrite app_assoc.
  - rewrite IH. reflexivity.
Qed.

Lemma foldl_slides_text (prs : list (list shape)) : forall acc,
  foldl (fun (slides_text : list str) slide =>
      let slide_parts := foldl (fun (slide_parts : list str) shape =>
          if has_text_frame shape then
            foldl (fun (slide_parts : list str) para =>
                let text := strip para in
                if truthy text then slide_parts ++ [text] else slide_parts)
              slide_parts (paragraphs shape)
          else slide_parts) [] slide in
      if truthy slide_parts
      then slides_text ++ [join (lit " ") slide_parts]
      else slides_text) acc prs
  = acc ++ slide_texts prs.
Proof.
  unfold slide_texts.
  induction prs as [|slide prs IH]; intros acc; [by rewrite app_nil_r|].
  cbn [foldl map concat]. cbv zeta. rewrite foldl_slide_parts. cbn [app].
  rewrite IH. destruct (truthy _); [by rewrite <- app_assoc | done].
Qed.

Lemma extract_pptx_run L file_path prs :
  Presentation L file_path = Ok prs ->
  _extract_pptx L file_path
  = ([Call (CallPresentation file_path)],
     Returns (join newline (slide_texts prs))).
Proof.
  intros Hprs. unfold _extract_pptx, lib_call. rewrite Hprs, bind_returns.
  cbv beta zeta. by rewrite foldl_slides_text.
Qed.

Lemma elem_of_concat {A} (x : A) (ls : list (list A)) :
  x ∈ concat ls <-> exists l, x ∈ l /\ l ∈ ls.
Proof.
  induction ls as [|l ls IH]; simpl.
  - split; [by intros ?%elem_of_nil | by intros (? & _ & ?%elem_of_nil)].
  - rewrite elem_of_app, IH. split.
    + intros [?|(l' & ? & ?)]; [exists l | exists l']; split; try done;
        apply elem_of_cons; auto.
    + intros (l' & Hx & [->|?]%elem_of_cons); [by left | right; eauto].
Qed.

Lemma join_not_blank sep parts :
  Forall (fun p => strip p = p /\ p <> []) parts -> parts <> [] ->
  ~ all_space (join sep parts).
Proof.
  intros Hparts Hne Hsp%all_space_join.
  destruct parts as [|p parts]; [done|].
  inversion Hparts as [|? ? [Hp Hpne] _]; inversion Hsp as [|? ? Hpsp _]; subst.
  by apply (stripped_not_blank p).
Qed.

Lemma slide_texts_not_blank prs :
  Forall (fun p => ~ all_space p) (slide_texts prs).
Proof.
  unfold slide_texts. induction prs as [|slide prs IH]; [constructor|].
  cbn [map concat]. apply Forall_app. split; [|exact IH]. cbv zeta.
  destruct (truthy _) eqn:Ht; constructor; [|constructor].
  apply join_not_blank; [apply nonblank_stripped_normal | by apply truthy_true].
Qed.

Lemma slide_texts_nil prs :
  slide_texts prs = []
  <-> Forall (fun slide => Forall all_space (slide_paragraphs slide)) prs.
Proof.
  unfold slide_texts. induction prs as [|slide prs IH]; [done|].
  cbn [map concat]. cbv zeta.
  destruct (truthy _) eqn:Ht.
  - split; [done|]. inversion 1 as [|? ? Hsl _].
    apply nonblank_stripped_nil in Hsl. apply truthy_true in Ht. done.
  - cbn [app]. rewrite IH. apply truthy_false, nonblank_stripped_nil in Ht.
    split; [by constructor | by inversion 1].
Qed.

(** X9: [process_document] on a PowerPoint file that opens: shapes without a
    text frame are ignored, a slide without text contributes nothing, the
    text of a slide is its non-blank paragraphs, trimmed and joined by
    spaces, and the slides are joined by newlines; the run returns, and the
    chunk list is empty exactly when every paragraph of every text frame is
    blank. *)
Theorem pptx_chunks L file_path file_ext prs :
  lower file_ext = lit ".pptx" ->
  Presentation L file_path = Ok prs ->
  let clean := strip (sub_ws (join newline (slide_texts prs))) in
  exists chunks,
    (chunks = [] <->
       forall slide sh para,
         slide ∈ prs -> sh ∈ slide -> has_text_frame sh = true ->
         para ∈ paragraphs sh -> all_space para) /\
    forall fuel, (length clean < fuel)%nat ->
      DocumentProcessor._split_into_chunks fuel clean
        DocumentProcessor._CHUNK_SIZE DocumentProcessor._CHUNK_OVERLAP
      = Some chunks
      /\ exists t, process_document L fuel file_path file_ext
                   = (t, Returns chunks).
Proof.
  intros Hext Hprs clean.
  destruct (process_document_run L file_path file_ext
              [Call (CallPresentation file_path)]
              (join newline (slide_texts prs)))
    as (chunks & Hiff & Hrun).
  { rewrite Hext. compute_done. }
  { rewrite Hext. unfold extract_raw.
    rewrite !bool_decide_eq_false_2 by discriminate.
    rewrite bool_decide_eq_true_2 by done.
    by apply extract_pptx_run. }
  exists chunks. split.
  - rewrite Hiff, normalised_join_nil by apply slide_texts_not_blank.
    rewrite slide_texts_nil, Forall_forall. unfold slide_paragraphs.
    split.
    + intros H slide sh para Hslide Hsh Hframe Hpara.
      specialize (H slide Hslide). rewrite Forall_forall in H. apply H.
      apply elem_of_concat. exists (paragraphs sh). split; [done|].
      change (map ?f ?l) with (f <$> l).
      apply list_elem_of_fmap. exists sh. by rewrite Hframe.
    + intros H slide Hslide. apply Forall_forall. intros para Hpara.
      apply elem_of_concat in Hpara as (ps & Hpara & Hps).
      change (map ?f ?l) with (f <$> l) in Hps.
      apply list_elem_of_fmap in Hps as (sh & -> & Hsh).
      destruct (has_text_frame sh) eqn:Hframe; [eauto|].
      by apply elem_of_nil in Hpara.
  - intros fuel Hfuel. destruct (Hrun fuel Hfuel) as (Hsplit & t' & Hrun').
    eauto.
Qed.

Lemma pptx_chunks_witness :
  exists chunks,
    (chunks = [] <->
       forall slide sh para,
         slide ∈ [ [ {| has_text_frame := true;
                        paragraphs := [lit "Title"; lit " "] |};
                     {| has_text_frame := false; paragraphs := [lit "hidden"] |};
                     {| has_text_frame := true; paragraphs := [lit " Subtitle"] |} ];
                   [ {| has_text_frame := true; paragraphs := [lit " "] |} ];
                   [ {| has_text_frame := true; paragraphs := [lit "Q1 results "] |} ] ] ->
         sh ∈ slide -> has_text_frame sh = true ->
         para ∈ paragraphs sh -> all_space para) /\
    forall fuel, (length (lit "Title Subtitle Q1 results") < fuel)%nat ->
      DocumentProcessor._split_into_chunks fuel (lit "Title Subtitle Q1 results")
        DocumentProcessor._CHUNK_SIZE DocumentProcessor._CHUNK_OVERLAP
      = Some chunks
      /\ exists t, process_document office_files fuel (lit "/tmp/a.pptx") (lit ".PPTX")
                   = (t, Returns chunks).
Proof.
  apply (pptx_chunks office_files (lit "/tmp/a.pptx") (lit ".PPTX")); reflexivity.
Defined.

(** ** [_extract_pdf] of document_processor.py *)

Lemma bind_assoc {A B C} (m : M A) (k1 : A -> M B) (k2 : B -> M C) :
  ((m ≫= k1) ≫= k2) = (m ≫= (fun x => k1 x ≫= k2)).
Proof.
  destruct m as [t [a|e|]]; [|done..].
  rewrite !bind_returns. destruct (k1 a) as [t1 [b|e|]]; cbn [fst snd];
    rewrite ?bind_returns; cbn [fst snd]; [|done..].
  by rewrite app_assoc.
Qed.

Lemma bind_call_ok {A B} c (r : result A) a (k : A -> M B) :
  r = Ok a -> (lib_call c r ≫= k) = (Call c :: (k a).1, (k a).2).
Proof. intros ->. unfold lib_call. by rewrite bind_returns. Qed.

Lemma bind_call_err {A B} c (r : result A) e (k : A -> M B) :
  r = Err e -> (lib_call c r ≫= k) = ([Call c], Raises e).
Proof. by intros ->. Qed.

Lemma extract_pdf_loop_ok (reader : list pdf_page) :
  forall texts k (acc : list str),
  Forall2 (fun page o => extract_text page = Ok o) reader texts ->
  for_each (zip (seq k (length reader)) reader)
    (fun (pages : list str) '(i, page) =>
       text ← lib_call (CallExtractText i) (extract_text page);
       match text with
       | Some text => mret (if truthy text then pages ++ [text] else pages)
       | None => mret pages
       end) acc
  = (map (fun i => Call (CallExtractText i)) (seq k (length reader)),
     Returns (acc ++ kept_page_texts texts)).
Proof.
  induction reader as [|page reader IH]; intros texts k acc Hok.
  - inversion Hok; subst. cbn. by rewrite app_nil_r.
  - inversion Hok as [|? o ? texts' Hpage Hrest]; subst.
    cbn [length seq zip zip_with for_each map].
    rewrite bind_assoc, (bind_call_ok _ _ o) by done.
    unfold kept_page_texts. cbn [omap list_omap id].
    destruct o as [[|c r]|]; cbn [truthy];
      rewrite bind_mret, (IH texts') by done; cbn [fst snd];
      unfold kept_page_texts.
    + by rewrite filter_cons_False by (intros H; by apply H).
    + rewrite filter_cons_True by done. by rewrite <- app_assoc.
    + done.
Qed.

Lemma extract_pdf_loop_fail (pre : list pdf_page) page post e :
  forall texts k (acc : list str),
  Forall2 (fun page o => extract_text page = Ok o) pre texts ->
  extract_text page = Err e ->
  for_each (zip (seq k (length (pre ++ page :: post))) (pre ++ page :: post))
    (fun (pages : list str) '(i, page) =>
       text ← lib_call (CallExtractText i) (extract_text page);
       match text with
       | Some text => mret (if truthy text then pages ++ [text] else pages)
       | None => mret pages
       end) acc
  = (map (fun i => Call (CallExtractText i)) (seq k (S (length pre))),
     Raises e).
Proof.
  induction pre as [|p pre IH]; intros texts k acc Hok Hfail.
  - cbn [app length seq zip zip_with for_each map].
    by rewrite bind_assoc, (bind_call_err _ _ e).
  - inversion Hok as [|? o ? texts' Hp Hrest]; subst.
    cbn [app length seq zip zip_with for_each map].
    rewrite bind_assoc, (bind_call_ok _ _ o) by done.
    destruct o as [text|]; rewrite bind_mret;
      rewrite (IH texts') by done; reflexivity.
Qed.

Lemma all_space_join_intro sep parts :
  all_space sep -> Forall all_space parts -> all_space (join sep parts).
Proof.
  intros Hsep. induction 1 as [|p [|q l] Hp Hl IH].
  - constructor.
  - exact Hp.
  - change (all_space (p ++ sep ++ join sep (q :: l))).
    unfold all_space. rewrite !Forall_app. split; [done|]. split; [done|].
    exact IH.
Qed.

(** X10: [process_document] on a PDF reads the text layer only, page by page.
    When every page can be read, the run returns and the chunk list is
    empty exactly when every page text is [None] or blank; there is no OCR
    for such a scanned PDF.  When a page cannot be read, the exception of
    the first such page leaves [process_document], and the pages after it
    are not read. *)
Theorem pdf_text_layer_only L file_path file_ext reader :
  lower file_ext = lit ".pdf" ->
  PdfReader L file_path = Ok reader ->
  (forall texts,
     Forall2 (fun page o => extract_text page = Ok o) reader texts ->
     let clean := strip (sub_ws (join newline (kept_page_texts texts))) in
     exists chunks,
       (chunks = [] <-> Forall blank_page_text texts) /\
       forall fuel, (length clean < fuel)%nat ->
         DocumentProcessor._split_into_chunks fuel clean
           DocumentProcessor._CHUNK_SIZE DocumentProcessor._CHUNK_OVERLAP
         = Some chunks
         /\ exists t, process_document L fuel file_path file_ext
                      = (t, Returns chunks))
  /\ (forall pre page post texts e fuel,
        reader = pre ++ page :: post ->
        Forall2 (fun page o => extract_text page = Ok o) pre texts ->
        extract_text page = Err e ->
        process_document L fuel file_path file_ext
        = (Print (DocExtracting file_path (lit ".pdf"))
           :: Call (CallPdfReader file_path)
           :: map (fun i => Call (CallExtractText i)) (seq 0 (S (length pre))),
           Raises e)).
Proof.
  intros Hext Hreader.
  assert (lower file_ext ∈ _SUPPORTED_EXTENSIONS) as Hsup
    by (rewrite Hext; compute_done).
  split.
  - intros texts Hok clean.
    destruct (process_document_run L file_path file_ext
                (Call (CallPdfReader file_path)
                 :: map (fun i => Call (CallExtractText i))
                      (seq 0 (length reader)))
                (join newline (kept_page_texts texts)) Hsup)
      as (chunks & Hiff & Hrun).
    { rewrite Hext. unfold extract_raw.
      rewrite bool_decide_eq_true_2 by done.
      unfold _extract_pdf. rewrite (bind_call_ok _ _ reader) by done.
      unfold enumerate. rewrite (extract_pdf_loop_ok reader texts) by done.
      rewrite bind_returns. cbn. by rewrite app_nil_r. }
    exists chunks. split.
    + rewrite Hiff. rewrite strip_nil. unfold sub_ws.
      rewrite all_space_sub_ws_from. unfold kept_page_texts. split.
      * intros Hsp%all_space_join. clear -Hsp.
        induction texts as [|[s|] texts IH]; [constructor| |].
        -- cbn [omap list_omap id] in Hsp. destruct s as [|c r].
           ++ rewrite filter_cons_False in Hsp by (intros H; by apply H).
              constructor; [constructor | by apply IH].
           ++ rewrite filter_cons_True in Hsp by done.
              inversion Hsp; subst. constructor; [done | by apply IH].
        -- constructor; [done | by apply IH].
      * intros Hblank.
        assert (Forall all_space (filter (fun s : str => s <> []) (omap id texts)))
          as Hall.
        { apply Forall_forall. intros s [_ Hin]%list_elem_of_filter.
          apply list_elem_of_omap in Hin as (o & Ho & Hs). simpl in Hs. subst o.
          rewrite Forall_forall in Hblank. by apply (Hblank (Some s)). }
        apply all_space_join_intro; [repeat constructor | exact Hall].
    + intros fuel Hfuel. destruct (Hrun fuel Hfuel) as (Hsplit & t' & Hrun').
      eauto.
  - intros pre page post texts e fuel -> Hok Hfail.
    unfold process_document.
    rewrite bool_decide_eq_true_2 by done. cbn [negb].
    rewrite bind_print. rewrite Hext. unfold extract_raw.
    rewrite bool_decide_eq_true_2 by done.
    unfold _extract_pdf. rewrite (bind_call_ok _ _ (pre ++ page :: post)) by done.
    unfold enumerate. rewrite (extract_pdf_loop_fail pre page post e texts) by done.
    reflexivity.
Qed.

Lemma pdf_text_layer_only_witness :
  (exists chunks,
     (chunks = [] <->
        Forall blank_page_text [Some (lit "Page one"); None; Some (lit "  ")]) /\
     forall fuel,
       (length (strip (sub_ws (join newline
                  (kept_page_texts [Some (lit "Page one"); None; Some (lit "  ")]))))
        < fuel)%nat ->
       DocumentProcessor._split_into_chunks fuel
         (strip (sub_ws (join newline
                   (kept_page_texts [Some (lit "Page one"); None; Some (lit "  ")]))))
         DocumentProcessor._CHUNK_SIZE DocumentProcessor._CHUNK_OVERLAP
       = Some chunks
       /\ exists t, process_document office_files fuel (lit "/tmp/a.pdf") (lit ".pdf")
                    = (t, Returns chunks))
  /\ process_document unreadable_second_page 1 (lit "/tmp/a.pdf") (lit ".PDF")
     = ([Print (DocExtracting (lit "/tmp/a.pdf") (lit ".pdf"));
         Call (CallPdfReader (lit "/tmp/a.pdf"));
         Call (CallExtractText 0); Call (CallExtractText 1)],
        Raises os_error).
Proof.
  split.
  - eapply (proj1 (pdf_text_layer_only office_files (lit "/tmp/a.pdf") (lit ".pdf")
                     _ eq_refl eq_refl)).
    repeat constructor.
  - eapply (proj2 (pdf_text_layer_only unreadable_second_page (lit "/tmp/a.pdf")
                     (lit ".PDF") _ eq_refl eq_refl)
              [_] _ [_] [Some (lit "Page one")]);
      [reflexivity | repeat constructor | reflexivity].
Defined.

(** ** Stage 2 of pdf_processor.py: full-page OCR *)

Lemma ocr_loop_fail (pre : list (result str)) e post :
  forall k (acc : list str),
  Forall (fun r => exists text, r = Ok text) pre ->
  exists t,
    for_each (zip (seq k (length (pre ++ Err e :: post))) (pre ++ Err e :: post))
      (fun (texts : list str) '(i, page_img) =>
         text ← lib_call (CallPageOcr i) page_img;
         if truthy (strip text) then
           print (OcrPage (i + 1)%nat (len (strip text)));;
           mret (texts ++ [strip text])
         else
           print (OcrPageNoText (i + 1)%nat);; mret texts) acc
    = (t, Raises e)
    /\ forall i, Call (CallPageOcr i) ∈ t -> (k <= i <= k + length pre)%nat.
Proof.
  induction pre as [|p pre IH]; intros k acc Hok.
  - cbn [app length seq zip zip_with for_each].
    rewrite bind_assoc, (bind_call_err _ _ e) by done.
    eexists. split; [reflexivity|].
    intros i [= ->]%list_elem_of_singleton. simpl. lia.
  - inversion Hok as [|? ? [text ->] Hrest]; subst.
    cbn [app length seq zip zip_with for_each].
    rewrite bind_assoc, (bind_call_ok _ _ text) by done. cbv zeta.
    destruct (IH (S k) (acc ++ [strip text]) Hrest) as (ta & Ha & Hia).
    destruct (IH (S k) acc Hrest) as (tb & Hb & Hib).
    cbn [length] in Ha, Hb.
    destruct (truthy (strip text)); rewrite bind_assoc, bind_print, bind_mret.
    + rewrite Ha. cbn [fst snd]. eexists. split; [reflexivity|].
      intros i [[= ->]|[[=]|Hin]%elem_of_cons]%elem_of_cons; [simpl; lia|].
      specialize (Hia i Hin). simpl. lia.
    + rewrite Hb. cbn [fst snd]. eexists. split; [reflexivity|].
      intros i [[= ->]|[[=]|Hin]%elem_of_cons]%elem_of_cons; [simpl; lia|].
      specialize (Hib i Hin). simpl. lia.
Qed.

Lemma import_pdf2image_ok L :
  import_pdf2image L = Ok tt ->
  _import_pdf2image L = ([Call CallImportPdf2image], Returns tt).
Proof. intros H. unfold _import_pdf2image. by rewrite H. Qed.

(** X11: full-page OCR has no per-page isolation: when the OCR of one page
    raises, whatever the exception, the stage raises that exception, the
    pages after it are not read, and the text of the pages before it is
    lost.  When the exception is a [RuntimeError], [process_pdf] logs the
    skip and returns the chunks of the native text and of the embedded
    images only. *)
Theorem page_ocr_failure_loses_stage L file_path pre e post :
  import_pdf2image L = Ok tt ->
  convert_from_path L file_path = Ok (pre ++ Err e :: post) ->
  Forall (fun r => exists text, r = Ok text) pre ->
  (exists t2,
     _extract_text_ocr L file_path = (t2, Raises e)
     /\ forall i, Call (CallPageOcr i) ∈ t2 -> (i <= length pre)%nat)
  /\ (forall reader t1 native,
        PdfReader L file_path = Ok reader ->
        _extract_text_native reader = (t1, Returns native) ->
        ordinary_images reader ->
        issubclass (cls e) RuntimeError = true ->
        let parts :=
          nonempty_parts [native;
                          strip (sub_ws (join newline (image_texts reader)))] in
        let combined := strip (sub_ws (join (lit " ") parts)) in
        exists chunks,
          forall fuel, (length combined < fuel)%nat ->
            PdfProcessor._split_into_chunks fuel combined
              PdfProcessor._CHUNK_SIZE PdfProcessor._CHUNK_OVERLAP = Some chunks
            /\ exists t, process_pdf L fuel file_path = (t, Returns chunks)
                         /\ Print (Stage2Skipped e) ∈ t).
Proof.
  intros Himport Hconv Hpre.
  assert (exists t2,
            _extract_text_ocr L file_path = (t2, Raises e)
            /\ forall i, Call (CallPageOcr i) ∈ t2 -> (i <= length pre)%nat)
    as (t2 & Hocr & Hcalls).
  { unfold _extract_text_ocr, enumerate.
    rewrite (import_pdf2image_ok L Himport).
    rewrite bind_returns, bind_print. cbv beta. cbn [fst snd].
    rewrite (bind_call_ok _ _ (pre ++ Err e :: post)) by done.
    destruct (ocr_loop_fail pre e post 0 [] Hpre) as (t & Hloop & Hin).
    cbv beta zeta. rewrite Hloop, bind_raises. cbn [fst snd].
    eexists. split; [reflexivity|].
    intros i Hi. cbn [app] in Hi.
    apply elem_of_cons in Hi as [[=]|Hi].
    apply elem_of_cons in Hi as [[=]|Hi].
    apply elem_of_cons in Hi as [[=]|Hi].
    specialize (Hin i Hi). lia. }
  split; [eauto|].
  intros reader t1 native Hreader Hnative Hord He parts combined.
  destruct (stage_parts_run L reader file_path t1 native Hnative) as
    (t & Hparts & Hlog2 & _); [|done|].
  { intros t' e' Heq. rewrite Hocr in Heq. by injection Heq as _ <-. }
  rewrite Hocr in Hparts. cbn [contribution] in Hparts.
  rewrite nonempty_parts_cons in Hparts.
  change (nonempty_parts ([] :: ?l)) with (nonempty_parts l) in Hparts.
  rewrite <- nonempty_parts_cons in Hparts. fold parts in Hparts.
  destruct (process_pdf_run L file_path reader t parts Hreader Hparts)
    as (chunks & _ & Hrun).
  exists chunks. intros fuel Hfuel.
  destruct (Hrun fuel Hfuel) as (Hsplit & t' & Hrun').
  split; [exact Hsplit|]. eexists. split; [exact Hrun'|].
  apply elem_of_cons. right. apply elem_of_app. left. by eapply Hlog2.
Qed.

(** X11 on two files: the OCR engine fails with a [RuntimeError] on the
    second page of the office PDF, whose first page is lost to the stage
    while [process_pdf] returns; and it fails with an [OSError] on the only
    page of a scan, which the stage raises as well. *)
Lemma page_ocr_failure_loses_stage_witness :
  ((exists t2,
      _extract_text_ocr office_files (lit "/tmp/a.pdf")
      = (t2, Raises tesseract_error)
      /\ forall i, Call (CallPageOcr i) ∈ t2 -> (i <= 1)%nat)
   /\ exists chunks,
        forall fuel, (length (lit "Page one") < fuel)%nat ->
          PdfProcessor._split_into_chunks fuel (lit "Page one")
            PdfProcessor._CHUNK_SIZE PdfProcessor._CHUNK_OVERLAP = Some chunks
          /\ exists t, process_pdf office_files fuel (lit "/tmp/a.pdf")
                       = (t, Returns chunks)
                       /\ Print (Stage2Skipped tesseract_error) ∈ t)
  /\ exists t2,
       _extract_text_ocr unreadable_scan (lit "/tmp/a.pdf")
       = (t2, Raises os_error)
       /\ forall i, Call (CallPageOcr i) ∈ t2 -> (i <= 0)%nat.
Proof.
  split.
  - destruct (page_ocr_failure_loses_stage office_files (lit "/tmp/a.pdf")
                [Ok (lit "Page one")] tesseract_error [Ok (lit "Page three")])
      as [Hstage Hpdf].
    + reflexivity.
    + reflexivity.
    + repeat constructor. by eexists.
    + split; [exact Hstage|].
      apply (Hpdf office_pages
               [Call (CallExtractText 0); Call (CallExtractText 1);
                Call (CallExtractText 2)] (lit "Page one")).
      * reflexivity.
      * vm_compute. reflexivity.
      * repeat constructor.
      * reflexivity.
  - apply (page_ocr_failure_loses_stage unreadable_scan (lit "/tmp/a.pdf")
             [] os_error []).
    + reflexivity.
    + reflexivity.
    + constructor.
Defined.

(** X12: when pdf2image cannot be imported, stage 2 turns the [ImportError] into
    the [RuntimeError] "pdf2image is not installed" right after the failed
    import, without printing and without calling [convert_from_path];
    [process_pdf] logs the skip and returns the chunks of the native text
    and of the embedded images. *)
Theorem missing_pdf2image_skips_stage L file_path reader t1 native e :
  PdfReader L file_path = Ok reader ->
  _extract_text_native reader = (t1, Returns native) ->
  ordinary_images reader ->
  import_pdf2image L = Err e -> cls e = ImportError ->
  let skipped :=
    {| cls := RuntimeError;
       msg := lit "pdf2image is not installed. Run: pip install pdf2image" |} in
  let parts :=
    nonempty_parts [native;
                    strip (sub_ws (join newline (image_texts reader)))] in
  let combined := strip (sub_ws (join (lit " ") parts)) in
  _extract_text_ocr L file_path = ([Call CallImportPdf2image], Raises skipped)
  /\ exists chunks,
       forall fuel, (length combined < fuel)%nat ->
         PdfProcessor._split_into_chunks fuel combined
           PdfProcessor._CHUNK_SIZE PdfProcessor._CHUNK_OVERLAP = Some chunks
         /\ exists t, process_pdf L fuel file_path = (t, Returns chunks)
                      /\ Print (Stage2Skipped skipped) ∈ t.
Proof.
  intros Hreader Hnative Hord Himport Hcls skipped parts combined.
  assert (_extract_text_ocr L file_path
          = ([Call CallImportPdf2image], Raises skipped)) as Hocr.
  { unfold _extract_text_ocr, _import_pdf2image, lib_call, try_except.
    rewrite Himport, Hcls. reflexivity. }
  split; [exact Hocr|].
  destruct (stage_parts_run L reader file_path t1 native Hnative) as
    (t & Hparts & Hlog2 & _); [|done|].
  { intros t' e' Heq. rewrite Hocr in Heq. by injection Heq as _ <-. }
  rewrite Hocr in Hparts. cbn [contribution] in Hparts.
  rewrite nonempty_parts_cons in Hparts.
  change (nonempty_parts ([] :: ?l)) with (nonempty_parts l) in Hparts.
  rewrite <- nonempty_parts_cons in Hparts. fold parts in Hparts.
  destruct (process_pdf_run L file_path reader t parts Hreader Hparts)
    as (chunks & _ & Hrun).
  exists chunks. intros fuel Hfuel.
  destruct (Hrun fuel Hfuel) as (Hsplit & t' & Hrun').
  split; [exact Hsplit|]. eexists. split; [exact Hrun'|].
  apply elem_of_cons. right. apply elem_of_app. left. by eapply Hlog2.
Qed.

Lemma missing_pdf2image_skips_stage_witness :
  _extract_text_ocr scanned_pdf_no_pdf2image (lit "/tmp/a.pdf")
  = ([Call CallImportPdf2image],
     Raises {| cls := RuntimeError;
               msg := lit "pdf2image is not installed. Run: pip install pdf2image" |})
  /\ exists chunks,
       forall fuel, (length (lit "Fig. 1") < fuel)%nat ->
         PdfProcessor._split_into_chunks fuel (lit "Fig. 1")
           PdfProcessor._CHUNK_SIZE PdfProcessor._CHUNK_OVERLAP = Some chunks
         /\ exists t, process_pdf scanned_pdf_no_pdf2image fuel (lit "/tmp/a.pdf")
                      = (t, Returns chunks)
                      /\ Print (Stage2Skipped
                                  {| cls := RuntimeError;
                                     msg := lit "pdf2image is not installed. Run: pip install pdf2image" |})
                         ∈ t.
Proof.
  eapply (missing_pdf2image_skips_stage scanned_pdf_no_pdf2image
            (lit "/tmp/a.pdf") [scanned_page] _ []).
  - reflexivity.
  - vm_compute. reflexivity.
  - repeat constructor.
  - reflexivity.
  - reflexivity.
Defined.

(** ** The collection under [store_document] *)

Lemma filter_ext_elem {A} (P Q : A -> Prop)
    `{!forall x, Decision (P x)} `{!forall x, Decision (Q x)} (l : list A) :
  (forall x, x ∈ l -> P x <-> Q x) -> filter P l = filter Q l.
Proof.
  induction l as [|x l IH]; intros Hext; [done|].
  assert (filter P l = filter Q l) as IH'
    by (apply IH; intros y Hy; apply Hext, elem_of_cons; by right).
  destruct (decide (P x)) as [HP|HP].
  - rewrite !filter_cons_True; [by rewrite IH' | | done].
    apply Hext; [apply elem_of_cons; by left | done].
  - rewrite !filter_cons_False; [done | | done].
    intros HQ. apply HP, Hext; [apply elem_of_cons; by left | done].
Qed.

Lemma filter_all {A} (P : A -> Prop) `{!forall x, Decision (P x)} (l : list A) :
  (forall x, x ∈ l -> P x) -> filter P l = l.
Proof.
  induction l as [|x l IH]; intros Hall; [done|].
  rewrite filter_cons_True by (apply Hall, elem_of_cons; by left).
  f_equal. apply IH. intros y Hy. apply Hall, elem_of_cons. by right.
Qed.

Section StoreMore.
Context {V : Type}.
Implicit Types (c : gmap str (record V)) (row : str * record V).

Lemma add_rows_other rows : forall c k,
  k ∉ rows.*1 -> foldl add_row c rows !! k = c !! k.
Proof.
  induction rows as [|row rows IH]; intros c k Hk; [done|].
  cbn [fmap list_fmap] in Hk. apply not_elem_of_cons in Hk as [Hne Hk].
  cbn [foldl]. rewrite IH by done. unfold add_row.
  destruct (c !! row.1); [done|]. by rewrite lookup_insert_ne.
Qed.

Lemma add_rows_origin rows : forall c k r,
  foldl add_row c rows !! k = Some r -> c !! k = Some r \/ (k, r) ∈ rows.
Proof.
  induction rows as [|row rows IH]; intros c k r Hk; [by left|].
  cbn [foldl] in Hk.
  apply IH in Hk as [Hk|Hk]; [|right; apply elem_of_cons; by right].
  unfold add_row in Hk. destruct (c !! row.1) eqn:Hrow; [by left|].
  destruct (decide (row.1 = k)) as [<-|Hne].
  - rewrite lookup_insert_eq in Hk. injection Hk as <-.
    right. destruct row. apply elem_of_cons. by left.
  - rewrite lookup_insert_ne in Hk by done. by left.
Qed.

Lemma add_rows_size rows : forall c,
  NoDup rows.*1 ->
  size (foldl add_row c rows)
  = (size c + length (filter (fun k => k ∉ dom c) rows.*1))%nat.
Proof.
  induction rows as [|row rows IH]; intros c Hnd; [simpl; lia|].
  cbn [fmap list_fmap] in Hnd. apply NoDup_cons in Hnd as [Hnotin Hnd].
  cbn [foldl fmap list_fmap]. rewrite IH by done. unfold add_row.
  destruct (c !! row.1) eqn:Hrow.
  - rewrite filter_cons_False; [done|].
    intros H. apply H, elem_of_dom. eauto.
  - rewrite filter_cons_True by (by apply not_elem_of_dom).
    rewrite map_size_insert_None by done. cbn [length].
    assert (filter (fun k => k ∉ dom (<[row.1:=row.2]> c)) rows.*1
            = filter (fun k => k ∉ dom c) rows.*1) as ->; [|lia].
    apply filter_ext_elem. intros k Hk. rewrite dom_insert_L.
    rewrite not_elem_of_union, not_elem_of_singleton.
    split; [by intros [_ ?]|]. intros Hkc. split; [|done].
    intros ->. done.
Qed.

Lemma rows_lookup_inv ids (embeddings : list V) documents metadatas i k r :
  rows ids embeddings documents metadatas !! i = Some (k, r) ->
  ids !! i = Some k
  /\ embeddings !! i = Some (rec_embedding r)
  /\ documents !! i = Some (rec_document r)
  /\ metadatas !! i = Some (rec_metadata r).
Proof.
  unfold rows. intros H.
  apply lookup_zip_with_Some in H as (k' & r' & [= -> ->] & Hid & H).
  apply lookup_zip_with_Some in H as (e & dm & -> & He & H).
  apply lookup_zip_with_Some in H as (d & m & -> & Hd & Hm).
  done.
Qed.

(** What [store_document] returns when there is one embedding per chunk,
    for an empty batch too. *)
Lemma store_document_returns c now document_id chunks (embeddings : list V) :
  length embeddings = length chunks ->
  let ids := map (chunk_id document_id) (seq 0 (length chunks)) in
  let metadatas :=
    imap (fun i chunk => {| VectorStore.document_id := document_id;
                            chunk_text := chunk;
                            chunk_index := i;
                            timestamp := now |}) chunks in
  exists t,
    store_document c now document_id chunks embeddings
    = (t, Returns (foldl add_row c (rows ids embeddings chunks metadatas)))
    /\ (rows ids embeddings chunks metadatas).*1 = ids.
Proof.
  intros Hlen ids metadatas.
  assert ((rows ids embeddings chunks metadatas).*1 = ids) as Hids.
  { apply rows_ids; subst ids metadatas;
      by rewrite ?length_map, ?length_seq, ?length_imap. }
  destruct chunks as [|chunk chunks].
  - exists [Print StoreSkipping]. split; [|done].
    destruct embeddings; [reflexivity | discriminate].
  - eexists. split; [|done]. by rewrite store_document_run.
Qed.

End StoreMore.

(** The effect of [store_document] on the collection. *)
Lemma store_document_effect {V} (c : collection V) now document_id chunks
    (embeddings : list V) :
  length embeddings = length chunks ->
  exists t c',
    store_document c now document_id chunks embeddings = (t, Returns c')
    /\ (forall k r, c !! k = Some r -> c' !! k = Some r)
    /\ (forall k, (forall i, (i < length chunks)%nat ->
                     k <> chunk_id document_id i) ->
          c' !! k = c !! k)
    /\ (forall k r, c' !! k = Some r -> c !! k = None ->
          exists i, (i < length chunks)%nat /\ k = chunk_id document_id i
                    /\ VectorStore.document_id (rec_metadata r) = document_id
                    /\ chunk_index (rec_metadata r) = i
                    /\ timestamp (rec_metadata r) = now
                    /\ chunks !! i = Some (rec_document r)
                    /\ chunk_text (rec_metadata r) = rec_document r
                    /\ embeddings !! i = Some (rec_embedding r)).
Proof.
  intros Hlen.
  destruct (store_document_returns c now document_id chunks embeddings Hlen)
    as (t & Hrun & Hids).
  eexists _, _. split; [exact Hrun|]. split; [|split].
  - intros k r Hk. by apply add_rows_keep.
  - intros k Hk. apply add_rows_other. rewrite Hids.
    change (map ?f ?l) with (f <$> l).
    intros (i & -> & Hi)%list_elem_of_fmap. apply elem_of_seq in Hi.
    apply (Hk i); [lia | done].
  - intros k r Hk Hnone. apply add_rows_origin in Hk as [Hk|Hk]; [congruence|].
    apply list_elem_of_lookup in Hk as [i Hi].
    apply rows_lookup_inv in Hi as (Hid & He & Hd & Hm).
    change (map ?f ?l) with (f <$> l) in Hid.
    rewrite list_lookup_fmap in Hid.
    destruct (seq 0 (length chunks) !! i) as [j|] eqn:Hj; [|done].
    apply lookup_seq in Hj as [-> Hlt]. injection Hid as <-.
    rewrite list_lookup_imap, Hd in Hm. injection Hm as Hm.
    exists i. rewrite <- Hm. cbn. done.
Qed.

(** X13: [store_document] only adds: with one embedding per chunk it returns, and
    every record the collection held is still there unchanged, every id
    that is not an id of this document's chunks is left as it was, and
    every new record sits under a chunk id of this document. *)
Theorem store_only_adds {V} (c : collection V) now document_id chunks
    (embeddings : list V) :
  length embeddings = length chunks ->
  exists t c',
    store_document c now document_id chunks embeddings = (t, Returns c')
    /\ (forall k r, c !! k = Some r -> c' !! k = Some r)
    /\ (forall k, (forall i, (i < length chunks)%nat ->
                     k <> chunk_id document_id i) ->
          c' !! k = c !! k)
    /\ (forall k r, c' !! k = Some r -> c !! k = None ->
          exists i, (i < length chunks)%nat /\ k = chunk_id document_id i
                    /\ VectorStore.document_id (rec_metadata r) = document_id
                    /\ chunk_index (rec_metadata r) = i
                    /\ timestamp (rec_metadata r) = now
                    /\ chunks !! i = Some (rec_document r)
                    /\ chunk_text (rec_metadata r) = rec_document r
                    /\ embeddings !! i = Some (rec_embedding r)).
Proof. apply store_document_effect. Qed.

Lemma store_only_adds_witness :
  exists t c',
    store_document (V := list Z) ∅ (lit "2026-01-01T00:00:00+00:00")
      (lit "doc") [lit "alpha"; lit "beta"] [[1; 2]; [3; 4]] = (t, Returns c')
    /\ (forall k r, (∅ : collection (list Z)) !! k = Some r -> c' !! k = Some r)
    /\ (forall k, (forall i, (i < length [lit "alpha"; lit "beta"])%nat ->
                     k <> chunk_id (lit "doc") i) ->
          c' !! k = (∅ : collection (list Z)) !! k)
    /\ (forall k r, c' !! k = Some r -> (∅ : collection (list Z)) !! k = None ->
          exists i, (i < length [lit "alpha"; lit "beta"])%nat
                    /\ k = chunk_id (lit "doc") i
                    /\ VectorStore.document_id (rec_metadata r) = lit "doc"
                    /\ chunk_index (rec_metadata r) = i
                    /\ timestamp (rec_metadata r) = lit "2026-01-01T00:00:00+00:00"
                    /\ [lit "alpha"; lit "beta"] !! i = Some (rec_document r)
                    /\ chunk_text (rec_metadata r) = rec_document r
                    /\ [[1; 2]; [3; 4]] !! i = Some (rec_embedding r)).
Proof.
  apply (store_only_adds (V := list Z) ∅ (lit "2026-01-01T00:00:00+00:00")
           (lit "doc") [lit "alpha"; lit "beta"] [[1; 2]; [3; 4]]).
  reflexivity.
Defined.

(** X14: the record count after [store_document] is the count before plus the
    number of chunk ids the collection did not hold yet: it grows by
    [len(chunks)] for a document that is new to the collection and never by
    more. *)
Theorem store_count {V} (c : collection V) now document_id chunks
    (embeddings : list V) :
  length embeddings = length chunks ->
  let ids := map (chunk_id document_id) (seq 0 (length chunks)) in
  exists t c',
    store_document c now document_id chunks embeddings = (t, Returns c')
    /\ count c' = count c + len (filter (fun k => k ∉ dom c) ids)
    /\ count c <= count c' <= count c + len chunks
    /\ ((forall i, (i < length chunks)%nat -> c !! chunk_id document_id i = None) ->
        count c' = count c + len chunks).
Proof.
  intros Hlen ids.
  destruct (store_document_returns c now document_id chunks embeddings Hlen)
    as (t & Hrun & Hids). fold ids in Hrun, Hids.
  eexists _, _. split; [exact Hrun|].
  assert (count (foldl add_row c (rows ids embeddings chunks
            (imap (fun i chunk => {| VectorStore.document_id := document_id;
                                     chunk_text := chunk;
                                     chunk_index := i;
                                     timestamp := now |}) chunks)))
          = count c + len (filter (fun k => k ∉ dom c) ids)) as Hcount.
  { unfold count, len. rewrite add_rows_size by (rewrite Hids; apply ids_NoDup).
    rewrite Hids. lia. }
  split; [exact Hcount|].
  assert (length ids = length chunks) as Hn
    by (subst ids; by rewrite length_map, length_seq).
  split; [|].
  - rewrite Hcount. unfold len.
    pose proof (length_filter (fun k => k ∉ dom c) ids). lia.
  - intros Hfresh. rewrite Hcount. unfold len. rewrite filter_all; [lia|].
    subst ids. change (map ?f ?l) with (f <$> l).
    intros k (i & -> & Hi)%list_elem_of_fmap. apply elem_of_seq in Hi.
    apply not_elem_of_dom, Hfresh. lia.
Qed.

Lemma store_count_witness :
  exists t c',
    store_document (V := list Z) ∅ (lit "2026-01-01T00:00:00+00:00")
      (lit "doc") [lit "alpha"; lit "beta"] [[1; 2]; [3; 4]] = (t, Returns c')
    /\ count c' = count (∅ : collection (list Z))
                  + len (filter (fun k => k ∉ dom (∅ : collection (list Z)))
                           (map (chunk_id (lit "doc"))
                              (seq 0 (length [lit "alpha"; lit "beta"]))))
    /\ count (∅ : collection (list Z)) <= count c'
       <= count (∅ : collection (list Z)) + len [lit "alpha"; lit "beta"]
    /\ ((forall i, (i < length [lit "alpha"; lit "beta"])%nat ->
           (∅ : collection (list Z)) !! chunk_id (lit "doc") i = None) ->
        count c' = count (∅ : collection (list Z)) + len [lit "alpha"; lit "beta"]).
Proof.
  apply (store_count (V := list Z) ∅ (lit "2026-01-01T00:00:00+00:00")
           (lit "doc") [lit "alpha"; lit "beta"] [[1; 2]; [3; 4]]).
  reflexivity.
Defined.




(** X16: [store_document] keeps the collection well formed: when every record
    sits under the id its metadata names and repeats its text in its
    metadata, the same holds after the call; it holds of the empty
    collection. *)
Theorem store_keeps_well_formed {V} (c : collection V) now document_id
    chunks (embeddings : list V) :
  well_formed c -> length embeddings = length chunks ->
  well_formed (∅ : collection V)
  /\ exists t c',
       store_document c now document_id chunks embeddings = (t, Returns c')
       /\ well_formed c'.
Proof.
  intros Hwf Hlen. split; [intros k r Hk; by rewrite lookup_empty in Hk|].
  destruct (store_document_effect c now document_id chunks embeddings Hlen)
    as (t & c' & Hrun & Hkeep & _ & Hnew).
  exists t, c'. split; [exact Hrun|].
  intros k r Hk. destruct (c !! k) as [r0|] eqn:Hc.
  - rewrite (Hkeep k r0 Hc) in Hk. injection Hk as <-. by apply Hwf.
  - destruct (Hnew k r Hk Hc) as (i & _ & -> & -> & -> & _ & _ & Htext & _).
    done.
Qed.

Lemma store_keeps_well_formed_witness :
  well_formed (∅ : collection (list Z))
  /\ exists t c',
       store_document (V := list Z) ∅ (lit "2026-01-01T00:00:00+00:00")
         (lit "doc") [lit "alpha"; lit "beta"] [[1; 2]; [3; 4]] = (t, Returns c')
       /\ well_formed c'.
Proof.
  apply (store_keeps_well_formed (V := list Z) ∅
           (lit "2026-01-01T00:00:00+00:00") (lit "doc")
           [lit "alpha"; lit "beta"] [[1; 2]; [3; 4]]).
  - intros k r Hk. rewrite lookup_empty in Hk. discriminate Hk.
  - reflexivity.
Defined.

(** ** The endpoints of main.py *)

Section EndpointProofs.
Context {F : Type}.
Implicit Types (H : host F) (c : gmap str (record (list F))).

Lemma wbind_returns {A B} (m : W F A) (k : A -> W F B) c t c1 a :
  m c = (t, (c1, Returns a)) ->
  (m ≫= k) c = (t ++ (k a c1).1, (k a c1).2).
Proof. intros Hm. unfold mbind, W_bind. rewrite Hm. by destruct (k a c1). Qed.

Lemma wbind_raises {A B} (m : W F A) (k : A -> W F B) c t c1 e :
  m c = (t, (c1, Raises e)) -> (m ≫= k) c = (t, (c1, Raises e)).
Proof. intros Hm. unfold mbind, W_bind. by rewrite Hm. Qed.

Lemma wbind_out_of_fuel {A B} (m : W F A) (k : A -> W F B) c t c1 :
  m c = (t, (c1, OutOfFuel)) -> (m ≫= k) c = (t, (c1, OutOfFuel)).
Proof. intros Hm. unfold mbind, W_bind. by rewrite Hm. Qed.

(** Both endpoints are a check, a print and the same request. *)
Lemma upload_pdf_request H L fuel file :
  upload_pdf H L fuel file
  = ((if negb (bool_decide (content_type file
                            ∈ [Some (lit "application/pdf");
                               Some (lit "application/octet-stream")]))
         && negb (endswith (lower (default [] (filename file))) (lit ".pdf"))
      then wraise (HTTPException 400
                     (lit "Only PDF files are accepted. Please upload a .pdf file."))
      else mret tt);;
     wprint (MainPdfReceived (filename file) (content_type file));;
     request H (lit ".pdf") (PdfProcessorApi.process_pdf L fuel)
       (lit "No text could be extracted from the uploaded PDF. The file may be scanned/image-only.")).
Proof. reflexivity. Qed.

Lemma upload_document_request H L fuel file :
  let file_ext := (splitext H (lower (default [] (filename file)))).2 in
  upload_document H L fuel file
  = ((if negb (bool_decide (file_ext ∈ _ALLOWED_EXTENSIONS)) then
        wraise (HTTPException 400
                  (lit "Unsupported file type '" ++ file_ext
                   ++ lit "'. Accepted: .pdf, .docx, .pptx"))
      else mret tt);;
     wprint (MainDocReceived (filename file) file_ext (content_type file));;
     request H file_ext
       (fun tmp_path =>
          DocumentProcessorApi.process_document L fuel tmp_path file_ext)
       (lit "No text could be extracted from the uploaded file.")).
Proof. reflexivity. Qed.

Lemma store_document_finishes c now document_id chunks
    (embeddings : list (list F)) :
  finishes (store_document c now document_id chunks embeddings).
Proof.
  unfold store_document. destruct (truthy chunks); cbn [negb].
  - destruct (build_ids_metadatas _ _ _) as [ids metadatas].
    apply finishes_bind; [apply finishes_lib_call|].
    intros c'. by apply finishes_bind.
  - by apply finishes_bind.
Qed.

(** Steps 3 to 5 run as one of the cases. *)
Lemma ingest_cases H extract detail tmp_path c :
  exists t c' r,
    ingest H extract detail tmp_path c = (t, (c', r))
    /\ ingest_run H extract detail tmp_path c t c' r.
Proof.
  unfold ingest.
  destruct (extract tmp_path) as [tx [chunks|e|]] eqn:Hx.
  - destruct chunks as [|chunk chunks].
    + eexists _, _, _. split; [|by apply ingest_no_text].
      unfold mbind, W_bind, wprint, service, wraise. simpl.
      rewrite ?app_nil_r, <- ?app_assoc; reflexivity.
    + set (chs := chunk :: chunks) in *.
      destruct (encode H chs) as [[|first rest]|e] eqn:He.
      * eexists _, _, _. split; [|by eapply ingest_no_vectors].
        unfold mbind, W_bind, wprint, service, wraise, generate_embeddings,
          host_call, mret, W_ret.
        cbn [fst snd truthy negb chs]. fold chs.
        unfold mbind, W_bind, wprint, host_call. rewrite He. simpl.
        rewrite ?app_nil_r, <- ?app_assoc; reflexivity.
      * destruct (store_document c (clock H) (uuid4 H) chs (first :: rest))
          as [ts [c'|e|]] eqn:Hs.
        -- eexists _, _, _. split; [|by eapply ingest_stored].
           unfold mbind, W_bind, wprint, service, wraise, generate_embeddings,
             host_call, mret, W_ret, store.
           cbn [fst snd truthy negb chs]. fold chs.
           unfold mbind, W_bind, wprint, host_call, mret, W_ret.
           rewrite He. cbn [fst snd app]. rewrite Hs. simpl.
           rewrite ?app_nil_r, <- ?app_assoc; reflexivity.
        -- eexists _, _, _. split; [|by eapply ingest_store_raises].
           unfold mbind, W_bind, wprint, service, wraise, generate_embeddings,
             host_call, mret, W_ret, store.
           cbn [fst snd truthy negb chs]. fold chs.
           unfold mbind, W_bind, wprint, host_call, mret, W_ret.
           rewrite He. cbn [fst snd app]. rewrite Hs. simpl.
           rewrite ?app_nil_r, <- ?app_assoc; reflexivity.
        -- pose proof (store_document_finishes c (clock H) (uuid4 H) chs
                         (first :: rest)) as Hfin.
           rewrite Hs in Hfin. by destruct Hfin.
      * eexists _, _, _. split; [|by eapply ingest_encode_raises].
        unfold mbind, W_bind, wprint, service, wraise, generate_embeddings,
          host_call, mret, W_ret.
        cbn [fst snd truthy negb chs]. fold chs.
        unfold mbind, W_bind, wprint, host_call. rewrite He. simpl.
        rewrite ?app_nil_r, <- ?app_assoc; reflexivity.
  - eexists _, _, _. split; [|by apply ingest_extract_raises].
    unfold mbind, W_bind, wprint, service. reflexivity.
  - eexists _, _, _. split; [|by apply ingest_out_of_fuel].
    unfold mbind, W_bind, wprint, service. reflexivity.
Qed.

(** The check of step 1. *)
Lemma endpoint_rejected ep H L fuel file c :
  ~ accepted ep H file ->
  run_endpoint ep H L fuel file c = ([], (c, Raises (rejection ep H file))).
Proof.
  intros Hrej. destruct ep; cbn [run_endpoint rejection accepted] in *.
  - rewrite upload_pdf_request. unfold accepted_as_pdf in Hrej.
    rewrite bool_decide_eq_false_2 by tauto.
    destruct (endswith _ _); [tauto|]. reflexivity.
  - rewrite upload_document_request. cbv zeta. fold (file_ext_of H file).
    rewrite bool_decide_eq_false_2 by done. reflexivity.
Qed.

Lemma endpoint_accepted ep H L fuel file c :
  accepted ep H file ->
  run_endpoint ep H L fuel file c
  = (received ep H file
     :: (request H (temp_suffix ep H file) (extraction ep H L fuel file)
           (no_text_detail ep) c).1,
     (request H (temp_suffix ep H file) (extraction ep H L fuel file)
        (no_text_detail ep) c).2).
Proof.
  intros Hacc.
  destruct ep; cbn [run_endpoint accepted received temp_suffix extraction
                    no_text_detail] in *.
  - rewrite upload_pdf_request.
    assert (negb (bool_decide (content_type file
                               ∈ [Some (lit "application/pdf");
                                  Some (lit "application/octet-stream")]))
            && negb (endswith (lower (default [] (filename file))) (lit ".pdf"))
            = false) as ->.
    { destruct Hacc as [Hacc|Hacc].
      - by rewrite bool_decide_eq_true_2.
      - rewrite Hacc. by rewrite andb_false_r. }
    unfold mbind at 1 2, W_bind, mret, W_ret, wprint. cbn [app].
    by destruct (request _ _ _ _ c).
  - rewrite upload_document_request. cbv zeta. fold (file_ext_of H file).
    rewrite bool_decide_eq_true_2 by done. cbn [negb].
    unfold mbind at 1 2, W_bind, mret, W_ret, wprint. cbn [app].
    by destruct (request _ _ _ _ c).
Qed.

Lemma save_upload_ok H suffix tmp c :
  NamedTemporaryFile H suffix = Ok tmp -> copyfileobj H tmp = Ok tt ->
  save_upload H suffix c = (save_events suffix tmp, (c, Returns tmp)).
Proof.
  intros Hn Hc. unfold save_upload, mbind, W_bind, host_call, mret, W_ret.
  rewrite Hn. cbv beta iota. rewrite Hc. reflexivity.
Qed.

Lemma remove_temp_run H tmp c :
  tmp <> [] ->
  remove_temp H tmp c
  = (cleanup_events H tmp, (c, after_cleanup H tmp (Returns tt))).
Proof.
  intros Hne. unfold remove_temp, cleanup_events, after_cleanup.
  apply truthy_true in Hne. rewrite Hne.
  unfold mbind, W_bind, host_call, wprint, mret, W_ret.
  destruct (path_exists H tmp); [|reflexivity].
  by destruct (remove H tmp) as [[]|e].
Qed.

(** A request whose upload was saved: steps 3 to 5, then the [finally]
    block. *)
Lemma request_saved H suffix extract detail c tmp :
  NamedTemporaryFile H suffix = Ok tmp -> copyfileobj H tmp = Ok tt ->
  tmp <> [] ->
  exists t c' r,
    ingest_run H extract detail tmp c t c' r
    /\ request H suffix extract detail c
       = match r with
         | OutOfFuel => (save_events suffix tmp ++ t, (c', OutOfFuel))
         | _ => (save_events suffix tmp ++ t ++ cleanup_events H tmp,
                 (c', after_cleanup H tmp (respond r)))
         end.
Proof.
  intros Hn Hc Hne.
  destruct (ingest_cases H extract detail tmp c)
    as (t & c' & r & Hrun & Hcase).
  exists t, c', r. split; [done|].
  unfold request, try_finally_tmp_path, try_finally.
  unfold mbind, W_bind.
  rewrite (save_upload_ok H suffix tmp c Hn Hc), Hrun.
  rewrite (remove_temp_run H tmp c' Hne).
  unfold after_cleanup, respond.
  destruct r as [[document_id chunks]|e|]; [| |reflexivity];
    destruct (path_exists H tmp);
    try destruct (remove H tmp) as [[]|e'];
    unfold mret, W_ret; cbn beta iota; rewrite ?app_nil_r; reflexivity.
Qed.


Lemma save_upload_copy_fails H suffix tmp e c :
  NamedTemporaryFile H suffix = Ok tmp -> copyfileobj H tmp = Err e ->
  save_upload H suffix c = (save_events suffix tmp, (c, Raises e)).
Proof.
  intros Hn Hc. unfold save_upload, mbind, W_bind, host_call, mret, W_ret.
  rewrite Hn. cbv beta iota. rewrite Hc. reflexivity.
Qed.

(** The [finally] block never touches the collection. *)
Lemma remove_temp_keeps H tmp c :
  exists t r, remove_temp H tmp c = (t, (c, r)) /\ r <> OutOfFuel.
Proof.
  unfold remove_temp, mbind, W_bind, host_call, wprint, mret, W_ret.
  destruct (truthy tmp); [|by eexists _, _].
  destruct (path_exists H tmp); [|by eexists _, _].
  destruct (remove H tmp) as [[]|e]; by eexists _, _.
Qed.

(** What a request can do to the collection, and when it is still running
    as the fuel ends. *)
Lemma request_collection H suffix extract detail c :
  exists t c' r,
    request H suffix extract detail c = (t, (c', r))
    /\ (c' = c
        \/ exists tmp tx chunks first rest ts,
             NamedTemporaryFile H suffix = Ok tmp
             /\ copyfileobj H tmp = Ok tt
             /\ extract tmp = (tx, Returns chunks) /\ chunks <> []
             /\ encode H chunks = Ok (first :: rest)
             /\ store_document c (clock H) (uuid4 H) chunks (first :: rest)
                = (ts, Returns c'))
    /\ (r = OutOfFuel ->
        exists tmp, NamedTemporaryFile H suffix = Ok tmp
                    /\ ~ finishes (extract tmp)).
Proof.
  unfold request, try_finally_tmp_path, try_finally.
  unfold mbind at 1, W_bind at 1.
  destruct (NamedTemporaryFile H suffix) as [tmp|e] eqn:Hn.
  - destruct (copyfileobj H tmp) as [[]|e] eqn:Hc.
    + rewrite (save_upload_ok H suffix tmp c Hn Hc).
      destruct (ingest_cases H extract detail tmp c)
        as (t & c' & r & Hrun & Hcase).
      rewrite Hrun.
      destruct (remove_temp_keeps H tmp c') as (tf & rf & Hf & Hrf).
      rewrite Hf.
      assert (c' = c
              \/ exists tmp0 tx chunks first rest ts,
                   Ok tmp = Ok tmp0
                   /\ copyfileobj H tmp0 = Ok tt
                   /\ extract tmp0 = (tx, Returns chunks) /\ chunks <> []
                   /\ encode H chunks = Ok (first :: rest)
                   /\ store_document c (clock H) (uuid4 H) chunks
                        (first :: rest) = (ts, Returns c')) as Hc'.
      { inversion Hcase; subst; eauto 16. }
      destruct r as [[document_id chunks]|e|].
      * destruct rf as [[]|e|]; [| |done];
          unfold mret, W_ret; cbn beta iota;
          eexists _, _, _; (split; [reflexivity|]); by split.
      * destruct rf as [[]|e'|]; [| |done];
          eexists _, _, _; (split; [reflexivity|]); by split.
      * eexists _, _, _. split; [reflexivity|]. split; [done|].
        intros _. exists tmp. split; [done|].
        inversion Hcase; subst. unfold finishes.
        match goal with Hx : extract tmp = _ |- _ => rewrite Hx end.
        cbn. tauto.
    + rewrite (save_upload_copy_fails H suffix tmp e c Hn Hc).
      unfold wraise, remove_temp. cbn.
      eexists _, _, _. split; [reflexivity|]. split; [by left|done].
  - unfold save_upload, mbind, W_bind, host_call. rewrite Hn.
    unfold wraise, remove_temp. cbn.
    eexists _, _, _. split; [reflexivity|]. split; [by left|done].
Qed.

Lemma accepted_dec ep H file : accepted ep H file \/ ~ accepted ep H file.
Proof.
  destruct ep; cbn [accepted]; unfold accepted_as_pdf.
  - destruct (decide (content_type file
                      ∈ [Some (lit "application/pdf");
                         Some (lit "application/octet-stream")]));
      [tauto|].
    destruct (endswith _ _); [tauto|]. right. intros [?|?]; [done|discriminate].
  - destruct (decide (file_ext_of H file ∈ _ALLOWED_EXTENSIONS)); tauto.
Qed.

Lemma no_removal_service (tx : list event) :
  Forall (fun e => ~ is_removal e) (Service <$> tx).
Proof. apply Forall_fmap, Forall_forall. intros e _. cbn. tauto. Qed.


(** With enough fuel the extraction of either endpoint ends. *)
Lemma extract_text_native_finishes reader :
  finishes (_extract_text_native reader).
Proof.
  unfold _extract_text_native. apply finishes_bind; [|done].
  apply finishes_for_each. intros pages [i page].
  apply finishes_bind; [apply finishes_lib_call | done].
Qed.

Lemma image_loop_body_finishes page_num st img_obj :
  finishes (image_loop_body page_num st img_obj).
Proof.
  unfold image_loop_body. destruct st as [image_texts total_images].
  apply finishes_try_except.
  - apply finishes_bind; [apply finishes_lib_call|]. intros text.
    destruct (truthy _); [by apply finishes_bind | done].
  - intros exc. by apply finishes_bind.
Qed.

Lemma extract_images_text_finishes reader :
  finishes (_extract_images_text reader).
Proof.
  unfold _extract_images_text. apply finishes_bind.
  - apply finishes_for_each. intros st [page_num page]. unfold page_loop_body.
    apply finishes_bind.
    + apply finishes_try_except; [|done].
      unfold finishes, lib_call. by destruct (images page).
    + intros [images|]; [|done].
      apply finishes_for_each. intros. apply image_loop_body_finishes.
  - intros [image_texts total_images].
    apply finishes_bind; [by destruct (_ =? _)|done].
Qed.

Lemma stage_parts_finishes L reader file_path :
  finishes (stage_parts L reader file_path).
Proof.
  unfold stage_parts.
  apply finishes_bind; [done|]. intros _.
  apply finishes_bind; [apply extract_text_native_finishes|]. intros native_text.
  apply finishes_bind.
  { destruct (truthy _); by apply finishes_bind. }
  intros parts. apply finishes_bind; [done|]. intros _.
  apply finishes_bind.
  { apply finishes_try_except.
    - apply finishes_bind; [apply extract_text_ocr_finishes|]. intros ocr_text.
      destruct (truthy _); by apply finishes_bind.
    - intros e. by apply finishes_bind. }
  intros parts'. apply finishes_bind; [done|]. intros _.
  apply finishes_try_except.
  - apply finishes_bind; [apply extract_images_text_finishes|]. intros img_text.
    destruct (truthy _); by apply finishes_bind.
  - intros e. by apply finishes_bind.
Qed.

Lemma process_pdf_finishes L file_path :
  exists n, forall fuel, (n < fuel)%nat ->
    finishes (process_pdf L fuel file_path).
Proof.
  destruct (PdfReader L file_path) as [reader|e] eqn:Hreader.
  - destruct (stage_parts L reader file_path) as [t [parts|e|]] eqn:Hparts.
    + destruct (process_pdf_run L file_path reader t parts Hreader Hparts)
        as (chunks & _ & Hrun).
      exists (length (strip (sub_ws (join (lit " ") parts)))).
      intros fuel Hfuel. destruct (Hrun fuel Hfuel) as (_ & t' & ->). done.
    + exists 0%nat. intros fuel _. unfold process_pdf.
      rewrite Hreader. unfold lib_call. rewrite bind_returns, Hparts. done.
    + pose proof (stage_parts_finishes L reader file_path) as Hfin.
      rewrite Hparts in Hfin. by destruct Hfin.
  - exists 0%nat. intros fuel _. unfold process_pdf. by rewrite Hreader.
Qed.

Lemma extract_raw_finishes L ext file_path :
  finishes (extract_raw L ext file_path).
Proof.
  unfold extract_raw. repeat case_bool_decide; [| | |done].
  - unfold _extract_pdf. apply finishes_bind; [apply finishes_lib_call|].
    intros reader. apply finishes_bind; [|done].
    apply finishes_for_each. intros pages [i page].
    apply finishes_bind; [apply finishes_lib_call|]. by intros [text|].
  - unfold _extract_docx. apply finishes_bind; [apply finishes_lib_call|done].
  - unfold _extract_pptx. apply finishes_bind; [apply finishes_lib_call|done].
Qed.

Lemma process_document_finishes L file_path file_ext :
  exists n, forall fuel, (n < fuel)%nat ->
    finishes (process_document L fuel file_path file_ext).
Proof.
  destruct (decide (lower file_ext ∈ _SUPPORTED_EXTENSIONS)) as [Hext|Hext].
  - destruct (extract_raw L (lower file_ext) file_path) as [t [raw|e|]] eqn:Hraw.
    + destruct (process_document_run L file_path file_ext t raw Hext Hraw)
        as (chunks & _ & Hrun).
      exists (length (strip (sub_ws raw))).
      intros fuel Hfuel. destruct (Hrun fuel Hfuel) as (_ & t' & ->). done.
    + exists 0%nat. intros fuel _. unfold process_document.
      rewrite bool_decide_eq_true_2 by done. cbn [negb].
      rewrite bind_print, Hraw. done.
    + pose proof (extract_raw_finishes L (lower file_ext) file_path) as Hfin.
      rewrite Hraw in Hfin. by destruct Hfin.
  - exists 0%nat. intros fuel _. unfold process_document.
    by rewrite bool_decide_eq_false_2.
Qed.

Lemma extraction_finishes ep H L file tmp :
  exists n, forall fuel, (n < fuel)%nat ->
    finishes (extraction ep H L fuel file tmp).
Proof.
  destruct ep; cbn [extraction].
  - apply process_pdf_finishes.
  - apply process_document_finishes.
Qed.

(** What [store_document] returned on a non-empty batch, it returned for
    one embedding per chunk. *)
Lemma store_document_returned_lengths c now document_id chunks
    (embeddings : list (list F)) ts c' :
  store_document c now document_id chunks embeddings = (ts, Returns c') ->
  chunks <> [] -> length embeddings = length chunks.
Proof.
  intros Hs Hne. unfold store_document in Hs.
  apply truthy_true in Hne. rewrite Hne in Hs. cbn [negb] in Hs.
  rewrite build_ids_metadatas_run in Hs.
  unfold collection_add in Hs.
  case_bool_decide as Hlen.
  - destruct Hlen as (Hlen & _). by rewrite length_map, length_seq in Hlen.
  - discriminate Hs.
Qed.


(** X17: an upload that fails the check of step 1 is answered with the 400 of
    its endpoint before anything else happens: nothing is printed, no
    temporary file is created, no service is called and the collection is
    as it was. *)
Theorem rejected_upload_has_no_effect ep H L fuel file c :
  ~ accepted ep H file ->
  run_endpoint ep H L fuel file c = ([], (c, Raises (rejection ep H file))).
Proof. apply endpoint_rejected. Qed.

(** X18: when [shutil.copyfileobj] raises, [tmp_path] is still the empty string: the
    [finally] block removes nothing, the temporary file that
    [NamedTemporaryFile(delete=False)] created stays on disk, and the
    request ends with the exception of the copy. *)
Theorem failed_copy_leaves_temp_file ep H L fuel file c tmp e :
  accepted ep H file ->
  NamedTemporaryFile H (temp_suffix ep H file) = Ok tmp ->
  copyfileobj H tmp = Err e ->
  run_endpoint ep H L fuel file c
  = (received ep H file :: save_events (temp_suffix ep H file) tmp,
     (c, Raises e)).
Proof.
  intros Hacc Hn Hc. rewrite endpoint_accepted by done.
  unfold request, try_finally_tmp_path, try_finally.
  unfold mbind at 1 2, W_bind at 1 2.
  rewrite (save_upload_copy_fails H _ tmp e c Hn Hc).
  unfold wraise, remove_temp. cbn [truthy mret W_ret fst snd].
  by rewrite app_nil_r.
Qed.

(** X19: once the upload is saved, every way out of the [try] block goes
    through the removal of the temporary file: whatever steps 3 to 5 do,
    the request ends with the events of the [finally] block on that file
    and removes nothing before. *)
Theorem temp_file_removed_on_every_path ep H L fuel file c tmp :
  accepted ep H file ->
  NamedTemporaryFile H (temp_suffix ep H file) = Ok tmp ->
  copyfileobj H tmp = Ok tt ->
  tmp <> [] ->
  finishes (extraction ep H L fuel file tmp) ->
  exists t c' r,
    run_endpoint ep H L fuel file c
    = (received ep H file
       :: save_events (temp_suffix ep H file) tmp
       ++ t ++ cleanup_events H tmp,
       (c', r))
    /\ Forall (fun e => ~ is_removal e) t
    /\ r <> OutOfFuel.
Proof.
  intros Hacc Hn Hc Hne Hfin. rewrite endpoint_accepted by done.
  destruct (request_saved H _ (extraction ep H L fuel file)
              (no_text_detail ep) c tmp Hn Hc Hne)
    as (t & c' & r & Hcase & ->).
  assert (Forall (fun e => ~ is_removal e) t) as Hrem.
  { inversion Hcase; subst; constructor; try (cbn; tauto);
      repeat first [ apply Forall_app; split
                   | apply no_removal_service
                   | constructor; [cbn; tauto|]
                   | apply Forall_nil_2 ]. }
  assert (r <> OutOfFuel) as Hr.
  { inversion Hcase; subst; try done.
    unfold finishes in Hfin.
    match goal with Hx : extraction _ _ _ _ _ _ = _ |- _ =>
      rewrite Hx in Hfin end.
    by destruct Hfin. }
  exists t, c'.
  destruct r as [[document_id chunks]|e|]; [| |done].
  - eexists. split; [reflexivity|]. split; [done|].
    unfold after_cleanup, respond. destruct (path_exists H tmp); [|done].
    by destruct (remove H tmp).
  - eexists. split; [reflexivity|]. split; [done|].
    unfold after_cleanup, respond. destruct (path_exists H tmp); [|done].
    by destruct (remove H tmp).
Qed.

(** X20: a saved upload from which the service extracts no chunk is answered
    with the 422 of its endpoint (or with the exception of a failing
    [os.remove]): between the extraction and the [finally] block nothing
    happens, so the embedding model and the collection are not called, and
    the collection is as it was. *)
Theorem no_text_is_rejected_before_the_model ep H L fuel file c tmp tx :
  accepted ep H file ->
  NamedTemporaryFile H (temp_suffix ep H file) = Ok tmp ->
  copyfileobj H tmp = Ok tt ->
  tmp <> [] ->
  extraction ep H L fuel file tmp = (tx, Returns []) ->
  run_endpoint ep H L fuel file c
  = (received ep H file
     :: save_events (temp_suffix ep H file) tmp
     ++ (AppPrint (MainSaved tmp) :: (Service <$> tx))
     ++ cleanup_events H tmp,
     (c, after_cleanup H tmp
           (Raises (HTTPException 422 (no_text_detail ep))))).
Proof.
  intros Hacc Hn Hc Hne Hx. rewrite endpoint_accepted by done.
  destruct (request_saved H _ (extraction ep H L fuel file)
              (no_text_detail ep) c tmp Hn Hc Hne)
    as (t & c' & r & Hcase & ->).
  destruct Hcase
    as [tx' Hx'|tx' e Hx'|tx' Hx'|tx' chunks' e Hx' Hne' He'
       |tx' chunks' Hx' Hne' He'|tx' chunks' first rest ts' e Hx' Hne' He' Hs'
       |tx' chunks' first rest ts' c' Hx' Hne' He' Hs'];
    rewrite Hx in Hx'; simplify_eq.
  reflexivity.
Qed.

(** X21: a request changes the collection in one way only: by the one call of
    [store_document] on the chunks that were extracted from the saved
    upload and the vectors the model gave for them, under the id of
    [uuid4], when that call returns.  That takes an upload that passed the
    check of step 1 and was copied to its temporary file: a request that is
    rejected, fails to save, finds no text, or fails in the model or in the
    store leaves the collection as it was. *)
Theorem collection_changes_only_through_store ep H L fuel file c :
  let c' := (run_endpoint ep H L fuel file c).2.1 in
  c' = c
  \/ (accepted ep H file
      /\ exists tmp tx chunks embeddings ts,
           NamedTemporaryFile H (temp_suffix ep H file) = Ok tmp
           /\ copyfileobj H tmp = Ok tt
           /\ extraction ep H L fuel file tmp = (tx, Returns chunks)
           /\ chunks <> []
           /\ encode H chunks = Ok embeddings
           /\ store_document c (clock H) (uuid4 H) chunks embeddings
              = (ts, Returns c')).
Proof.
  cbv zeta.
  destruct (accepted_dec ep H file) as [Hacc|Hrej];
    [|rewrite endpoint_rejected by done; by left].
  rewrite endpoint_accepted by done. cbn [fst snd].
  destruct (request_collection H (temp_suffix ep H file)
              (extraction ep H L fuel file) (no_text_detail ep) c)
    as (t & c' & r & -> & Hc' & _).
  cbn [fst snd].
  destruct Hc' as [->|(tmp & tx & chunks & first & rest & ts & Hc')];
    [by left | right; split; [done | eauto 10]].
Qed.

(** X22: a request only adds to the collection: every record the collection
    held is still there unchanged, and every new record sits under a chunk
    id of the [uuid4] of this request, with that id as its document id,
    its index, the time of the store and its own text in the metadata. *)
Theorem requests_only_add_records ep H L fuel file c :
  let c' := (run_endpoint ep H L fuel file c).2.1 in
  (forall k r, c !! k = Some r -> c' !! k = Some r)
  /\ (forall k r, c' !! k = Some r -> c !! k = None ->
        exists i, k = chunk_id (uuid4 H) i
                  /\ VectorStore.document_id (rec_metadata r) = uuid4 H
                  /\ chunk_index (rec_metadata r) = i
                  /\ timestamp (rec_metadata r) = clock H
                  /\ chunk_text (rec_metadata r) = rec_document r).
Proof.
  cbv zeta.
  destruct (accepted_dec ep H file) as [Hacc|Hrej];
    [|rewrite endpoint_rejected by done; cbn [fst snd];
      split; [done | congruence]].
  rewrite endpoint_accepted by done. cbn [fst snd].
  destruct (request_collection H (temp_suffix ep H file)
              (extraction ep H L fuel file) (no_text_detail ep) c)
    as (t & c' & r & -> & Hc' & _).
  cbn [fst snd].
  destruct Hc'
    as [->|(tmp & tx & chunks & first & rest & ts & _ & _ & _ & Hne & _ & Hs)];
    [split; [done | congruence]|].
  pose proof (store_document_returned_lengths _ _ _ _ _ _ _ Hs Hne) as Hlen.
  destruct (store_document_effect c (clock H) (uuid4 H) chunks (first :: rest)
              Hlen) as (ts' & c'' & Hs' & Hkeep & _ & Hnew).
  rewrite Hs in Hs'. injection Hs' as _ <-.
  split; [exact Hkeep|].
  intros k rec Hk Hnone.
  destruct (Hnew k rec Hk Hnone) as (i & _ & -> & Hd & Hi & Hts & _ & Htext & _).
  eauto 10.
Qed.

(** X23: an upload that is accepted, saved, gives chunks and gets one vector
    per chunk from the model is stored: the request returns the success
    response with the [uuid4] as [document_id] and [len(chunks)] as
    [chunks_stored] (unless [os.remove] fails in the [finally] block, whose
    exception then replaces the response although the document is stored),
    and afterwards the collection holds a record under every chunk id of
    the document, which for an id that was free holds that chunk and its
    vector. *)
Theorem successful_upload ep H L fuel file c tmp tx chunks embeddings :
  accepted ep H file ->
  NamedTemporaryFile H (temp_suffix ep H file) = Ok tmp ->
  copyfileobj H tmp = Ok tt ->
  tmp <> [] ->
  extraction ep H L fuel file tmp = (tx, Returns chunks) ->
  chunks <> [] ->
  encode H chunks = Ok embeddings ->
  length embeddings = length chunks ->
  exists t c',
    run_endpoint ep H L fuel file c
    = (t, (c', after_cleanup H tmp
                 (Returns {| status := lit "success";
                             response_document_id := uuid4 H;
                             chunks_stored := len chunks |})))
    /\ forall i chunk, chunks !! i = Some chunk ->
         exists r, c' !! chunk_id (uuid4 H) i = Some r
                   /\ (c !! chunk_id (uuid4 H) i = None ->
                       rec_document r = chunk
                       /\ embeddings !! i = Some (rec_embedding r)).
Proof.
  intros Hacc Hn Hc Hne Hx Hchunks He Hlen.
  rewrite endpoint_accepted by done.
  destruct (request_saved H _ (extraction ep H L fuel file)
              (no_text_detail ep) c tmp Hn Hc Hne)
    as (t & c' & r & Hcase & ->).
  destruct (store_document_returns c (clock H) (uuid4 H) chunks embeddings
              Hlen) as (ts & Hs & Hids).
  destruct (store_document_effect c (clock H) (uuid4 H) chunks embeddings
              Hlen) as (ts' & c'' & Hs' & _ & _ & Hnew).
  rewrite Hs in Hs'. injection Hs' as <- <-.
  destruct Hcase
    as [tx' Hx'|tx' e Hx'|tx' Hx'|tx' chunks' e Hx' Hne' He'
       |tx' chunks' Hx' Hne' He'|tx' chunks' first rest ts' e Hx' Hne' He' Hs'
       |tx' chunks' first rest ts' c' Hx' Hne' He' Hs'];
    rewrite Hx in Hx'; simplify_eq; try congruence.
  { rewrite He in He'. simplify_eq. by destruct chunks'. }
  rewrite He in He'. simplify_eq. rewrite Hs in Hs'. simplify_eq.
  rename chunks' into chunks.
  eexists _, _. split; [reflexivity|].
  intros i chunk Hi.
  assert (is_Some (foldl add_row c
                     (rows (map (chunk_id (uuid4 H)) (seq 0 (length chunks)))
                        (first :: rest) chunks
                        (imap (fun i chunk =>
                                 {| VectorStore.document_id := uuid4 H;
                                    chunk_text := chunk;
                                    chunk_index := i;
                                    timestamp := clock H |}) chunks))
                   !! chunk_id (uuid4 H) i)) as [rec Hrec].
  { apply lookup_lt_Some in Hi as Hlt.
    assert ((rows (map (chunk_id (uuid4 H)) (seq 0 (length chunks)))
               (first :: rest) chunks
               (imap (fun i chunk =>
                        {| VectorStore.document_id := uuid4 H;
                           chunk_text := chunk;
                           chunk_index := i;
                           timestamp := clock H |}) chunks)).*1 !! i
            = Some (chunk_id (uuid4 H) i)) as Hrow.
    { rewrite Hids. change (map ?f ?l) with (f <$> l).
      rewrite list_lookup_fmap, lookup_seq_lt by done. reflexivity. }
    apply list_lookup_fmap_Some_1 in Hrow as (row & Hk & Hrow).
    rewrite Hk. apply add_rows_present. by eapply list_elem_of_lookup_2. }
  exists rec. split; [exact Hrec|]. intros Hfree.
  destruct (Hnew _ _ Hrec Hfree)
    as (j & _ & Hj & _ & _ & _ & Hdoc & _ & Hemb).
  apply chunk_id_inj in Hj as [_ <-].
  rewrite Hi in Hdoc. injection Hdoc as ->. done.
Qed.

(** X24: enough fuel for the chunker is all a request needs to come to an end:
    for every upload, machine and collection there is a bound above which
    the request returns or raises, whatever the libraries answer. *)
Theorem enough_fuel_always_answers ep H L file c :
  exists n, forall fuel, (n < fuel)%nat ->
    (run_endpoint ep H L fuel file c).2.2 <> OutOfFuel.
Proof.
  destruct (accepted_dec ep H file) as [Hacc|Hrej];
    [|exists 0%nat; intros fuel _; by rewrite endpoint_rejected].
  destruct (NamedTemporaryFile H (temp_suffix ep H file)) as [tmp|e] eqn:Hn.
  - destruct (extraction_finishes ep H L file tmp) as [n Hfin].
    exists n. intros fuel Hfuel. rewrite endpoint_accepted by done.
    cbn [fst snd].
    destruct (request_collection H (temp_suffix ep H file)
                (extraction ep H L fuel file) (no_text_detail ep) c)
      as (t & c' & r & -> & _ & Hout).
    cbn [fst snd]. intros ->.
    destruct (Hout eq_refl) as (tmp' & Hn' & Hnot).
    rewrite Hn in Hn'. injection Hn' as <-. by apply Hnot, Hfin.
  - exists 0%nat. intros fuel _. rewrite endpoint_accepted by done.
    cbn [fst snd].
    destruct (request_collection H (temp_suffix ep H file)
                (extraction ep H L fuel file) (no_text_detail ep) c)
      as (t & c' & r & -> & _ & Hout).
    cbn [fst snd]. intros ->.
    destruct (Hout eq_refl) as (tmp' & Hn' & _). congruence.
Qed.

(** X25: the check of [upload_document] implies the check of
    [process_document]: for an upload the endpoint accepts, the service
    does not raise its own [ValueError] for the extension but starts to
    extract, under the extension as the endpoint read it, and whatever
    exception the service ends with is one a library raised while the
    temporary file was opened or read. *)
Theorem accepted_document_reaches_extraction H L fuel file tmp :
  accepted UploadDocument H file ->
  (exists t r,
     extraction UploadDocument H L fuel file tmp
     = (Print (DocExtracting tmp (file_ext_of H file)) :: t, r))
  /\ (forall t e,
        extraction UploadDocument H L fuel file tmp = (t, Raises e) ->
        raised_by_library L (file_ext_of H file) tmp e).
Proof.
  cbn [accepted extraction]. unfold _ALLOWED_EXTENSIONS. intros Hacc.
  assert (lower (file_ext_of H file) = file_ext_of H file
          /\ lower (file_ext_of H file) ∈ _SUPPORTED_EXTENSIONS)
    as [Hlow Hext].
  { repeat (apply elem_of_cons in Hacc as [->|Hacc];
            [split; [reflexivity | compute_done]|]).
    by apply elem_of_nil in Hacc. }
  split.
  - unfold process_document. cbv zeta.
    rewrite bool_decide_eq_true_2 by done. cbn [negb].
    rewrite bind_print, Hlow. eauto.
  - intros t e Hrun. rewrite <- Hlow.
    by eapply process_document_raises.
Qed.

End EndpointProofs.

Lemma rejected_upload_has_no_effect_witness :
  run_endpoint UploadDocument working_host office_files 2000 notes_txt ∅
  = ([], (∅, Raises (HTTPException 400
                       (lit "Unsupported file type '.txt'. Accepted: .pdf, .docx, .pptx")))).
Proof.
  apply (rejected_upload_has_no_effect UploadDocument working_host
           office_files 2000 notes_txt ∅).
  cbn [accepted]. compute_done.
Defined.

Lemma failed_copy_leaves_temp_file_witness :
  run_endpoint UploadPdf full_disk office_files 2000 scan_pdf ∅
  = ([AppPrint (MainPdfReceived (Some (lit "scan.pdf"))
                  (Some (lit "application/pdf")));
      AppCall (CallNamedTemporaryFile (lit ".pdf"));
      AppCall (CallCopyFileObj (lit "/tmp/tmpab12.pdf"))],
     (∅, Raises {| cls := Exception;
                   msg := lit "OSError: No space left on device" |})).
Proof.
  apply (failed_copy_leaves_temp_file UploadPdf full_disk office_files 2000
           scan_pdf ∅ (lit "/tmp/tmpab12.pdf")).
  - left. compute_done.
  - reflexivity.
  - reflexivity.
Defined.

Lemma temp_file_removed_on_every_path_witness :
  exists t c' r,
    run_endpoint UploadDocument working_host office_files 2000 report_docx ∅
    = (received UploadDocument working_host report_docx
       :: save_events (temp_suffix UploadDocument working_host report_docx)
            (lit "/tmp/tmpab12.docx")
       ++ t ++ cleanup_events working_host (lit "/tmp/tmpab12.docx"),
       (c', r))
    /\ Forall (fun e => ~ is_removal e) t
    /\ r <> OutOfFuel.
Proof.
  apply (temp_file_removed_on_every_path UploadDocument working_host
           office_files 2000 report_docx ∅ (lit "/tmp/tmpab12.docx")).
  - cbn [accepted]. compute_done.
  - reflexivity.
  - reflexivity.
  - discriminate.
  - unfold finishes. vm_compute. discriminate.
Defined.

Lemma no_text_is_rejected_before_the_model_witness :
  run_endpoint UploadDocument working_host blank_files 2000 report_docx ∅
  = ([AppPrint (MainDocReceived (Some (lit "Report.docx")) (lit ".docx")
                  (Some (lit "application/octet-stream")));
      AppCall (CallNamedTemporaryFile (lit ".docx"));
      AppCall (CallCopyFileObj (lit "/tmp/tmpab12.docx"));
      AppPrint (MainSaved (lit "/tmp/tmpab12.docx"));
      Service (Print (DocExtracting (lit "/tmp/tmpab12.docx") (lit ".docx")));
      Service (Call (CallDocument (lit "/tmp/tmpab12.docx")));
      Service (Print DocNoText);
      AppCall (CallExists (lit "/tmp/tmpab12.docx"));
      AppCall (CallRemove (lit "/tmp/tmpab12.docx"));
      AppPrint (MainRemoved (lit "/tmp/tmpab12.docx"))],
     (∅, Raises (HTTPException 422
                   (lit "No text could be extracted from the uploaded file.")))).
Proof.
  apply (no_text_is_rejected_before_the_model UploadDocument working_host
           blank_files 2000 report_docx ∅ (lit "/tmp/tmpab12.docx")
           [Print (DocExtracting (lit "/tmp/tmpab12.docx") (lit ".docx"));
            Call (CallDocument (lit "/tmp/tmpab12.docx"));
            Print DocNoText]).
  - cbn [accepted]. compute_done.
  - reflexivity.
  - reflexivity.
  - discriminate.
  - by vm_compute.
Defined.

Lemma successful_upload_witness :
  exists t c',
    run_endpoint UploadDocument working_host office_files 2000 report_docx ∅
    = (t, (c', after_cleanup working_host (lit "/tmp/tmpab12.docx")
                 (Returns {| status := lit "success";
                             response_document_id := uuid4 working_host;
                             chunks_stored := len [lit "Hello world"] |})))
    /\ forall i chunk, [lit "Hello world"] !! i = Some chunk ->
         exists r, c' !! chunk_id (uuid4 working_host) i = Some r
                   /\ ((∅ : collection (list Z))
                         !! chunk_id (uuid4 working_host) i = None ->
                       rec_document r = chunk
                       /\ [[11; 1]] !! i = Some (rec_embedding r)).
Proof.
  apply (successful_upload UploadDocument working_host office_files 2000
           report_docx ∅ (lit "/tmp/tmpab12.docx")
           [Print (DocExtracting (lit "/tmp/tmpab12.docx") (lit ".docx"));
            Call (CallDocument (lit "/tmp/tmpab12.docx"));
            Print (DocExtracted 11); Print (DocCreated 1)]
           [lit "Hello world"] [[11; 1]]).
  - cbn [accepted]. compute_done.
  - reflexivity.
  - reflexivity.
  - discriminate.
  - by vm_compute.
  - discriminate.
  - reflexivity.
  - reflexivity.
Defined.

Lemma accepted_document_reaches_extraction_witness :
  (exists t r,
     extraction UploadDocument working_host office_files 2000 report_docx
       (lit "/tmp/tmpab12.docx")
     = (Print (DocExtracting (lit "/tmp/tmpab12.docx")
                 (file_ext_of working_host report_docx)) :: t, r))
  /\ (forall t e,
        extraction UploadDocument working_host office_files 2000 report_docx
          (lit "/tmp/tmpab12.docx") = (t, Raises e) ->
        raised_by_library office_files (file_ext_of working_host report_docx)
          (lit "/tmp/tmpab12.docx") e).
Proof.
  apply (accepted_document_reaches_extraction working_host office_files 2000
           report_docx (lit "/tmp/tmpab12.docx")).
  cbn [accepted]. compute_done.
Defined.
